(** * MetronInfo tag writer of [metroninfoxml.py]

    A shallow embedding of the encoder [_convert_metadata_to_xml], of the
    adapter methods [has_tags] and [write_tags] and of the helpers they
    call, followed by the properties of the module's specification.

    Conventions of the embedding:
    - a Python [str] is a [string] of ASCII characters; [str.lower],
      [str.casefold] and [str.capitalize] are their ASCII versions;
    - [None] is [None]; an [int | None] field is an [option Z];
    - a Python set is the list of its members in iteration order, without
      duplicates;
    - a raised exception is the [Raise] case of [Result];
    - an [xml.etree.ElementTree.Element] is a finite tree; the handles the
      encoder keeps on the top-level children of the root are denoted by
      their tags, each handle being the first child of the root with its
      tag from the moment it is obtained. *)

From Stdlib Require Import String Ascii List ZArith Lia Bool DecimalString.
Import ListNotations.
Open Scope string_scope.


(** ** Python strings *)

Module PyStr.

Definition is_upper (c : ascii) : bool :=
  let n := nat_of_ascii c in (65 <=? n)%nat && (n <=? 90)%nat.

Definition is_lower (c : ascii) : bool :=
  let n := nat_of_ascii c in (97 <=? n)%nat && (n <=? 122)%nat.

Definition lower_char (c : ascii) : ascii :=
  if is_upper c then ascii_of_nat (nat_of_ascii c + 32) else c.

Definition upper_char (c : ascii) : ascii :=
  if is_lower c then ascii_of_nat (nat_of_ascii c - 32) else c.

Fixpoint map_chars (f : ascii -> ascii) (s : string) : string :=
  match s with
  | EmptyString => EmptyString
  | String c s' => String (f c) (map_chars f s')
  end.

(** [s.lower()] *)
Definition lower (s : string) : string := map_chars lower_char s.

(** [s.casefold()] *)
Definition casefold (s : string) : string := map_chars lower_char s.

(** [s.capitalize()] *)
Definition capitalize (s : string) : string :=
  match s with
  | EmptyString => EmptyString
  | String c s' => String (upper_char c) (lower s')
  end.

(** [s.replace(' ', '_')] *)
Definition replace_space (s : string) : string :=
  map_chars (fun c => if Ascii.eqb c " " then "_"%char else c) s.

(** The characters [str.strip] and [str.isspace] treat as whitespace. *)
Definition is_space (c : ascii) : bool :=
  let n := nat_of_ascii c in
  ((9 <=? n)%nat && (n <=? 13)%nat) || ((28 <=? n)%nat && (n <=? 32)%nat).

Fixpoint lstrip (s : string) : string :=
  match s with
  | EmptyString => EmptyString
  | String c s' => if is_space c then lstrip s' else s
  end.

Fixpoint rstrip (s : string) : string :=
  match s with
  | EmptyString => EmptyString
  | String c s' =>
      match rstrip s' with
      | EmptyString => if is_space c then EmptyString else String c EmptyString
      | r => String c r
      end
  end.

(** [s.strip()] *)
Definition strip (s : string) : string := rstrip (lstrip s).

(** [s.split(sep)] for a separator of one character. *)
Fixpoint split (sep : ascii) (s : string) : list string :=
  match s with
  | EmptyString => [EmptyString]
  | String c s' =>
      if Ascii.eqb c sep then EmptyString :: split sep s'
      else match split sep s' with
           | [] => [String c EmptyString]
           | w :: ws => String c w :: ws
           end
  end.

(** [s.startswith(p)] *)
Definition startswith (p s : string) : bool := String.prefix p s.

(** [x in l] for a list or tuple of strings. *)
Definition mem (x : string) (l : list string) : bool :=
  existsb (String.eqb x) l.

(** Truth value of a string: [bool(s)]. *)
Definition nonempty (s : string) : bool :=
  match s with EmptyString => false | _ => true end.

(** [s * n] *)
Fixpoint repeat (s : string) (n : nat) : string :=
  match n with
  | O => EmptyString
  | S n' => s ++ repeat s n'
  end.

(** [str(n)] for an integer. *)
Definition of_int (z : Z) : string := NilZero.string_of_int (Z.to_int z).

(** [format(n, '0w')]: sign-aware zero padding to a minimum width. *)
Definition zero_pad (w : nat) (z : Z) : string :=
  let digits := NilZero.string_of_uint (N.to_uint (Z.abs_N z)) in
  if (z <? 0)%Z
  then "-" ++ repeat "0" (pred w - String.length digits) ++ digits
  else repeat "0" (w - String.length digits) ++ digits.

End PyStr.

(** ** Exceptions *)

Inductive Exception : Type :=
| ParseError                       (* xml.etree.ElementTree.ParseError *)
| KeyError (key : string)
| AttributeError (attr : string)
| OtherError (msg : string).       (* any other exception, such as an I/O error *)

Inductive Result (A : Type) : Type :=
| OK (a : A)
| Raise (e : Exception).

Arguments OK {A} a.
Arguments Raise {A} e.

Definition bind {A B : Type} (r : Result A) (k : A -> Result B) : Result B :=
  match r with
  | OK a => k a
  | Raise e => Raise e
  end.

Notation "x <- r ;; k" := (bind r (fun x => k))
  (at level 61, r at next level, right associativity).

(** ** Element trees of [xml.etree.ElementTree] *)

Module ET.

#[warnings="-register-all"]
Inductive Element : Type :=
  mkElement {
    tag : string;
    attrib : list (string * string);
    text : option string;
    tail : option string;
    children : list Element
  }.

(** [d[k]] read, [None] standing for the [KeyError]. *)
Fixpoint dict_get (k : string) (d : list (string * string)) : option string :=
  match d with
  | [] => None
  | (k', v) :: d' => if String.eqb k' k then Some v else dict_get k d'
  end.

(** [d[k] = v]: an existing key keeps its place, a new one goes last. *)
Fixpoint dict_set (k v : string) (d : list (string * string)) : list (string * string) :=
  match d with
  | [] => [(k, v)]
  | (k', v') :: d' =>
      if String.eqb k' k then (k', v) :: d' else (k', v') :: dict_set k v d'
  end.

Definition set_attrib (k v : string) (e : Element) : Element :=
  mkElement (tag e) (dict_set k v (attrib e)) (text e) (tail e) (children e).

Definition set_text (t : option string) (e : Element) : Element :=
  mkElement (tag e) (attrib e) t (tail e) (children e).

Definition set_tail (t : option string) (e : Element) : Element :=
  mkElement (tag e) (attrib e) (text e) t (children e).

Definition set_children (cs : list Element) (e : Element) : Element :=
  mkElement (tag e) (attrib e) (text e) (tail e) cs.

(** [ET.Element(tag)] *)
Definition new (t : string) : Element := mkElement t [] None None [].

(** [parent.append(child)]; [ET.SubElement(parent, t)] is
    [append (new t) parent]. *)
Definition append (child : Element) (parent : Element) : Element :=
  set_children (children parent ++ [child]) parent.

(** [e.clear()]: children, attributes, text and tail are reset. *)
Definition clear (e : Element) : Element := new (tag e).

Fixpoint find_in (t : string) (cs : list Element) : option Element :=
  match cs with
  | [] => None
  | c :: cs' => if String.eqb (tag c) t then Some c else find_in t cs'
  end.

(** [e.find(t)] for a path [t] of one step: the first child tagged [t]. *)
Definition find (t : string) (e : Element) : option Element :=
  find_in t (children e).

(** In-place mutation of the first child tagged [t]. *)
Fixpoint update_in (t : string) (f : Element -> Element) (cs : list Element)
  : list Element :=
  match cs with
  | [] => []
  | c :: cs' =>
      if String.eqb (tag c) t then f c :: cs' else c :: update_in t f cs'
  end.

Definition with_child (t : string) (f : Element -> Element) (e : Element)
  : Element :=
  set_children (update_in t f (children e)) e.

(** *** [ET.indent(tree)] with the default two spaces *)

(** [not t or not t.strip()] *)
Definition blank (t : option string) : bool :=
  match t with
  | None => true
  | Some s => negb (PyStr.nonempty (PyStr.strip s))
  end.

Definition indentation (level : nat) : string :=
  String "010"%char (PyStr.repeat "  " level).

Fixpoint dedent_last (level : nat) (cs : list Element) : list Element :=
  match cs with
  | [] => []
  | [c] => [if blank (tail c) then set_tail (Some (indentation level)) c else c]
  | c :: cs' => c :: dedent_last level cs'
  end.

Definition is_leaf (e : Element) : bool :=
  match children e with [] => true | _ => false end.

Fixpoint _indent_children (level : nat) (elem : Element) : Element :=
  let child_indentation := indentation (S level) in
  let indent_child (child : Element) : Element :=
    let child' :=
      match children child with
      | [] => child
      | _ => _indent_children (S level) child
      end in
    if blank (tail child') then set_tail (Some child_indentation) child'
    else child' in
  mkElement (tag elem) (attrib elem)
    (if blank (text elem) then Some child_indentation else text elem)
    (tail elem)
    (dedent_last level (map indent_child (children elem))).

Definition indent (tree : Element) : Element :=
  if is_leaf tree then tree else _indent_children 0 tree.

End ET.

Import ET.

(** ** The generic metadata record of [comicapi.genericmetadata]

    Only the attributes the encoder reads are kept.  [price] holds
    [str(md.price)], with [None] for a null or zero price; [web_links]
    holds the [str] of each link. *)

Record Credit : Type := mkCredit { person : string; role : string }.

Record TagOrigin : Type := mkTagOrigin { origin_id : string; name : string }.

Record GenericMetadata : Type := mkGenericMetadata {
  data_origin : option TagOrigin;
  issue_id : option string;
  series_id : option string;
  series : option string;
  series_aliases : list string;
  issue : option string;
  issue_count : option Z;
  title : option string;
  volume : option Z;
  volume_count : option Z;
  genres : list string;
  description : option string;
  notes : option string;
  publisher : option string;
  imprint : option string;
  day : option Z;
  month : option Z;
  year : option Z;
  web_links : list string;
  format : option string;
  manga : option string;
  maturity_rating : option string;
  tags : list string;
  characters : list string;
  teams : list string;
  locations : list string;
  story_arcs : list string;
  credits : list Credit;
  price : option string;
  identifier : option string
}.

(** [GenericMetadata()] *)
Definition empty_metadata : GenericMetadata :=
  mkGenericMetadata None None None None [] None None None None None [] None
    None None None None None None [] None None None [] [] [] [] [] [] None None.

(** [md.format = v] *)
Definition set_format (v : option string) (md : GenericMetadata) : GenericMetadata :=
  mkGenericMetadata (data_origin md) (issue_id md) (series_id md) (series md)
    (series_aliases md) (issue md) (issue_count md) (title md) (volume md)
    (volume_count md) (genres md) (description md) (notes md) (publisher md)
    (imprint md) (day md) (month md) (year md) (web_links md) v (manga md)
    (maturity_rating md) (tags md) (characters md) (teams md) (locations md)
    (story_arcs md) (credits md) (price md) (identifier md).

(** [md.maturity_rating = v] *)
Definition set_maturity_rating (v : option string) (md : GenericMetadata)
  : GenericMetadata :=
  mkGenericMetadata (data_origin md) (issue_id md) (series_id md) (series md)
    (series_aliases md) (issue md) (issue_count md) (title md) (volume md)
    (volume_count md) (genres md) (description md) (notes md) (publisher md)
    (imprint md) (day md) (month md) (year md) (web_links md) (format md)
    (manga md) v (tags md) (characters md) (teams md) (locations md)
    (story_arcs md) (credits md) (price md) (identifier md).

(** The set [md.genres] after a mutation. *)
Definition set_genres (v : list string) (md : GenericMetadata) : GenericMetadata :=
  mkGenericMetadata (data_origin md) (issue_id md) (series_id md) (series md)
    (series_aliases md) (issue md) (issue_count md) (title md) (volume md)
    (volume_count md) v (description md) (notes md) (publisher md)
    (imprint md) (day md) (month md) (year md) (web_links md) (format md)
    (manga md) (maturity_rating md) (tags md) (characters md) (teams md)
    (locations md) (story_arcs md) (credits md) (price md) (identifier md).

(** [s.add(x)] on a set. *)
Definition set_add (x : string) (s : list string) : list string :=
  if PyStr.mem x s then s else s ++ [x].

(** Truth value of a [str | None]. *)
Definition truthy (o : option string) : bool :=
  match o with
  | Some s => PyStr.nonempty s
  | None => false
  end.

(** Truth value of an [int | None]. *)
Definition truthy_int (o : option Z) : bool :=
  match o with
  | Some z => negb (z =? 0)%Z
  | None => false
  end.

(** The synonym tuples [GenericMetadata.writer_synonyms] and the like:
    class attributes of [comicapi], outside this module. *)
Record Synonyms : Type := mkSynonyms {
  writer_synonyms : list string;
  penciller_synonyms : list string;
  inker_synonyms : list string;
  colorist_synonyms : list string;
  letterer_synonyms : list string;
  cover_synonyms : list string;
  editor_synonyms : list string;
  translator_synonyms : list string
}.

(** ** Module constants *)

Definition ADDITIONAL_CREDITS : list string :=
  [ "plot"; "story"; "interviewer"; "illustrator"; "layouts"; "embellisher";
    "ink assists"; "color separations"; "color assists"; "color flats";
    "digital art technician"; "gray tone"; "consulting editor";
    "assistant editor"; "associate editor"; "group editor"; "senior editor";
    "managing editor"; "collection editor"; "production"; "designer";
    "logo design"; "supervising editor"; "executive editor"; "editor in chief";
    "president"; "publisher"; "chief creative officer"; "executive producer";
    "other" ].

(** [self.file] *)
Definition file : string := "MetronInfo.xml".

(** The tags handed to [get_or_create_element], in the order of the calls. *)
Definition top_level_tags : list string :=
  [ "IDS"; "Number"; "Series"; "Stories"; "CollectionTitle"; "Summary";
    "Notes"; "Prices"; "GTIN"; "Genres"; "AgeRating"; "Tags"; "Arcs";
    "Characters"; "Teams"; "Locations"; "Publisher"; "CoverDate"; "URLs";
    "Credits"; "LastModified" ].

Definition bytes : Type := list Byte.byte.

(** ** The encoder: [MetronInfo._convert_metadata_to_xml] *)

(** [add_element(element, sub_element, text, attribs)]; the [isinstance]
    test cannot fail on an [Element]. *)
Definition add_element (sub_element : string) (text : string)
    (attribs : list (string * string)) (element : Element) : Element :=
  let new_element := ET.new sub_element in
  let new_element :=
    if PyStr.nonempty text then set_text (Some text) new_element
    else new_element in
  let new_element :=
    fold_left (fun e kv => set_attrib (fst kv) (snd kv) e) attribs new_element in
  append new_element element.

(** [add_path(path)] at a path of one step, the only kind the encoder
    passes: [path.split('/')] is [[path]], the loop runs once with [i = 0]. *)
Definition add_path (path : string) (root : Element) : Result Element :=
  let root :=
    match find path root with
    | None => add_element path "" [] root
    | Some _ => root
    end in
  match find path root with
  | None => Raise (OtherError "add_path: Failed to create XML path element")
  | Some _ => OK root
  end.

(** [get_or_create_element(tag)]: the root afterwards; the element returned
    is its first child tagged [tag]. *)
Definition get_or_create_element (tag : string) (root : Element) : Result Element :=
  match find tag root with
  | None => add_path tag root
  | Some _ => OK root
  end.

Fixpoint get_or_create_elements (tags : list string) (root : Element)
  : Result Element :=
  match tags with
  | [] => OK root
  | t :: tags' =>
      root' <- get_or_create_element t root ;;
      get_or_create_elements tags' root'
  end.

(** [add_credit(creator, roles)], on the handle [metron_credits]. *)
Definition add_credit (creator : string) (roles : list string)
    (metron_credits : Element) : Element :=
  if PyStr.nonempty creator then
    let ele_credit := add_element "Creator" creator [] (ET.new "Credit") in
    let ele_credit :=
      if (0 <? length roles)%nat then
        let ele_roles :=
          fold_left
            (fun ele_roles role =>
               append (set_text (Some role) (ET.new "Role")) ele_roles)
            roles (ET.new "Roles") in
        append ele_roles ele_credit
      else ele_credit in
    append ele_credit metron_credits
  else metron_credits.

Section Encoder.

Variable GM : Synonyms.

(** The reading of the clock: [datetime.datetime.now().isoformat()]. *)
Variable now : string.

(** [ET.fromstring] *)
Variable fromstring : bytes -> Result Element.

(** [ET.tostring(root, encoding='utf-8', xml_declaration=True)] *)
Variable tostring : Element -> bytes.

(** The role written for a credit: the [if]/[elif] chain over the synonyms. *)
Definition credit_role (role : string) : string :=
  let folded := PyStr.casefold role in
  if PyStr.mem folded (writer_synonyms GM) then "Writer"
  else if PyStr.mem folded (penciller_synonyms GM) then "Penciller"
  else if PyStr.mem folded (inker_synonyms GM) then "Inker"
  else if PyStr.mem folded (colorist_synonyms GM) then "Colorist"
  else if PyStr.mem folded (letterer_synonyms GM) then "Letterer"
  else if PyStr.mem folded (cover_synonyms GM) then "Cover"
  else if PyStr.mem folded (editor_synonyms GM) then "Editor"
  else if PyStr.mem folded ADDITIONAL_CREDITS then role
  else "Other".

(** [person.replace(' ', '_').casefold()] *)
Definition creator_folded (person : string) : string :=
  PyStr.casefold (PyStr.replace_space person).

(** [creators.setdefault(key, (person, []))[1].append(credit_role)] on the
    insertion-ordered dict [creators]. *)
Fixpoint setdefault_append (key person credit_role : string)
    (creators : list (string * (string * list string)))
  : list (string * (string * list string)) :=
  match creators with
  | [] => [(key, (person, [credit_role]))]
  | (k, (p, roles)) :: rest =>
      if String.eqb k key then (k, (p, (roles ++ [credit_role])%list)) :: rest
      else (k, (p, roles)) :: setdefault_append key person credit_role rest
  end.

(** The dict [creators] after the loop over [md.credits]. *)
Definition collect_creators (cs : list Credit)
  : list (string * (string * list string)) :=
  fold_left
    (fun creators credit =>
       setdefault_append (creator_folded (person credit)) (person credit)
         (credit_role (role credit)) creators)
    cs [].

Definition fill_credits (md : GenericMetadata) (metron_credits : Element) : Element :=
  let metron_credits := clear metron_credits in
  fold_left
    (fun metron_credits creator =>
       add_credit (fst (snd creator)) (snd (snd creator)) metron_credits)
    (collect_creators (credits md)) metron_credits.

Definition format_dict : list (string * string) :=
  [ ("annual", "Annual"); ("digital chapter", "Digital Chapter");
    ("graphic novel", "Graphic Novel"); ("hardcover", "Hardcover");
    ("limited series", "Limited Series"); ("omnibus", "Omnibus");
    ("trade paperback", "Trade Paperback"); ("oneshot", "One-Shot");
    ("single issue", "Single Issue") ].

Definition format_tpb : list string :=
  [ "trade paperback"; "collected edition"; "tpb"; "anthology";
    "trade paper back" ].

Definition format_one_shot : list string :=
  [ "oneshot"; "one-shot"; "one shot"; "1-shot"; "1 shot"; "1shot" ].

(** [d.get(k, default)] *)
Definition dict_get_default (k : string) (d : list (string * string))
    (default : string) : string :=
  match dict_get k d with
  | Some v => v
  | None => default
  end.

(** The value of [md.format] after the two assignments of the [Series]
    block, from its value before. *)
Definition normalize_format (fmt : string) : string :=
  let fmt :=
    if PyStr.mem (PyStr.casefold (PyStr.lower fmt)) format_tpb
    then nth 0 format_tpb ""
    else if PyStr.mem (PyStr.casefold (PyStr.lower fmt)) format_one_shot
    then nth 0 format_one_shot ""
    else fmt in
  dict_get_default (PyStr.casefold (PyStr.lower fmt)) format_dict "Single Issue".

Definition text_of (o : option string) : string :=
  match o with Some s => s | None => "" end.

Definition int_of (o : option Z) : Z :=
  match o with Some z => z | None => 0%Z end.

Definition fill_series (md : GenericMetadata) (metron_series : Element) : Element :=
  let metron_series := clear metron_series in
  if truthy (series md) then
    let metron_series :=
      match series_id md with
      | Some i => set_attrib "id" i metron_series
      | None => metron_series
      end in
    let metron_series := add_element "Name" (text_of (series md)) [] metron_series in
    let metron_series :=
      if truthy_int (volume md)
      then add_element "Volume" (PyStr.of_int (int_of (volume md))) [] metron_series
      else metron_series in
    let metron_series :=
      if truthy (format md)
      then add_element "Format" (normalize_format (text_of (format md))) []
             metron_series
      else metron_series in
    let metron_series :=
      if truthy_int (issue_count md)
      then add_element "IssueCount" (PyStr.of_int (int_of (issue_count md))) []
             metron_series
      else metron_series in
    let metron_series :=
      if truthy_int (volume_count md)
      then add_element "VolumeCount" (PyStr.of_int (int_of (volume_count md))) []
             metron_series
      else metron_series in
    match series_aliases md with
    | [] => metron_series
    | aliases =>
        let series_alts :=
          fold_left
            (fun series_alts series_alt =>
               add_element "AlternativeName" series_alt [] series_alts)
            aliases (ET.new "AlternativeNames") in
        append series_alts metron_series
    end
  else metron_series.

(** The record after the [Series] block: [md.format] is reassigned there. *)
Definition series_md (md : GenericMetadata) : GenericMetadata :=
  if truthy (series md) && truthy (format md)
  then set_format (Some (normalize_format (text_of (format md)))) md
  else md.

Definition fill_number (md : GenericMetadata) (metron_number : Element) : Element :=
  let metron_number := clear metron_number in
  if truthy (issue md) then set_text (issue md) metron_number else metron_number.

Definition is_trade_paperback (md : GenericMetadata) : bool :=
  match format md with
  | Some f => String.eqb f "Trade Paperback"
  | None => false
  end.

Definition fill_stories (md : GenericMetadata) (metron_stories : Element) : Element :=
  let metron_stories := clear metron_stories in
  if truthy (title md) && negb (is_trade_paperback md) then
    fold_left
      (fun metron_stories title =>
         add_element "Story" (PyStr.strip title) [] metron_stories)
      (PyStr.split ";" (text_of (title md))) metron_stories
  else metron_stories.

Definition fill_title (md : GenericMetadata) (metron_title : Element) : Element :=
  let metron_title := clear metron_title in
  if truthy (title md) && is_trade_paperback md
  then set_text (title md) metron_title
  else metron_title.

(** The record after [md.genres.add('Manga')]. *)
Definition manga_md (md : GenericMetadata) : GenericMetadata :=
  match manga md with
  | Some m =>
      if PyStr.startswith "yes" (PyStr.casefold m)
      then set_genres (set_add "Manga" (genres md)) md
      else md
  | None => md
  end.

(** A cleared element with one child per member of a collection. *)
Definition fill_list (sub_element : string) (items : list string)
    (element : Element) : Element :=
  fold_left (fun element item => add_element sub_element item [] element)
    items (clear element).

Definition fill_genres (md : GenericMetadata) (metron_genres : Element) : Element :=
  fill_list "Genre" (map PyStr.capitalize (genres md)) metron_genres.

Definition fill_summary (md : GenericMetadata) (metron_summary : Element) : Element :=
  let metron_summary := clear metron_summary in
  if truthy (description md) then set_text (description md) metron_summary
  else metron_summary.

Definition fill_urls (md : GenericMetadata) (metron_urls : Element) : Element :=
  fill_list "URL" (web_links md) metron_urls.

Definition mature_dict : list (string * string) :=
  [ ("unknown", "Unknown"); ("everyone", "Everyone"); ("teen", "Teen");
    ("teen plus", "Teen Plus"); ("mature", "Mature"); ("explicit", "Explicit");
    ("adult", "Adult") ].

Definition mature_everyone : list string :=
  [ "everyone"; "G"; "all"; "all ages"; "a"; "t" ].

Definition mature_teen : list string :=
  [ "teen"; "teenager"; "13+"; "T+"; "PG"; "PSR" ].

Definition mature_teenplus : list string :=
  [ "teen plus"; "teenager plus"; "15+"; "parental advisory"; "PG+"; "PSR+";
    "ma15+" ].

Definition mature_mature : list string :=
  [ "mature"; "17+"; "explicit content"; "m"; "mature 17+" ].

Definition mature_explicit : list string := [ "explicit"; "R" ].

Definition mature_adult : list string :=
  [ "adult"; "adults only"; "adults only 18+"; "18+"; "R18+"; "R+" ].

(** The value of [md.maturity_rating] after the assignments of the
    [AgeRating] block, from its value before. *)
Definition normalize_maturity (rating : string) : string :=
  let key := PyStr.casefold (PyStr.lower rating) in
  let rating :=
    if PyStr.mem key mature_everyone then nth 0 mature_everyone ""
    else if PyStr.mem key mature_teen then nth 0 mature_teen ""
    else if PyStr.mem key mature_teenplus then nth 0 mature_teenplus ""
    else if PyStr.mem key mature_mature then nth 0 mature_mature ""
    else if PyStr.mem key mature_explicit then nth 0 mature_explicit ""
    else if PyStr.mem key mature_adult then nth 0 mature_adult ""
    else rating in
  dict_get_default (PyStr.casefold (PyStr.lower rating)) mature_dict "Unknown".

Definition fill_age_rating (md : GenericMetadata) (metron_age_rating : Element)
  : Element :=
  let metron_age_rating := clear metron_age_rating in
  if truthy (maturity_rating md)
  then set_text (Some (normalize_maturity (text_of (maturity_rating md))))
         metron_age_rating
  else metron_age_rating.

(** The record after the [AgeRating] block. *)
Definition age_rating_md (md : GenericMetadata) : GenericMetadata :=
  if truthy (maturity_rating md)
  then set_maturity_rating
         (Some (normalize_maturity (text_of (maturity_rating md)))) md
  else md.

Definition fill_tags (md : GenericMetadata) (metron_tags : Element) : Element :=
  fill_list "Tag" (tags md) metron_tags.

Definition fill_characters (md : GenericMetadata) (metron_characters : Element)
  : Element :=
  fill_list "Character" (characters md) metron_characters.

Definition fill_teams (md : GenericMetadata) (metron_teams : Element) : Element :=
  fill_list "Team" (teams md) metron_teams.

Definition fill_locs (md : GenericMetadata) (metron_locs : Element) : Element :=
  fill_list "Location" (locations md) metron_locs.

Definition fill_arcs (md : GenericMetadata) (metron_arcs : Element) : Element :=
  fold_left
    (fun metron_arcs arc =>
       append (add_element "Name" arc [] (ET.new "Arc")) metron_arcs)
    (story_arcs md) (clear metron_arcs).

(** [md.data_origin.name] *)
Definition data_origin_name (md : GenericMetadata) : Result string :=
  match data_origin md with
  | Some origin => OK (name origin)
  | None => Raise (AttributeError "name")
  end.

(** The loop over the children of [metron_ids]: the children after it when
    a child matched ([found]), [None] when the loop ended without a match. *)
Fixpoint update_issue_id (md : GenericMetadata) (ids : list Element)
  : Result (option (list Element)) :=
  match ids with
  | [] => OK None
  | current_id :: rest =>
      match dict_get "source" (attrib current_id) with
      | None => Raise (KeyError "source")
      | Some source =>
          origin <- data_origin_name md ;;
          if String.eqb source origin then
            OK (Some (set_attrib "primary" "true"
                        (set_text (issue_id md) current_id) :: rest))
          else
            found <- update_issue_id md rest ;;
            OK (option_map (cons current_id) found)
      end
  end.

Definition fill_ids (md : GenericMetadata) (metron_ids : Element) : Result Element :=
  if truthy (issue_id md) then
    found <- update_issue_id md (children metron_ids) ;;
    match found with
    | Some ids => OK (set_children ids metron_ids)
    | None =>
        origin <- data_origin_name md ;;
        OK (add_element "ID" (text_of (issue_id md))
              [("source", origin); ("primary", "true")] metron_ids)
    end
  else OK metron_ids.

Definition fill_publisher (md : GenericMetadata) (metron_publisher : Element)
  : Element :=
  let metron_publisher := clear metron_publisher in
  if truthy (publisher md) then
    let metron_publisher :=
      add_element "Name" (text_of (publisher md)) [] metron_publisher in
    if truthy (imprint md)
    then add_element "Imprint" (text_of (imprint md)) [] metron_publisher
    else metron_publisher
  else metron_publisher.

Definition fill_gtin (md : GenericMetadata) (metron_gtin : Element) : Element :=
  let metron_gtin := clear metron_gtin in
  if truthy (identifier md)
  then add_element "ISBN" (text_of (identifier md)) [] metron_gtin
  else metron_gtin.

(** [x or 1] on an [int | None]. *)
Definition or_one (o : option Z) : Z :=
  match o with
  | Some z => if (z =? 0)%Z then 1%Z else z
  | None => 1%Z
  end.

(** The two-digit-year adjustment. *)
Definition adjust_year (year : Z) : Z :=
  if (year <? 50)%Z then (2000 + year)%Z
  else if (year <? 100)%Z then (1900 + year)%Z
  else year.

(** [f'{year:04}-{month:02}-{day:02}'] *)
Definition pub_date (md : GenericMetadata) : string :=
  let day := or_one (day md) in
  let month := or_one (month md) in
  let year := adjust_year (int_of (year md)) in
  PyStr.zero_pad 4 year ++ "-" ++ PyStr.zero_pad 2 month ++ "-"
    ++ PyStr.zero_pad 2 day.

Definition fill_cover_date (md : GenericMetadata) (metron_cover_date : Element)
  : Element :=
  let metron_cover_date := clear metron_cover_date in
  if truthy_int (year md)
  then set_text (Some (pub_date md)) metron_cover_date
  else metron_cover_date.

Definition fill_notes (md : GenericMetadata) (metron_notes : Element) : Element :=
  let metron_notes := clear metron_notes in
  if truthy (notes md) then set_text (notes md) metron_notes else metron_notes.

Definition fill_prices (md : GenericMetadata) (metron_prices : Element) : Element :=
  let metron_prices := clear metron_prices in
  match price md with
  | Some p => add_element "Price" p [("country", "US")] metron_prices
  | None => metron_prices
  end.

Definition fill_modified (metron_modified : Element) : Element :=
  set_text (Some now) metron_modified.

(** A mutation, through its handle, of a top-level element that may raise. *)
Fixpoint update_in_result (t : string) (f : Element -> Result Element)
    (cs : list Element) : Result (list Element) :=
  match cs with
  | [] => OK []
  | c :: cs' =>
      if String.eqb (tag c) t then c' <- f c ;; OK (c' :: cs')
      else cs'' <- update_in_result t f cs' ;; OK (c :: cs'')
  end.

Definition with_child_result (t : string) (f : Element -> Result Element)
    (e : Element) : Result Element :=
  cs <- update_in_result t f (children e) ;;
  OK (set_children cs e).

(** [ET.Element('MetronInfo')] with the two schema attributes. *)
Definition fresh_root : Element :=
  set_attrib "xsi:noNamespaceSchemaLocation" "MetronInfo.xsd"
    (set_attrib "xmlns:xsi" "http://www.w3.org/2001/XMLSchema-instance"
       (ET.new "MetronInfo")).

(** The body of the encoder from the creation of the handles on.  The
    record returned is the caller's record as the call leaves it, also when
    the call raises. *)
Definition encode_root (md : GenericMetadata) (root : Element)
  : GenericMetadata * Result Element :=
  match get_or_create_elements top_level_tags root with
  | Raise e => (md, Raise e)
  | OK root =>
      let root := with_child "Credits" (fill_credits md) root in
      let root := with_child "Series" (fill_series md) root in
      let md := series_md md in
      let root := with_child "Number" (fill_number md) root in
      let root := with_child "Stories" (fill_stories md) root in
      let root := with_child "CollectionTitle" (fill_title md) root in
      let md := manga_md md in
      let root := with_child "Genres" (fill_genres md) root in
      let root := with_child "Summary" (fill_summary md) root in
      let root := with_child "URLs" (fill_urls md) root in
      let root := with_child "AgeRating" (fill_age_rating md) root in
      let md := age_rating_md md in
      let root := with_child "Tags" (fill_tags md) root in
      let root := with_child "Characters" (fill_characters md) root in
      let root := with_child "Teams" (fill_teams md) root in
      let root := with_child "Locations" (fill_locs md) root in
      let root := with_child "Arcs" (fill_arcs md) root in
      match with_child_result "IDS" (fill_ids md) root with
      | Raise e => (md, Raise e)
      | OK root =>
          let root := with_child "Publisher" (fill_publisher md) root in
          let root := with_child "GTIN" (fill_gtin md) root in
          let root := with_child "CoverDate" (fill_cover_date md) root in
          let root := with_child "Notes" (fill_notes md) root in
          let root := with_child "Prices" (fill_prices md) root in
          let root := with_child "LastModified" fill_modified root in
          (md, OK (indent root))
      end
  end.

Definition _convert_metadata_to_xml (metadata : GenericMetadata) (xml : bytes)
  : GenericMetadata * Result Element :=
  let md := metadata in
  match xml with
  | [] => encode_root md fresh_root
  | _ =>
      match fromstring xml with
      | Raise e => (md, Raise e)
      | OK root => encode_root md root
      end
  end.

Definition _bytes_from_metadata (metadata : GenericMetadata) (xml : bytes)
  : GenericMetadata * Result bytes :=
  match _convert_metadata_to_xml metadata xml with
  | (md, OK root) => (md, OK (tostring root))
  | (md, Raise e) => (md, Raise e)
  end.

(** ** The adapter *)

(** The archive a call works on: what each of its methods returns or
    raises during the call. *)
Record Archiver : Type := mkArchiver {
  supports_files : Result bool;
  get_filename_list : Result (list string);
  read_file : string -> Result bytes;
  write_file : string -> bytes -> Result bool
}.

Definition supports_tags (archive : Archiver) : Result bool :=
  supports_files archive.

(** [_validate_bytes]: only [ET.ParseError] is caught. *)
Definition _validate_bytes (string : bytes) : Result bool :=
  match fromstring string with
  | OK root => if String.eqb (tag root) "MetronInfo" then OK true else OK false
  | Raise ParseError => OK false
  | Raise e => Raise e
  end.

(** The expression returned inside the [try] of [has_tags]. *)
Definition has_tags_body (archive : Archiver) : Result bool :=
  supported <- supports_tags archive ;;
  if supported then
    names <- get_filename_list archive ;;
    if PyStr.mem file names then
      data <- read_file archive file ;;
      _validate_bytes data
    else OK false
  else OK false.

Definition has_tags (archive : Archiver) : bool :=
  match has_tags_body archive with
  | OK b => b
  | Raise _ => false
  end.

(** [write_tags]: the call to [supports_tags] is outside the [try]. *)
Definition write_tags (metadata : GenericMetadata) (archive : Archiver)
  : GenericMetadata * Result bool :=
  match supports_tags archive with
  | Raise e => (metadata, Raise e)
  | OK false => (metadata, OK false)
  | OK true =>
      match (if has_tags archive then read_file archive file else OK []) with
      | Raise _ => (metadata, OK false)
      | OK xml =>
          match _bytes_from_metadata metadata xml with
          | (md, Raise _) => (md, OK false)
          | (md, OK data) =>
              match write_file archive file data with
              | OK written => (md, OK written)
              | Raise _ => (md, OK false)
              end
          end
      end
  end.

(** [_get_parseable_credits] *)
Definition _get_parseable_credits : list string :=
  (writer_synonyms GM ++ penciller_synonyms GM ++ inker_synonyms GM
     ++ colorist_synonyms GM ++ letterer_synonyms GM ++ cover_synonyms GM
     ++ editor_synonyms GM ++ translator_synonyms GM ++ ADDITIONAL_CREDITS)%list.

Definition supports_credit_role (role : string) : bool :=
  PyStr.mem (PyStr.casefold role) _get_parseable_credits.

End Encoder.


(** * The reading side of [metroninfoxml.py]

    The decoder [_convert_xml_to_metadata] and the adapter methods
    [read_tags], [read_raw_tags] and [remove_tags].

    The decoder fills a new [GenericMetadata()].  [Decoded.Metadata] holds
    the attributes it assigns, each with the value [GenericMetadata()]
    gives it until it is assigned; the attributes the decoder never assigns
    are left out.  The decoder stores what it reads as it reads it, so
    [issue_count] and [volume] hold strings here and the sets hold the
    texts of the elements, [None] included.  The credits are the calls
    [md.add_credit(creator, role.text)] the decoder makes, in order. *)

Module Decoded.

Record Metadata : Type := mkMetadata {
  series : option string;
  issue : option string;
  issue_count : option string;
  title : option string;
  volume : option string;
  genres : list (option string);
  description : option string;
  notes : option string;
  story_arcs : list string;
  publisher : option string;
  imprint : option string;
  day : option Z;
  month : option Z;
  year : option Z;
  identifier : option string;
  price : option string;
  language : option string;
  web_links : list string;
  format : option string;
  maturity_rating : option string;
  page_count : option Z;
  characters : list (option string);
  teams : list (option string);
  locations : list (option string);
  tags : list (option string);
  credits : list (string * option string);
  is_empty : bool
}.

(** [GenericMetadata()] *)
Definition empty : Metadata :=
  mkMetadata None None None None None [] None None [] None None None None
    None None None None [] None None None [] [] [] [] [] true.

End Decoded.

(** [element.find('.//' + name)]: the first element tagged [name] below
    [element] in document order; [element] itself is not a candidate. *)
Fixpoint find_desc (name : string) (element : Element) : option Element :=
  (fix first_in (cs : list Element) : option Element :=
     match cs with
     | [] => None
     | c :: cs' =>
         if String.eqb (tag c) name then Some c
         else match find_desc name c with
              | Some d => Some d
              | None => first_in cs'
              end
     end) (children element).

(** Equality of two [str | None]. *)
Definition text_eqb (a b : option string) : bool :=
  match a, b with
  | Some x, Some y => String.eqb x y
  | None, None => true
  | _, _ => false
  end.

(** [s.add(x)] on a set of [str | None]. *)
Definition set_add_text (x : option string) (s : list (option string))
  : list (option string) :=
  if existsb (text_eqb x) s then s else (s ++ [x])%list.

(** The set built by [s = set()] and [s.add(child.text)] for the children
    of [element]. *)
Definition texts_set (element : Element) : list (option string) :=
  fold_left (fun s child => set_add_text (text child) s) (children element) [].

(** The list built by appending [child.text] for the children of
    [element] whose text is not [None]. *)
Definition texts_list (element : Element) : list string :=
  fold_left
    (fun l child =>
       match text child with
       | Some t => (l ++ [t])%list
       | None => l
       end)
    (children element) [].

(** The loop over [m_gtin]: an [ISBN] overwrites, any other identifier is
    taken only while there is none. *)
Definition read_identifier (m_gtin : Element) (identifier : option string)
  : option string :=
  fold_left
    (fun identifier ident =>
       if String.eqb (tag ident) "ISBN" then text ident
       else match identifier with
            | None => text ident
            | Some _ => identifier
            end)
    (children m_gtin) identifier.

(** The loop over [m_prices]: [price.attrib['country']] is read on every
    child. *)
Fixpoint us_price (prices : list Element) (price : option string)
  : Result (option string) :=
  match prices with
  | [] => OK price
  | p :: rest =>
      match dict_get "country" (attrib p) with
      | None => Raise (KeyError "country")
      | Some country =>
          us_price rest (if String.eqb country "US" then text p else price)
      end
  end.

Definition read_price (m_prices : Element) (price : option string)
  : Result (option string) :=
  price <- (if (1 <? length (children m_prices))%nat
            then us_price (children m_prices) price
            else OK price) ;;
  match price, children m_prices with
  | None, [p] => OK (text p)
  | _, _ => OK price
  end.

Section Decoder.

(** [ET.fromstring] *)
Variable fromstring : bytes -> Result Element.

(** [ET.tostring(root, encoding='unicode', xml_declaration=True)] *)
Variable tostring_unicode : Element -> string.

(** The helpers of [comicapi.utils], outside this module, taken as
    functions: [utils.xlate], [utils.parse_date_str] with the parts of a
    date it returns, [utils.xlate_int] on such a part and on a
    [str | None], and [utils.split_urls]. *)
Variable xlate : option string -> option string.
Variable Part : Type.
Variable parse_date_str : option string -> option Part * option Part * option Part.
Variable xlate_int : Part -> option Z.
Variable xlate_int_text : option string -> option Z.
Variable split_urls : string -> list string.

Section Root.

Variable root : Element.

(** [get_text(name, element)] *)
Definition get_text (name : string) (element : option Element)
  : option string :=
  let tag :=
    match element with
    | None => find_desc name root
    | Some element => find_desc name element
    end in
  match tag with
  | None => None
  | Some tag => text tag
  end.

(** [get_element(name, element)] *)
Definition get_element (name : string) (element : option Element)
  : option Element :=
  let tag :=
    match element with
    | None => find_desc name root
    | Some element => find_desc name element
    end in
  match tag with
  | None => None
  | Some tag => Some tag
  end.

(** The loop over [m_arcs]. *)
Definition read_arcs (m_arcs : Element) : list string :=
  fold_left
    (fun arcs arc =>
       match get_text "Name" (Some arc) with
       | Some arc_text => (arcs ++ [arc_text])%list
       | None => arcs
       end)
    (children m_arcs) [].

(** The loop over [m_credits], on the calls of [md.add_credit] made so
    far. *)
Definition read_credits (m_credits : Element)
    (credits : list (string * option string))
  : list (string * option string) :=
  fold_left
    (fun credits credit =>
       match xlate (get_text "Creator" (Some credit)) with
       | Some creator =>
           match get_element "Roles" (Some credit) with
           | Some roles =>
               fold_left
                 (fun credits role => (credits ++ [(creator, text role)])%list)
                 (children roles) credits
           | None => credits
           end
       | None => credits
       end)
    (children m_credits) credits.

(** [_convert_xml_to_metadata(root)].  The record is built at the end from
    the values assigned to its attributes, in the order of the
    assignments. *)
Definition _convert_xml_to_metadata : Result Decoded.Metadata :=
  if negb (String.eqb (tag root) "MetronInfo")
  then Raise (OtherError "Not a MetronInfo file")
  else
    let md := Decoded.empty in
    let m_title := xlate (get_text "CollectionTitle" None) in
    let m_series := get_element "Series" None in
    let m_stories := get_element "Stories" None in
    let m_genres := get_element "Genres" None in
    let m_arcs := get_element "Arcs" None in
    let m_publisher := get_element "Publisher" None in
    let m_urls := get_element "URLs" None in
    let m_characters := get_element "Characters" None in
    let m_teams := get_element "Teams" None in
    let m_locations := get_element "Locations" None in
    let m_tags := get_element "Tags" None in
    let m_prices := get_element "Prices" None in
    let m_gtin := get_element "GTIN" None in
    let m_credits := get_element "Credits" None in
    let m_title :=
      match m_title, m_stories with
      | None, Some m_stories => Some (String.concat ";" (texts_list m_stories))
      | _, _ => m_title
      end in
    let series := xlate (get_text "Name" m_series) in
    let issue := xlate (get_text "Number" None) in
    let issue_count := xlate (get_text "IssueCount" m_series) in
    let title := m_title in
    let volume := xlate (get_text "Volume" m_series) in
    let genres :=
      match m_genres with
      | Some m_genres => texts_set m_genres
      | None => Decoded.genres md
      end in
    let description := xlate (get_text "Summary" None) in
    let notes := xlate (get_text "Notes" None) in
    let story_arcs :=
      match m_arcs with
      | Some m_arcs => read_arcs m_arcs
      | None => Decoded.story_arcs md
      end in
    let publisher := xlate (get_text "Name" m_publisher) in
    let imprint := xlate (get_text "Imprint" m_publisher) in
    let cover_date := parse_date_str (xlate (get_text "CoverDate" None)) in
    let day :=
      match fst (fst cover_date) with
      | Some d => xlate_int d
      | None => Decoded.day md
      end in
    let month :=
      match snd (fst cover_date) with
      | Some m => xlate_int m
      | None => Decoded.month md
      end in
    let year :=
      match snd cover_date with
      | Some y => xlate_int y
      | None => Decoded.year md
      end in
    let identifier :=
      match m_gtin with
      | Some m_gtin => read_identifier m_gtin (Decoded.identifier md)
      | None => Decoded.identifier md
      end in
    price <- match m_prices with
             | Some m_prices => read_price m_prices (Decoded.price md)
             | None => OK (Decoded.price md)
             end ;;
    let language :=
      match m_series with
      | Some m_series => dict_get "lang" (attrib m_series)
      | None => Decoded.language md
      end in
    let web_links :=
      match m_urls with
      | Some m_urls => split_urls (String.concat " " (texts_list m_urls))
      | None => Decoded.web_links md
      end in
    let format := xlate (get_text "Format" m_series) in
    let maturity_rating := xlate (get_text "AgeRating" None) in
    let page_count := xlate_int_text (get_text "PageCount" None) in
    let characters :=
      match m_characters with
      | Some m_characters => texts_set m_characters
      | None => Decoded.characters md
      end in
    let teams :=
      match m_teams with
      | Some m_teams => texts_set m_teams
      | None => Decoded.teams md
      end in
    let locations :=
      match m_locations with
      | Some m_locations => texts_set m_locations
      | None => Decoded.locations md
      end in
    let tags :=
      match m_tags with
      | Some m_tags => texts_set m_tags
      | None => Decoded.tags md
      end in
    let credits :=
      match m_credits with
      | Some m_credits => read_credits m_credits (Decoded.credits md)
      | None => Decoded.credits md
      end in
    let is_empty := false in
    OK (Decoded.mkMetadata series issue issue_count title volume genres
          description notes story_arcs publisher imprint day month year
          identifier price language web_links format maturity_rating
          page_count characters teams locations tags credits is_empty).

End Root.



(** [read_raw_tags] *)
Definition read_raw_tags (archive : Archiver) : string :=
  match (if has_tags fromstring archive then
           b <- read_file archive file ;;
           root <- fromstring b ;;
           OK (Some (tostring_unicode root))
         else OK None)
  with
  | OK (Some s) => s
  | _ => ""
  end.

(** [remove_tags]: [has_tags(archive) and archive.remove_file(self.file)],
    with what [archive.remove_file] returns or raises on the file. *)
Definition remove_tags (remove_file : string -> Result bool)
    (archive : Archiver) : Result bool :=
  if has_tags fromstring archive then remove_file file else OK false.

End Decoder.
(** * Auxiliary definitions for the proofs *)

(** The root after [get_or_create_element t]. *)
Definition ensure (t : string) (root : Element) : Element :=
  match find t root with
  | None => add_element t "" [] root
  | Some _ => root
  end.

(** What [ET.indent] makes of an element below the root: a leaf is left
    alone, another element has its children indented. *)
Definition indent_elem (level : nat) (e : Element) : Element :=
  match children e with
  | [] => e
  | _ => _indent_children level e
  end.

(** The body of the loop of [_indent_children] over the children. *)
Definition indent_child (level : nat) (child : Element) : Element :=
  let child' := indent_elem (S level) child in
  if blank (tail child') then set_tail (Some (indentation (S level))) child'
  else child'.

(** An element without its tail. *)
Definition content (e : Element)
  : string * list (string * string) * option string * list Element :=
  (tag e, attrib e, text e, children e).

(** The top-level elements the encoder clears before it fills them. *)
Definition cleared_tags : list string :=
  [ "Number"; "Series"; "Stories"; "CollectionTitle"; "Summary"; "Notes";
    "Prices"; "GTIN"; "Genres"; "AgeRating"; "Tags"; "Arcs"; "Characters";
    "Teams"; "Locations"; "Publisher"; "CoverDate"; "URLs"; "Credits" ].

(** The caller's record as the encoder leaves it. *)
Definition encoded_md (md : GenericMetadata) : GenericMetadata :=
  age_rating_md (manga_md (series_md md)).

(** A run of mutations of top-level elements through their handles. *)
Definition run_steps (steps : list (string * (Element -> Element)))
    (root : Element) : Element :=
  fold_left (fun r s => with_child (fst s) (snd s) r) steps root.

(** The statements of the encoder before the [IDS] block, each with the
    record in the state it has at that point. *)
Definition steps_before_ids (GM : Synonyms) (md : GenericMetadata)
  : list (string * (Element -> Element)) :=
  [ ("Credits", fill_credits GM md);
    ("Series", fill_series md);
    ("Number", fill_number (series_md md));
    ("Stories", fill_stories (series_md md));
    ("CollectionTitle", fill_title (series_md md));
    ("Genres", fill_genres (manga_md (series_md md)));
    ("Summary", fill_summary (manga_md (series_md md)));
    ("URLs", fill_urls (manga_md (series_md md)));
    ("AgeRating", fill_age_rating (manga_md (series_md md)));
    ("Tags", fill_tags (encoded_md md));
    ("Characters", fill_characters (encoded_md md));
    ("Teams", fill_teams (encoded_md md));
    ("Locations", fill_locs (encoded_md md));
    ("Arcs", fill_arcs (encoded_md md)) ].

(** The statements of the encoder after the [IDS] block. *)
Definition steps_after_ids (now : string) (md : GenericMetadata)
  : list (string * (Element -> Element)) :=
  [ ("Publisher", fill_publisher (encoded_md md));
    ("GTIN", fill_gtin (encoded_md md));
    ("CoverDate", fill_cover_date (encoded_md md));
    ("Notes", fill_notes (encoded_md md));
    ("Prices", fill_prices (encoded_md md));
    ("LastModified", fill_modified now) ].

Fixpoint lookup (t : string) (steps : list (string * (Element -> Element)))
  : option (Element -> Element) :=
  match steps with
  | [] => None
  | (t', f) :: rest => if String.eqb t' t then Some f else lookup t rest
  end.

(** The effect of a run of mutations on the element tagged [t]. *)
Fixpoint apply_for (t : string) (steps : list (string * (Element -> Element)))
    (c : Element) : Element :=
  match steps with
  | [] => c
  | (t', f) :: rest => apply_for t rest (if String.eqb t' t then f c else c)
  end.

(** What the encoder does to the top-level element tagged [t], [IDS]
    apart. *)
Definition filler (GM : Synonyms) (now : string) (md : GenericMetadata)
    (t : string) : option (Element -> Element) :=
  lookup t (steps_before_ids GM md ++ steps_after_ids now md).

(** The handles exist from their creation on. *)
Definition handles (root : Element) : Element :=
  fold_left (fun r t => ensure t r) top_level_tags root.

(** The document of a result. *)
Definition document (r : GenericMetadata * Result Element) : option Element :=
  match snd r with
  | OK root => Some root
  | Raise _ => None
  end.

(** The text of the first child tagged [t], if it has one. *)
Definition child_text (t : string) (e : Element) : option string :=
  match find t e with
  | Some c => text c
  | None => None
  end.

(** ** Sample inputs *)

Definition sample_synonyms : Synonyms :=
  mkSynonyms
    [ "writer"; "plotter"; "scripter"; "script" ]
    [ "artist"; "penciller"; "penciler"; "breakdowns"; "pencils"; "painting" ]
    [ "inker"; "artist"; "finishes"; "inks"; "painting" ]
    [ "colorist"; "colourist"; "colorer"; "colourer"; "colors"; "painting" ]
    [ "letterer"; "letters" ]
    [ "cover"; "covers"; "coverartist"; "cover artist" ]
    [ "editor"; "edits"; "editing" ]
    [ "translator"; "translation" ].

Definition sample_now : string := "2024-05-01T12:00:00".

Definition sample_xml : bytes := [Byte.x3c].

(** A parser that finds the document [doc] in any bytes. *)
Definition parser_of (doc : Element) : bytes -> Result Element :=
  fun _ => OK doc.

Definition metron : TagOrigin := mkTagOrigin "metron" "Metron".

(** A record with a cover year only. *)
Definition md_with_year (y : Z) : GenericMetadata :=
  mkGenericMetadata None None None None [] None None None None None [] None
    None None None None None (Some y) [] None None None [] [] [] [] [] [] None
    None.

(** A record with an issue id and a data origin only. *)
Definition md_with_issue_id (origin : option TagOrigin) (iid : string)
  : GenericMetadata :=
  mkGenericMetadata (origin) (Some iid) None None [] None None None None None
    [] None None None None None None None [] None None None [] [] [] [] [] []
    None None.

(** A record with credits only. *)
Definition md_with_credits (cs : list Credit) : GenericMetadata :=
  mkGenericMetadata None None None None [] None None None None None [] None
    None None None None None None [] None None None [] [] [] [] [] (cs) None
    None.

(** A record with a series name and a format only. *)
Definition md_with_format (s fmt : string) : GenericMetadata :=
  mkGenericMetadata None None None (Some s) [] None None None None None []
    None None None None None None None [] (Some fmt) None None [] [] [] [] []
    [] None None.

(** The document the encoder returns on a record with the year 5. *)
Definition out_year_5 : Element :=
  Eval vm_compute in
    match document (_convert_metadata_to_xml sample_synonyms sample_now
                      (parser_of fresh_root) (md_with_year 5) []) with
    | Some out => out
    | None => ET.new ""
    end.

(** The element [add_element] appends. *)
Definition new_element (sub_element text : string)
    (attribs : list (string * string)) : Element :=
  fold_left (fun e kv => set_attrib (fst kv) (snd kv) e) attribs
    (if PyStr.nonempty text then set_text (Some text) (ET.new sub_element)
     else ET.new sub_element).

(** The three fields the encoder reassigns, as it leaves them. *)
Definition encoded_format (md : GenericMetadata) : option string :=
  if truthy (series md) && truthy (format md)
  then Some (normalize_format (text_of (format md)))
  else format md.

Definition encoded_genres (md : GenericMetadata) : list string :=
  match manga md with
  | Some m =>
      if PyStr.startswith "yes" (PyStr.casefold m)
      then set_add "Manga" (genres md)
      else genres md
  | None => genres md
  end.

Definition encoded_maturity_rating (md : GenericMetadata) : option string :=
  if truthy (maturity_rating md)
  then Some (normalize_maturity (text_of (maturity_rating md)))
  else maturity_rating md.

(** An [ID] element, with or without a [source] attribute. *)
Definition id_element (source : option string) (txt : string) : Element :=
  mkElement "ID"
    (match source with Some s => [("source", s)] | None => [] end)
    (Some txt) None [].

(** A parsed document whose [IDS] element has the children [ids]. *)
Definition doc_with_ids (ids : list Element) : Element :=
  mkElement "MetronInfo" [] None None [mkElement "IDS" [] None None ids].

(** The children of the [IDS] element of a document. *)
Definition ids_of (root : Element) : list Element :=
  match find "IDS" root with
  | Some ids => children ids
  | None => []
  end.

(** The [IDS] children of the document of a result, tails apart. *)
Definition ids_written (r : GenericMetadata * Result Element)
  : option (list (string * list (string * string) * option string)) :=
  option_map (fun out => map (fun e => (tag e, attrib e, text e)) (ids_of out))
    (document r).

(** An existing document with a genre that no record of the samples has. *)
Definition stale_doc : Element :=
  mkElement "MetronInfo" [] None None
    [ mkElement "Genres" [("old", "1")] (Some "text") None
        [ mkElement "Genre" [] (Some "Horror") None [] ] ].

(** The document the encoder returns on a record with the year 5, from
    [stale_doc]. *)
Definition out_year_5_stale : Element :=
  Eval vm_compute in
    match document (_convert_metadata_to_xml sample_synonyms sample_now
                      (parser_of stale_doc) (md_with_year 5) sample_xml) with
    | Some out => out
    | None => ET.new ""
    end.

(** An [IDS] child the scan passes over: it has a [source] attribute and it
    is not the data origin's. *)
Definition other_source (o : TagOrigin) (e : Element) : Prop :=
  exists s, dict_get "source" (attrib e) = Some s /\ s <> name o.

(** The conditions under which the [IDS] block raises: there is no data
    origin, or the scan reaches a child without a [source] attribute. *)
Definition ids_block_raises (fromstring : bytes -> Result Element)
    (md : GenericMetadata) (xml : bytes) : Prop :=
  data_origin md = None
  \/ exists o root pre c post,
       data_origin md = Some o
       /\ xml <> []
       /\ fromstring xml = OK root
       /\ ids_of root = (pre ++ c :: post)%list
       /\ Forall (other_source o) pre
       /\ dict_get "source" (attrib c) = None.

(** The root the encoder starts from: a new one for empty bytes, the
    parsed one otherwise. *)
Definition parsed (fromstring : bytes -> Result Element) (xml : bytes)
    (root : Element) : Prop :=
  (xml = [] /\ root = fresh_root) \/ (xml <> [] /\ fromstring xml = OK root).

(** Tag and attributes of an element. *)
Definition view (e : Element) : string * list (string * string) :=
  (tag e, attrib e).

(** The [source] attribute of an element, if it has one. *)
Definition source_of (e : Element) : option string :=
  dict_get "source" (attrib e).

(** The number of elements whose [source] attribute is [s]. *)
Definition count_source (s : string) (ids : list Element) : nat :=
  length
    (filter (fun src => match src with
                        | Some s' => String.eqb s' s
                        | None => false
                        end)
       (map source_of ids)).

(** ** Reading the credits of a document *)

(** The text of the [Creator] child of a [Credit] element. *)
Definition creator_of (credit : Element) : option string :=
  child_text "Creator" credit.

(** Tag and text of the children of the [Roles] child of a [Credit]. *)
Definition roles_of (credit : Element) : list (string * option string) :=
  match find "Roles" credit with
  | Some roles => map (fun r => (tag r, text r)) (children roles)
  | None => []
  end.

(** The children of [Credits], each with its creator and its roles. *)
Definition credits_written (out : Element)
  : list (string * option string * list (string * option string)) :=
  match find "Credits" out with
  | Some cs => map (fun c => (tag c, creator_of c, roles_of c)) (children cs)
  | None => []
  end.

(** The [Credit] element an entry of the dict [creators] is written as. *)
Definition entry_written (entry : string * (string * list string))
  : string * option string * list (string * option string) :=
  ("Credit", Some (fst (snd entry)),
   map (fun r => ("Role", Some r)) (snd (snd entry))).

(** The entries of [creators] that [add_credit] writes. *)
Definition named (creators : list (string * (string * list string)))
  : list (string * (string * list string)) :=
  filter (fun entry => PyStr.nonempty (fst (snd entry))) creators.

(** The roles written for the credits whose folded name is [k], in the
    order of the credits. *)
Definition roles_for (GM : Synonyms) (k : string) (cs : list Credit)
  : list string :=
  map (fun c => credit_role GM (role c))
    (filter (fun c => String.eqb (creator_folded (person c)) k) cs).

(** The name of the first credit whose folded name is [k]. *)
Definition first_person (k : string) (cs : list Credit) : option string :=
  option_map person
    (List.find (fun c => String.eqb (creator_folded (person c)) k) cs).

(** The element [add_credit] appends for a creator and roles. *)
Definition credit_element (creator : string) (roles : list string) : Element :=
  let ele_credit := add_element "Creator" creator [] (ET.new "Credit") in
  if (0 <? length roles)%nat then
    append
      (fold_left
         (fun ele_roles role =>
            append (set_text (Some role) (ET.new "Role")) ele_roles)
         roles (ET.new "Roles"))
      ele_credit
  else ele_credit.

(** Lookup in the dict [creators]. *)
Fixpoint creators_get (k : string)
    (creators : list (string * (string * list string)))
  : option (string * list string) :=
  match creators with
  | [] => None
  | (k', v) :: rest => if String.eqb k' k then Some v else creators_get k rest
  end.

(** Tag, creator and roles of a child of [Credits]. *)
Definition credit_view (c : Element)
  : string * option string * list (string * option string) :=
  (tag c, creator_of c, roles_of c).

(** A string without its spaces. *)
Fixpoint remove_spaces (s : string) : string :=
  match s with
  | EmptyString => EmptyString
  | String c s' =>
      if Ascii.eqb c " " then remove_spaces s' else String c (remove_spaces s')
  end.

(** ** Properties of the runs of mutations *)

(** Every mutation of a run leaves the tag of the element alone. *)
Definition tag_preserving (steps : list (string * (Element -> Element))) : Prop :=
  Forall (fun s => forall c, tag (snd s c) = tag c) steps.

(** The tags of the handles the encoder fills, [IDS] apart. *)
Definition filled_tags : list string :=
  [ "Credits"; "Series"; "Number"; "Stories"; "CollectionTitle"; "Genres";
    "Summary"; "URLs"; "AgeRating"; "Tags"; "Characters"; "Teams"; "Locations";
    "Arcs"; "Publisher"; "GTIN"; "CoverDate"; "Notes"; "Prices";
    "LastModified" ].

(** A mutation that starts by clearing the element. *)
Definition clears_first (s : string * (Element -> Element)) : Prop :=
  fst s <> "LastModified" -> forall c, snd s c = snd s (clear c).

(** The element [Roles] of a credit. *)
Definition roles_element (roles : list string) : Element :=
  fold_left
    (fun ele_roles role => append (set_text (Some role) (ET.new "Role")) ele_roles)
    roles (ET.new "Roles").


(** * Auxiliary definitions for the further properties *)

(** The bytes [write_tags] hands to the encoder: those of the existing
    tags, or none. *)
Definition existing_xml (fromstring : bytes -> Result Element)
    (archive : Archiver) : Result bytes :=
  if has_tags fromstring archive then read_file archive file else OK [].

(** An existing document with a child the encoder knows nothing of. *)
Definition foreign_doc : Element :=
  mkElement "MetronInfo" [] None None
    [ mkElement "MangaVolume" [] (Some "3") None [] ].

(** The document the encoder returns on a record with the year 5, from
    [foreign_doc]. *)
Definition out_year_5_foreign : Element :=
  Eval vm_compute in
    match document (_convert_metadata_to_xml sample_synonyms sample_now
                      (parser_of foreign_doc) (md_with_year 5) sample_xml) with
    | Some out => out
    | None => ET.new ""
    end.

(** Tag and text of the children of the first child tagged [t]. *)
Definition children_view (t : string) (e : Element)
  : list (string * option string) :=
  match find t e with
  | Some c => map (fun x => (tag x, text x)) (children c)
  | None => []
  end.

(** The text [add_element] gives its element: none for an empty string. *)
Definition text_opt (s : string) : option string :=
  if PyStr.nonempty s then Some s else None.

(** Whether the format the encoder leaves in the record is
    [Trade Paperback]. *)
Definition encoded_trade_paperback (md : GenericMetadata) : bool :=
  match encoded_format md with
  | Some f => String.eqb f "Trade Paperback"
  | None => false
  end.

(** The names of the schema for formats and age ratings. *)
Definition format_names : list string :=
  [ "Annual"; "Digital Chapter"; "Graphic Novel"; "Hardcover";
    "Limited Series"; "Omnibus"; "One-Shot"; "Single Issue";
    "Trade Paperback" ].

Definition rating_names : list string :=
  [ "Unknown"; "Everyone"; "Teen"; "Teen Plus"; "Mature"; "Explicit"; "Adult" ].

(** The number of [Role] elements of the credits of a document. *)
Definition roles_total (out : Element) : nat :=
  list_sum (map (fun c => length (snd c)) (credits_written out)).

(** The number of roles in the entries of [creators] that are written. *)
Definition named_roles (creators : list (string * (string * list string)))
  : nat :=
  list_sum (map (fun entry => length (snd (snd entry))) (named creators)).

(** An entry of [creators] whose name is empty exactly when its key is. *)
Definition key_matches_name (entry : string * (string * list string)) : Prop :=
  PyStr.nonempty (fst (snd entry)) = PyStr.nonempty (fst entry).

(** An entry of [creators] with at least one role. *)
Definition has_roles (entry : string * (string * list string)) : Prop :=
  snd (snd entry) <> [].

(** A record with a title only, and one with a series, a format and a
    title. *)
Definition md_with_title (t : string) : GenericMetadata :=
  mkGenericMetadata None None None None [] None None (Some t) None None []
    None None None None None None None [] None None None [] [] [] [] [] []
    None None.

Definition md_with_format_title (s fmt t : string) : GenericMetadata :=
  mkGenericMetadata None None None (Some s) [] None None (Some t) None None []
    None None None None None None None [] (Some fmt) None None [] [] [] [] []
    [] None None.


(** ** The reading side *)

(** The helpers of [comicapi.utils] the decoder calls. *)
Record Utils : Type := mkUtils {
  Part : Type;
  xlate : option string -> option string;
  parse_date_str : option string -> option Part * option Part * option Part;
  xlate_int : Part -> option Z;
  xlate_int_text : option string -> option Z;
  split_urls : string -> list string
}.

(** The decoder and [read_tags] with the helpers [U]. *)
Definition decode (U : Utils) (root : Element) : Result Decoded.Metadata :=
  _convert_xml_to_metadata (xlate U) (Part U) (parse_date_str U) (xlate_int U)
    (xlate_int_text U) (split_urls U) root.


(** The first element tagged [name] among [cs] and what is below them, in
    document order. *)
Fixpoint find_desc_in (name : string) (cs : list Element) : option Element :=
  match cs with
  | [] => None
  | c :: cs' =>
      if String.eqb (tag c) name then Some c
      else match find_desc name c with
           | Some d => Some d
           | None => find_desc_in name cs'
           end
  end.



(** A price of the United States. *)
Definition is_us (p : Element) : Prop :=
  dict_get "country" (attrib p) = Some "US".

(** *** Sample helpers, after those of [comicapi.utils] *)

Definition sample_xlate (data : option string) : option string :=
  match data with
  | Some s => if PyStr.nonempty (PyStr.strip s) then Some (PyStr.strip s) else None
  | None => None
  end.

Fixpoint digits_value (s : string) (acc : Z) : option Z :=
  match s with
  | EmptyString => Some acc
  | String c s' =>
      let n := nat_of_ascii c in
      if ((48 <=? n)%nat && (n <=? 57)%nat)%bool
      then digits_value s' (10 * acc + Z.of_nat (n - 48))%Z
      else None
  end.

Definition sample_xlate_int (s : string) : option Z :=
  if PyStr.nonempty s then digits_value s 0%Z else None.

Definition sample_parse_date_str (date_str : option string)
  : option string * option string * option string :=
  match date_str with
  | Some s =>
      match PyStr.split "-" s with
      | [y] => (None, None, Some y)
      | [y; m] => (None, Some m, Some y)
      | y :: m :: d :: _ => (Some d, Some m, Some y)
      | [] => (None, None, None)
      end
  | None => (None, None, None)
  end.

Definition sample_utils : Utils :=
  mkUtils string sample_xlate sample_parse_date_str sample_xlate_int
    (fun o => match o with Some s => sample_xlate_int s | None => None end)
    (fun s => filter PyStr.nonempty (PyStr.split " " s)).

(** A leaf element with a text. *)
Definition leaf (t : string) (txt : option string) : Element :=
  mkElement t [] txt None [].

(** A price element. *)
Definition price_element (country : option string) (txt : string) : Element :=
  mkElement "Price"
    (match country with Some c => [("country", c)] | None => [] end)
    (Some txt) None [].

(** A document of the schema read from a file: the publisher comes before
    the series, and there is one price for each of two countries. *)
Definition sample_doc : Element :=
  mkElement "MetronInfo" [] None None
    [ mkElement "Publisher" [] None None [ leaf "Name" (Some "Image") ];
      mkElement "Series" [("lang", "en")] None None
        [ leaf "Name" (Some "Saga"); leaf "Volume" (Some "1") ];
      leaf "CollectionTitle" (Some "Book One");
      leaf "Number" (Some "7");
      mkElement "Stories" [] None None
        [ leaf "Story" (Some "One"); leaf "Story" None;
          leaf "Story" (Some "Two") ];
      mkElement "Prices" [] None None
        [ price_element (Some "GB") "2.50"; price_element (Some "US") "3.99" ];
      leaf "CoverDate" (Some "2012-03-14");
      mkElement "GTIN" [] None None
        [ leaf "UPC" (Some "0123"); leaf "ISBN" (Some "978-1"); leaf "UPC" None ] ].

(** The first text among the children [cs] that is not [None]. *)
Definition first_text (cs : list Element) : option string :=
  match List.find (fun c => match text c with Some _ => true | None => false end) cs with
  | Some c => text c
  | None => None
  end.

(** An element other than an [ISBN]. *)
Definition not_isbn (c : Element) : Prop := tag c <> "ISBN".

(** The tags of the elements among [cs] and below them, and of those
    below [e], in document order. *)
Fixpoint tags_below (e : Element) : list string :=
  flat_map (fun c => tag c :: tags_below c) (children e).

Definition tags_in (cs : list Element) : list string :=
  flat_map (fun c => tag c :: tags_below c) cs.

(** The tags the encoder uses below the top-level elements. *)
Definition inner_tags : list string :=
  [ "ID"; "Name"; "Volume"; "Format"; "IssueCount"; "VolumeCount";
    "AlternativeNames"; "AlternativeName"; "Story"; "Price"; "ISBN"; "Genre";
    "Tag"; "Arc"; "Character"; "Team"; "Location"; "Imprint"; "URL"; "Credit";
    "Creator"; "Roles"; "Role" ].

(** The top-level element tagged [t] as the encoder builds it in a new
    document, before the document is indented. *)
Definition fresh_child (GM : Synonyms) (now : string) (md : GenericMetadata)
    (t : string) : Element :=
  match filler GM now md t with
  | Some f => f (ET.new t)
  | None =>
      match fill_ids (encoded_md md) (ET.new t) with
      | OK c => c
      | Raise _ => ET.new t
      end
  end.

(** What the encoder writes of a text it writes when it is not empty. *)
Definition written (o : option string) : option string :=
  if truthy o then o else None.

(** A child that cannot hide an element tagged [name] below it: a leaf, or
    an element tagged otherwise with no [name] below it. *)
Definition plain_for (name : string) (c : Element) : Prop :=
  is_leaf c = true \/ (tag c <> name /\ ~ In name (tags_below c)).

(** The element [AlternativeNames] of a series. *)
Definition alternative_names (aliases : list string) : Element :=
  fold_left
    (fun series_alts series_alt =>
       add_element "AlternativeName" series_alt [] series_alts)
    aliases (ET.new "AlternativeNames").

(** One child when the condition holds. *)
Definition child_if (b : bool) (c : Element) : list Element :=
  if b then [c] else [].

(** The set of the members of a list, in the order of their first
    occurrences. *)
Definition set_of (l : list (option string)) : list (option string) :=
  fold_left (fun s x => set_add_text x s) l [].

(** The texts of a list that are not [None]. *)
Definition somes (l : list (option string)) : list string :=
  flat_map (fun o => match o with Some t => [t] | None => [] end) l.

(** The calls of [md.add_credit] the decoder makes for a creator and the
    roles written with it. *)
Definition credit_calls (U : Utils) (entry : string * (string * list string))
  : list (string * option string) :=
  match xlate U (Some (fst (snd entry))) with
  | Some creator => map (fun role => (creator, Some role)) (snd (snd entry))
  | None => []
  end.

(** A record with most of its fields set. *)
Definition md_saga : GenericMetadata :=
  mkGenericMetadata None None (Some "42") (Some "Saga") ["Saga Deluxe"]
    (Some "7") (Some 54%Z) (Some "Book One") (Some 1%Z) None ["fantasy"]
    (Some "") (Some "Scanned") None (Some "Shadowline") None (Some 3%Z)
    (Some 12%Z) ["https://a.example"; ""; "https://b.example"] (Some "tpb")
    (Some "Yes") (Some "Mature 17+") ["space"; ""] ["Alana"] [] []
    ["Arc One"; ""]
    [ mkCredit "Jane Doe" "Writer"; mkCredit "" "Inker";
      mkCredit "jane doe" "artist" ]
    None (Some "978-1").

(** The record the decoder returns for the document of a result. *)
Definition decoded (U : Utils) (r : GenericMetadata * Result Element)
  : option Decoded.Metadata :=
  match document r with
  | Some out =>
      match decode U out with
      | OK d => Some d
      | Raise _ => None
      end
  | None => None
  end.

(** A document without a [Series] element. *)
Definition doc_without_series : Element :=
  mkElement "MetronInfo" [] None None
    [ leaf "Number" (Some "7");
      mkElement "Publisher" [] None None [ leaf "Name" (Some "Image") ] ].
(** * Properties *)

(** ** Lists of strings *)

Lemma mem_In x l : PyStr.mem x l = true <-> In x l.
Proof.
  unfold PyStr.mem. rewrite existsb_exists. split.
  - intros (y & Hy & E). apply String.eqb_eq in E. subst. exact Hy.
  - intros H. exists x. split; [exact H | apply String.eqb_refl].
Qed.

(** ** Element trees *)

Lemma result_bind_OK (A B : Type) (r : Result A) (k : A -> Result B) (b : B) :
  bind r k = OK b -> exists a, r = OK a /\ k a = OK b.
Proof.
  destruct r as [a | e]; simpl; intros H; [eauto | discriminate].
Qed.

Lemma tag_fold_set_attrib attribs e :
  tag (fold_left (fun e1 (kv : string * string) => set_attrib (fst kv) (snd kv) e1)
         attribs e) = tag e.
Proof.
  revert e. induction attribs as [| kv l IH]; simpl; intros e; [reflexivity |].
  rewrite IH. reflexivity.
Qed.

Lemma find_in_app t cs cs' :
  find_in t (cs ++ cs') =
  match find_in t cs with
  | Some c => Some c
  | None => find_in t cs'
  end.
Proof.
  induction cs as [| c cs IH]; simpl; [reflexivity |].
  destruct (String.eqb (tag c) t); [reflexivity | exact IH].
Qed.

Lemma find_in_update_in t t' f cs :
  (forall c, tag (f c) = tag c) ->
  find_in t' (update_in t f cs) =
  if String.eqb t t' then option_map f (find_in t' cs) else find_in t' cs.
Proof.
  intros Hf. induction cs as [| c cs IH]; simpl.
  - destruct (String.eqb t t'); reflexivity.
  - destruct (String.eqb (tag c) t) eqn:Ect; simpl.
    + apply String.eqb_eq in Ect. rewrite Hf, Ect.
      destruct (String.eqb t t'); reflexivity.
    + destruct (String.eqb (tag c) t') eqn:Ect'.
      * apply String.eqb_eq in Ect'. subst t'. rewrite String.eqb_sym, Ect.
        reflexivity.
      * exact IH.
Qed.

Lemma find_with_child t t' f e :
  (forall c, tag (f c) = tag c) ->
  find t' (with_child t f e) =
  if String.eqb t t' then option_map f (find t' e) else find t' e.
Proof. intros Hf. unfold find, with_child. simpl. apply find_in_update_in, Hf. Qed.

Lemma find_in_update_in_result t t' f cs cs' :
  (forall c c', f c = OK c' -> tag c' = tag c) ->
  update_in_result t f cs = OK cs' ->
  String.eqb t t' = false ->
  find_in t' cs' = find_in t' cs.
Proof.
  intros Hf. revert cs'. induction cs as [| c cs IH]; simpl; intros cs' H Ht.
  - injection H as <-. reflexivity.
  - destruct (String.eqb (tag c) t) eqn:Ect.
    + apply result_bind_OK in H. destruct H as (c' & Hc & H). injection H as <-.
      simpl. rewrite (Hf _ _ Hc). apply String.eqb_eq in Ect. rewrite Ect, Ht.
      reflexivity.
    + apply result_bind_OK in H. destruct H as (cs'' & Hcs & H). injection H as <-.
      simpl. rewrite (IH _ Hcs Ht). reflexivity.
Qed.

(** *** Creation of the handles *)

Lemma find_add_element_same t e :
  find t (add_element t "" [] e) =
  match find t e with
  | Some c => Some c
  | None => Some (ET.new t)
  end.
Proof.
  unfold find, add_element. simpl. rewrite find_in_app. simpl.
  rewrite String.eqb_refl. reflexivity.
Qed.

Lemma find_add_element_other t t' e :
  String.eqb t t' = false ->
  find t' (add_element t "" [] e) = find t' e.
Proof.
  intros Ht. unfold find, add_element. simpl. rewrite find_in_app. simpl.
  rewrite Ht. destruct (find_in t' (children e)); reflexivity.
Qed.

Lemma get_or_create_element_OK t root :
  get_or_create_element t root = OK (ensure t root).
Proof.
  unfold get_or_create_element, ensure, add_path.
  destruct (find t root) eqn:E; [reflexivity |].
  rewrite find_add_element_same, E. reflexivity.
Qed.

Lemma get_or_create_elements_OK tags root :
  get_or_create_elements tags root =
  OK (fold_left (fun r t => ensure t r) tags root).
Proof.
  revert root. induction tags as [| t tags IH]; simpl; intros root; [reflexivity |].
  rewrite get_or_create_element_OK. simpl. apply IH.
Qed.

Lemma find_ensure t t' root :
  find t' (ensure t root) =
  match find t' root with
  | Some c => Some c
  | None => if String.eqb t t' then Some (ET.new t) else None
  end.
Proof.
  unfold ensure. destruct (find t root) eqn:E.
  - destruct (find t' root) eqn:E'; [reflexivity |].
    destruct (String.eqb t t') eqn:Ht; [| reflexivity].
    apply String.eqb_eq in Ht. congruence.
  - destruct (String.eqb t t') eqn:Ht.
    + apply String.eqb_eq in Ht. subst t'. rewrite find_add_element_same, E.
      reflexivity.
    + rewrite (find_add_element_other _ _ _ Ht). destruct (find t' root); reflexivity.
Qed.

Lemma find_ensure_all tags t' root :
  find t' (fold_left (fun r t => ensure t r) tags root) =
  match find t' root with
  | Some c => Some c
  | None => if PyStr.mem t' tags then Some (ET.new t') else None
  end.
Proof.
  revert root. induction tags as [| t tags IH]; simpl; intros root.
  - destruct (find t' root); reflexivity.
  - rewrite IH, find_ensure. destruct (find t' root) eqn:E; [reflexivity |].
    rewrite (String.eqb_sym t' t).
    destruct (String.eqb t t') eqn:Ht; simpl; [| reflexivity].
    apply String.eqb_eq in Ht. subst. reflexivity.
Qed.

(** *** Pretty-printing *)

Lemma _indent_children_unfold level elem :
  _indent_children level elem =
  mkElement (tag elem) (attrib elem)
    (if blank (text elem) then Some (indentation (S level)) else text elem)
    (tail elem)
    (dedent_last level (map (indent_child level) (children elem))).
Proof. destruct elem; reflexivity. Qed.

Lemma indent_child_content level c :
  content (indent_child level c) = content (indent_elem (S level) c).
Proof.
  unfold indent_child. destruct (blank (tail (indent_elem (S level) c)));
    reflexivity.
Qed.

Lemma tag_indent_elem level c : tag (indent_elem level c) = tag c.
Proof.
  unfold indent_elem. destruct (children c); [reflexivity |].
  rewrite _indent_children_unfold. reflexivity.
Qed.

Lemma attrib_indent_elem level c : attrib (indent_elem level c) = attrib c.
Proof.
  unfold indent_elem. destruct (children c); [reflexivity |].
  rewrite _indent_children_unfold. reflexivity.
Qed.

Lemma tag_indent_child level c : tag (indent_child level c) = tag c.
Proof.
  change (tag (indent_child level c)) with (fst (fst (fst (content (indent_child level c))))).
  rewrite indent_child_content. simpl. apply tag_indent_elem.
Qed.

Lemma content_dedent_last level cs :
  map content (dedent_last level cs) = map content cs.
Proof.
  induction cs as [| c cs IH]; [reflexivity |].
  destruct cs as [| c' cs].
  - simpl. destruct (blank (tail c)); reflexivity.
  - change (dedent_last level (c :: c' :: cs))
      with (c :: dedent_last level (c' :: cs)).
    rewrite map_cons, IH. reflexivity.
Qed.

Lemma find_in_content t cs cs' :
  map content cs = map content cs' ->
  option_map content (find_in t cs) = option_map content (find_in t cs').
Proof.
  revert cs'. induction cs as [| c cs IH]; intros [| c' cs'] H;
    try discriminate; [reflexivity |].
  rewrite !map_cons in H.
  pose proof (f_equal (@List.hd _ (content c)) H) as Hc.
  pose proof (f_equal (@List.tl _) H) as Hcs. cbn [List.hd List.tl] in Hc, Hcs.
  assert (Ht : tag c = tag c') by (unfold content in Hc; congruence).
  cbn [find_in]. rewrite Ht. destruct (String.eqb (tag c') t).
  - cbn [option_map]. rewrite Hc. reflexivity.
  - apply IH, Hcs.
Qed.

(** The children of an indented element, tails apart. *)
Lemma children_indent_children level e :
  map content (children (_indent_children level e)) =
  map (fun c => content (indent_elem (S level) c)) (children e).
Proof.
  rewrite _indent_children_unfold. simpl. rewrite content_dedent_last.
  rewrite map_map. apply map_ext. intros c. apply indent_child_content.
Qed.

Lemma find_in_map_indent t level cs :
  option_map content (find_in t (map (indent_child level) cs)) =
  option_map (fun c => content (indent_elem (S level) c)) (find_in t cs).
Proof.
  induction cs as [| c cs IH]; [reflexivity |].
  simpl. rewrite tag_indent_child. destruct (String.eqb (tag c) t); simpl.
  - rewrite indent_child_content. reflexivity.
  - exact IH.
Qed.

(** [find] through the indentation of the parent. *)
Lemma find_indent_children t level e :
  option_map content (find t (_indent_children level e)) =
  option_map (fun c => content (indent_elem (S level) c)) (find t e).
Proof.
  unfold find. rewrite _indent_children_unfold. simpl.
  rewrite (find_in_content t _ _ (content_dedent_last level _)).
  apply find_in_map_indent.
Qed.

Lemma find_indent t root :
  option_map content (find t (indent root)) =
  option_map (fun c => content (indent_elem 1 c)) (find t root).
Proof.
  unfold indent, is_leaf. destruct (children root) eqn:E.
  - unfold find. rewrite E. reflexivity.
  - apply find_indent_children.
Qed.

Lemma find_indent_elem t level e :
  option_map content (find t (indent_elem level e)) =
  option_map (fun c => content (indent_elem (S level) c)) (find t e).
Proof.
  unfold indent_elem. destruct (children e) eqn:E.
  - unfold find. rewrite E. reflexivity.
  - apply find_indent_children.
Qed.

(** ** The encoder *)

Lemma tag_fold_left (A : Type) (g : Element -> A -> Element) l e :
  (forall e a, tag (g e a) = tag e) -> tag (fold_left g l e) = tag e.
Proof.
  intros Hg. revert e. induction l as [| a l IH]; simpl; intros e; [reflexivity |].
  rewrite IH. apply Hg.
Qed.

Lemma tag_add_credit creator roles e : tag (add_credit creator roles e) = tag e.
Proof. unfold add_credit. destruct (PyStr.nonempty creator); reflexivity. Qed.

Ltac tag_cases :=
  repeat match goal with
         | |- context [if ?b then _ else _] => destruct b
         | |- context [match ?x with _ => _ end] => destruct x
         end;
  try reflexivity.

Lemma tag_fill_credits GM md e : tag (fill_credits GM md e) = tag e.
Proof.
  unfold fill_credits. rewrite tag_fold_left; [reflexivity |].
  intros. apply tag_add_credit.
Qed.

Lemma tag_fill_series md e : tag (fill_series md e) = tag e.
Proof. unfold fill_series. tag_cases. Qed.

Lemma tag_fill_number md e : tag (fill_number md e) = tag e.
Proof. unfold fill_number. tag_cases. Qed.

Lemma tag_fill_stories md e : tag (fill_stories md e) = tag e.
Proof.
  unfold fill_stories. destruct (truthy (title md) && negb (is_trade_paperback md));
    [| reflexivity].
  rewrite tag_fold_left; reflexivity.
Qed.

Lemma tag_fill_title md e : tag (fill_title md e) = tag e.
Proof. unfold fill_title. tag_cases. Qed.

Lemma tag_fill_list sub items e : tag (fill_list sub items e) = tag e.
Proof. unfold fill_list. rewrite tag_fold_left; reflexivity. Qed.

Lemma tag_fill_summary md e : tag (fill_summary md e) = tag e.
Proof. unfold fill_summary. tag_cases. Qed.

Lemma tag_fill_age_rating md e : tag (fill_age_rating md e) = tag e.
Proof. unfold fill_age_rating. tag_cases. Qed.

Lemma tag_fill_arcs md e : tag (fill_arcs md e) = tag e.
Proof. unfold fill_arcs. rewrite tag_fold_left; reflexivity. Qed.

Lemma tag_fill_publisher md e : tag (fill_publisher md e) = tag e.
Proof. unfold fill_publisher. tag_cases. Qed.

Lemma tag_fill_gtin md e : tag (fill_gtin md e) = tag e.
Proof. unfold fill_gtin. tag_cases. Qed.

Lemma tag_fill_cover_date md e : tag (fill_cover_date md e) = tag e.
Proof. unfold fill_cover_date. tag_cases. Qed.

Lemma tag_fill_notes md e : tag (fill_notes md e) = tag e.
Proof. unfold fill_notes. tag_cases. Qed.

Lemma tag_fill_prices md e : tag (fill_prices md e) = tag e.
Proof. unfold fill_prices. tag_cases. Qed.

Lemma tag_fill_modified now e : tag (fill_modified now e) = tag e.
Proof. reflexivity. Qed.

Lemma tag_fill_ids md e e' : fill_ids md e = OK e' -> tag e' = tag e.
Proof.
  unfold fill_ids. destruct (truthy (issue_id md)).
  - intros H. apply result_bind_OK in H. destruct H as ([ids |] & _ & H).
    + injection H as <-. reflexivity.
    + apply result_bind_OK in H. destruct H as (o & _ & H). injection H as <-.
      reflexivity.
  - intros H. injection H as <-. reflexivity.
Qed.

Lemma find_with_child_result_other t t' f e e' :
  String.eqb t t' = false ->
  (forall c c', f c = OK c' -> tag c' = tag c) ->
  with_child_result t f e = OK e' ->
  find t' e' = find t' e.
Proof.
  intros Ht Hf H. unfold with_child_result in H. apply result_bind_OK in H.
  destruct H as (cs & Hcs & H). injection H as <-. unfold find. simpl.
  eapply find_in_update_in_result; eauto.
Qed.

Ltac solve_tag :=
  intros;
  first [ reflexivity
        | apply tag_fill_credits | apply tag_fill_series | apply tag_fill_number
        | apply tag_fill_stories | apply tag_fill_title | apply tag_fill_list
        | apply tag_fill_summary | apply tag_fill_age_rating | apply tag_fill_arcs
        | apply tag_fill_publisher | apply tag_fill_gtin
        | apply tag_fill_cover_date | apply tag_fill_notes | apply tag_fill_prices
        | apply tag_fill_modified
        | eapply tag_fill_ids; eassumption ].

(** *** Runs of mutations *)

Lemma find_run_steps t steps root :
  tag_preserving steps ->
  find t (run_steps steps root) = option_map (apply_for t steps) (find t root).
Proof.
  intros H. revert root. induction H as [| [t' f] rest Hf _ IH]; intros root.
  - simpl. destruct (find t root); reflexivity.
  - unfold run_steps in *. cbn [fold_left fst snd apply_for]. rewrite IH.
    rewrite find_with_child by exact Hf.
    destruct (String.eqb t' t); destruct (find t root); reflexivity.
Qed.

Lemma apply_for_app t a b c :
  apply_for t (a ++ b) c = apply_for t b (apply_for t a c).
Proof.
  revert c. induction a as [| [t' f] a IH]; intros c; [reflexivity |].
  simpl. apply IH.
Qed.

Lemma apply_for_absent t steps c :
  ~ In t (map fst steps) -> apply_for t steps c = c.
Proof.
  revert c. induction steps as [| [t' f] rest IH]; intros c H; [reflexivity |].
  simpl in *. destruct (String.eqb t' t) eqn:E.
  - apply String.eqb_eq in E. tauto.
  - apply IH. tauto.
Qed.

Lemma apply_for_lookup t steps c :
  NoDup (map fst steps) ->
  apply_for t steps c =
  match lookup t steps with
  | Some f => f c
  | None => c
  end.
Proof.
  revert c. induction steps as [| [t' f] rest IH]; intros c H; [reflexivity |].
  simpl in *. inversion H as [| ? ? Hnotin Hnd]; subst.
  destruct (String.eqb t' t) eqn:E.
  - apply String.eqb_eq in E. subst. apply apply_for_absent, Hnotin.
  - apply IH, Hnd.
Qed.

Lemma lookup_In t steps f : lookup t steps = Some f -> In t (map fst steps).
Proof.
  induction steps as [| [t' g] rest IH]; simpl; [discriminate |].
  destruct (String.eqb t' t) eqn:E.
  - apply String.eqb_eq in E. auto.
  - auto.
Qed.

Lemma lookup_tag t steps f c :
  tag_preserving steps -> lookup t steps = Some f -> tag (f c) = tag c.
Proof.
  intros H. induction H as [| [t' g] rest Hg _ IH]; simpl; [discriminate |].
  destruct (String.eqb t' t); [| exact IH].
  intros E. injection E as <-. apply Hg.
Qed.

Lemma tag_preserving_before GM md : tag_preserving (steps_before_ids GM md).
Proof. unfold steps_before_ids. repeat constructor; solve_tag. Qed.

Lemma tag_preserving_after now md : tag_preserving (steps_after_ids now md).
Proof. unfold steps_after_ids. repeat constructor; solve_tag. Qed.

Lemma tag_preserving_all GM now md :
  tag_preserving (steps_before_ids GM md ++ steps_after_ids now md).
Proof.
  apply Forall_app. split;
    [apply tag_preserving_before | apply tag_preserving_after].
Qed.

Lemma keys_of_steps GM now md :
  map fst (steps_before_ids GM md ++ steps_after_ids now md) = filled_tags.
Proof. reflexivity. Qed.

Lemma NoDup_filled_tags : NoDup filled_tags.
Proof.
  assert (H : nodup string_dec filled_tags = filled_tags) by (vm_compute; reflexivity).
  rewrite <- H. apply NoDup_nodup.
Qed.

Lemma filled_tags_not_IDS t : In t filled_tags -> String.eqb "IDS" t = false.
Proof.
  intros H.
  assert (Hall : forallb (fun k => negb (String.eqb "IDS" k)) filled_tags = true)
    by (vm_compute; reflexivity).
  rewrite forallb_forall in Hall. apply Hall in H.
  destruct (String.eqb "IDS" t); [discriminate | reflexivity].
Qed.

Lemma handles_OK root :
  get_or_create_elements top_level_tags root = OK (handles root).
Proof. apply get_or_create_elements_OK. Qed.

(** The encoder as a run of mutations around the [IDS] block. *)
Lemma encode_root_eq GM now md root :
  encode_root GM now md root =
  match with_child_result "IDS" (fill_ids (encoded_md md))
          (run_steps (steps_before_ids GM md) (handles root)) with
  | Raise e => (encoded_md md, Raise e)
  | OK r =>
      (encoded_md md, OK (indent (run_steps (steps_after_ids now md) r)))
  end.
Proof.
  unfold encode_root. rewrite handles_OK.
  generalize (handles root). intros r0.
  unfold run_steps, steps_before_ids, steps_after_ids, encoded_md.
  cbv beta iota zeta delta [fold_left fst snd]. reflexivity.
Qed.

(** The element the encoder leaves under a tag it fills: the one found at
    the creation of the handles, filled and indented. *)
Lemma encode_root_find GM now md root out t f :
  snd (encode_root GM now md root) = OK out ->
  filler GM now md t = Some f ->
  option_map content (find t out) =
  option_map (fun c => content (indent_elem 1 (f c))) (find t (handles root)).
Proof.
  rewrite encode_root_eq.
  destruct (with_child_result "IDS" _ _) as [r | e] eqn:E; intros H Hf;
    [| discriminate H].
  assert (Hout : indent (run_steps (steps_after_ids now md) r) = out)
    by (unfold snd in H; congruence).
  subst out. clear H. rewrite find_indent.
  rewrite find_run_steps by apply tag_preserving_after.
  assert (Hids : String.eqb "IDS" t = false).
  { apply filled_tags_not_IDS. rewrite <- (keys_of_steps GM now md).
    eapply lookup_In, Hf. }
  rewrite (find_with_child_result_other "IDS" t _ _ _ Hids
             (tag_fill_ids (encoded_md md)) E).
  rewrite find_run_steps by apply tag_preserving_before.
  destruct (find t (handles root)) as [c |]; [| reflexivity].
  cbn [option_map]. rewrite <- apply_for_app, apply_for_lookup.
  - unfold filler in Hf. rewrite Hf. reflexivity.
  - rewrite keys_of_steps. apply NoDup_filled_tags.
Qed.

(** *** Cleared elements *)

Lemma clears_first_all GM now md :
  Forall clears_first (steps_before_ids GM md ++ steps_after_ids now md).
Proof.
  unfold steps_before_ids, steps_after_ids. cbn [app].
  repeat constructor; unfold clears_first; cbn [fst snd]; intros H c;
    solve [reflexivity | exfalso; apply H; reflexivity].
Qed.

Lemma lookup_Forall (P : string * (Element -> Element) -> Prop) t steps f :
  Forall P steps -> lookup t steps = Some f -> exists t', String.eqb t' t = true /\ P (t', f).
Proof.
  intros H. induction H as [| [t' g] rest Hg _ IH]; simpl; [discriminate |].
  destruct (String.eqb t' t) eqn:E; [| exact IH].
  intros Hf. injection Hf as <-. exists t'. auto.
Qed.

Lemma filler_clears GM now md t f c :
  filler GM now md t = Some f -> t <> "LastModified" -> f c = f (clear c).
Proof.
  intros Hf Ht. unfold filler in Hf.
  destruct (lookup_Forall _ _ _ _ (clears_first_all GM now md) Hf)
    as (t' & E & Hc).
  apply String.eqb_eq in E. subst t'. apply Hc. exact Ht.
Qed.

Lemma find_in_tag t cs c : find_in t cs = Some c -> tag c = t.
Proof.
  induction cs as [| c' cs IH]; simpl; [discriminate |].
  destruct (String.eqb (tag c') t) eqn:E; [| exact IH].
  intros H. injection H as <-. apply String.eqb_eq, E.
Qed.

Lemma find_tag t e c : find t e = Some c -> tag c = t.
Proof. apply find_in_tag. Qed.

(** Every handle denotes an element carrying its tag. *)
Lemma find_handles t root :
  In t top_level_tags ->
  exists c, find t (handles root) = Some c /\ tag c = t
            /\ (find t root = None -> c = ET.new t).
Proof.
  intros Hin. unfold handles. rewrite find_ensure_all.
  destruct (find t root) as [c |] eqn:E.
  - exists c. split; [reflexivity |]. split; [eapply find_tag, E | discriminate].
  - apply mem_In in Hin. rewrite Hin. exists (ET.new t). auto.
Qed.

Lemma filled_tags_top_level t : In t filled_tags -> In t top_level_tags.
Proof.
  intros H.
  assert (Hall : forallb (fun k => PyStr.mem k top_level_tags) filled_tags = true)
    by (vm_compute; reflexivity).
  rewrite forallb_forall in Hall. apply mem_In, Hall, H.
Qed.

Lemma filler_In GM now md t f : filler GM now md t = Some f -> In t filled_tags.
Proof.
  intros Hf. rewrite <- (keys_of_steps GM now md). eapply lookup_In, Hf.
Qed.

(** A cleared element is rebuilt from a new element of its tag. *)
Lemma encode_root_cleared GM now md root out t f :
  snd (encode_root GM now md root) = OK out ->
  filler GM now md t = Some f ->
  t <> "LastModified" ->
  option_map content (find t out) =
  Some (content (indent_elem 1 (f (ET.new t)))).
Proof.
  intros Hout Hf Ht. rewrite (encode_root_find _ _ _ _ _ _ _ Hout Hf).
  destruct (find_handles t root) as (c & Hc & Htag & _).
  { eapply filled_tags_top_level, filler_In, Hf. }
  rewrite Hc. cbn [option_map]. rewrite (filler_clears _ _ _ _ _ c Hf Ht).
  unfold clear. rewrite Htag. reflexivity.
Qed.

(** The encoder proper is [encode_root] on the parsed or the new root. *)
Lemma convert_encode_root GM now fromstring md xml :
  _convert_metadata_to_xml GM now fromstring md xml =
  match xml with
  | [] => encode_root GM now md fresh_root
  | _ => match fromstring xml with
         | OK root => encode_root GM now md root
         | Raise e => (md, Raise e)
         end
  end.
Proof. unfold _convert_metadata_to_xml. destruct xml; reflexivity. Qed.

Lemma convert_OK_root GM now fromstring md xml out :
  snd (_convert_metadata_to_xml GM now fromstring md xml) = OK out ->
  exists root, snd (encode_root GM now md root) = OK out.
Proof.
  rewrite convert_encode_root. destruct xml as [| b xml].
  - eauto.
  - destruct (fromstring (b :: xml)) as [root | e]; [eauto | discriminate].
Qed.

Lemma convert_cleared GM now fromstring md xml out t f :
  snd (_convert_metadata_to_xml GM now fromstring md xml) = OK out ->
  filler GM now md t = Some f ->
  t <> "LastModified" ->
  option_map content (find t out) =
  Some (content (indent_elem 1 (f (ET.new t)))).
Proof.
  intros H. apply convert_OK_root in H. destruct H as (root & H).
  eapply encode_root_cleared, H.
Qed.

Lemma content_text e e' : content e = content e' -> text e = text e'.
Proof. unfold content. congruence. Qed.

Lemma content_children e e' : content e = content e' -> children e = children e'.
Proof. unfold content. congruence. Qed.

Lemma content_find t e e' : content e = content e' -> find t e = find t e'.
Proof. intros H. unfold find. rewrite (content_children _ _ H). reflexivity. Qed.

Lemma find_content_Some t out e :
  option_map content (find t out) = Some (content e) ->
  exists e', find t out = Some e' /\ content e' = content e.
Proof.
  destruct (find t out) as [e' |]; cbn [option_map]; [| discriminate].
  intros H. exists e'. split; [reflexivity | congruence].
Qed.

(** *** The record during the encoding *)

Ltac md_field :=
  unfold encoded_md, age_rating_md, manga_md, series_md;
  repeat match goal with
         | |- context [if ?b then _ else _] => destruct b
         | |- context [match ?x with _ => _ end] => destruct x
         end;
  reflexivity.

Lemma maturity_rating_before md :
  maturity_rating (manga_md (series_md md)) = maturity_rating md.
Proof. md_field. Qed.

Lemma year_encoded md : year (encoded_md md) = year md.
Proof. md_field. Qed.

Lemma month_encoded md : month (encoded_md md) = month md.
Proof. md_field. Qed.

Lemma day_encoded md : day (encoded_md md) = day md.
Proof. md_field. Qed.

Lemma issue_id_encoded md : issue_id (encoded_md md) = issue_id md.
Proof. md_field. Qed.

Lemma data_origin_encoded md : data_origin (encoded_md md) = data_origin md.
Proof. md_field. Qed.

(** *** Texts written by the encoder *)

Lemma child_text_content t out e s :
  option_map content (find t out) = Some (content e) ->
  text e = s -> child_text t out = s.
Proof.
  intros H Hs. apply find_content_Some in H. destruct H as (e' & Hf & Hc).
  unfold child_text. rewrite Hf, (content_text _ _ Hc). exact Hs.
Qed.

Lemma age_rating_written GM now fromstring md xml out :
  snd (_convert_metadata_to_xml GM now fromstring md xml) = OK out ->
  truthy (maturity_rating md) = true ->
  child_text "AgeRating" out =
  Some (normalize_maturity (text_of (maturity_rating md))).
Proof.
  intros Hout Hr.
  assert (Hf : filler GM now md "AgeRating"
               = Some (fill_age_rating (manga_md (series_md md))))
    by reflexivity.
  pose proof (convert_cleared _ _ _ _ _ _ _ _ Hout Hf ltac:(discriminate)) as H.
  eapply child_text_content; [exact H |].
  unfold fill_age_rating. rewrite maturity_rating_before, Hr. reflexivity.
Qed.


(** *** Children appended by the encoder *)

Lemma add_element_append sub txt attribs e :
  add_element sub txt attribs e = append (new_element sub txt attribs) e.
Proof. reflexivity. Qed.

Lemma tag_new_element sub txt attribs : tag (new_element sub txt attribs) = sub.
Proof.
  unfold new_element. rewrite tag_fold_set_attrib.
  destruct (PyStr.nonempty txt); reflexivity.
Qed.

Lemma new_element_plain sub txt :
  PyStr.nonempty txt = true ->
  new_element sub txt [] = mkElement sub [] (Some txt) None [].
Proof. intros H. unfold new_element. rewrite H. reflexivity. Qed.

Lemma find_append t c e :
  find t (append c e) =
  match find t e with
  | Some c' => Some c'
  | None => if String.eqb (tag c) t then Some c else None
  end.
Proof. unfold find, append. simpl. rewrite find_in_app. reflexivity. Qed.

Lemma find_add_element t sub txt attribs e :
  find t (add_element sub txt attribs e) =
  match find t e with
  | Some c => Some c
  | None => if String.eqb sub t then Some (new_element sub txt attribs) else None
  end.
Proof. rewrite add_element_append, find_append, tag_new_element. reflexivity. Qed.

Lemma normalize_format_nonempty f : PyStr.nonempty (normalize_format f) = true.
Proof.
  unfold normalize_format, dict_get_default.
  match goal with
  | |- context [dict_get ?k format_dict] => generalize k
  end.
  intros k. unfold format_dict. cbn [dict_get].
  repeat match goal with
         | |- context [if String.eqb ?a k then _ else _] =>
             destruct (String.eqb a k)
         end; reflexivity.
Qed.

Lemma find_format_fill_series md e :
  truthy (series md) = true ->
  truthy (format md) = true ->
  find "Format" (fill_series md e) =
  Some (new_element "Format" (normalize_format (text_of (format md))) []).
Proof.
  intros Hs Hf. unfold fill_series. rewrite Hs, Hf.
  destruct (series_id md), (truthy_int (volume md)),
    (truthy_int (issue_count md)), (truthy_int (volume_count md)),
    (series_aliases md);
    rewrite ?find_append, ?find_add_element; reflexivity.
Qed.

Lemma series_format_written GM now fromstring md xml out :
  snd (_convert_metadata_to_xml GM now fromstring md xml) = OK out ->
  truthy (series md) = true ->
  truthy (format md) = true ->
  exists se,
    find "Series" out = Some se
    /\ child_text "Format" se = Some (normalize_format (text_of (format md))).
Proof.
  intros Hout Hs Hf.
  assert (Hfill : filler GM now md "Series" = Some (fill_series md))
    by reflexivity.
  pose proof (convert_cleared _ _ _ _ _ _ _ _ Hout Hfill ltac:(discriminate)) as H.
  apply find_content_Some in H. destruct H as (se & Hse & Hc).
  exists se. split; [exact Hse |].
  pose proof (find_indent_elem "Format" 1 (fill_series md (ET.new "Series")))
    as Hfmt.
  rewrite (find_format_fill_series _ _ Hs Hf) in Hfmt.
  rewrite <- (content_find "Format" _ _ Hc) in Hfmt. cbn [option_map] in Hfmt.
  eapply child_text_content; [exact Hfmt |].
  rewrite new_element_plain by apply normalize_format_nonempty. reflexivity.
Qed.

Lemma fst_encode_root GM now md root :
  fst (encode_root GM now md root) = encoded_md md.
Proof.
  rewrite encode_root_eq.
  destruct (with_child_result "IDS" _ _); reflexivity.
Qed.

Lemma encoded_md_fields md :
  encoded_md md =
  set_maturity_rating (encoded_maturity_rating md)
    (set_genres (encoded_genres md) (set_format (encoded_format md) md)).
Proof.
  unfold encoded_md, age_rating_md, manga_md, series_md, encoded_format,
    encoded_genres, encoded_maturity_rating.
  destruct md as [? ? ? ser ? ? ? ? ? ? ? ? ? ? ? ? ? ? ? fmt mng mat
                    ? ? ? ? ? ? ? ?].
  simpl.
  destruct (truthy ser && truthy fmt); simpl;
    destruct mng as [m |]; simpl;
    try destruct (PyStr.startswith "yes" (PyStr.casefold m)); simpl;
    destruct (truthy mat); reflexivity.
Qed.

Lemma setters_fixpoint f g m md :
  set_maturity_rating m (set_genres g (set_format f md)) = md <->
  f = format md /\ g = genres md /\ m = maturity_rating md.
Proof.
  destruct md. cbn. split.
  - intros H. injection H as -> -> ->. auto.
  - intros (-> & -> & ->). reflexivity.
Qed.

(** *** The [IDS] block *)

Lemma update_in_result_find t f cs c :
  find_in t cs = Some c ->
  update_in_result t f cs = (c' <- f c ;; OK (update_in t (fun _ => c') cs)).
Proof.
  induction cs as [| c0 cs IH]; simpl; [discriminate |].
  destruct (String.eqb (tag c0) t) eqn:E.
  - intros H. injection H as ->. destruct (f c); reflexivity.
  - intros H. rewrite (IH H). destruct (f c); reflexivity.
Qed.

Lemma with_child_result_find t f e c :
  find t e = Some c ->
  with_child_result t f e = (c' <- f c ;; OK (with_child t (fun _ => c') e)).
Proof.
  intros H. unfold with_child_result, with_child.
  rewrite (update_in_result_find t f _ c H). destruct (f c); reflexivity.
Qed.

Lemma find_in_update_in_found t f cs c :
  find_in t cs = Some c -> tag (f c) = t ->
  find_in t (update_in t f cs) = Some (f c).
Proof.
  intros H Hf. induction cs as [| c0 cs IH]; simpl in *; [discriminate |].
  destruct (String.eqb (tag c0) t) eqn:E.
  - injection H as ->. simpl. rewrite Hf, String.eqb_refl. reflexivity.
  - simpl. rewrite E. apply IH, H.
Qed.

Lemma find_with_child_found t f e c :
  find t e = Some c -> tag (f c) = t ->
  find t (with_child t f e) = Some (f c).
Proof. intros H Hf. unfold find, with_child. simpl. apply find_in_update_in_found; auto. Qed.

Lemma IDS_not_filled : ~ In "IDS" filled_tags.
Proof.
  intros H. apply filled_tags_not_IDS in H. discriminate H.
Qed.

Lemma find_IDS_before GM md root :
  find "IDS" (run_steps (steps_before_ids GM md) root) = find "IDS" root.
Proof.
  rewrite find_run_steps by apply tag_preserving_before.
  destruct (find "IDS" root) as [c |]; [| reflexivity].
  cbn [option_map]. rewrite apply_for_absent; [reflexivity |].
  intros H. apply IDS_not_filled. rewrite <- (keys_of_steps GM "" md).
  rewrite map_app. apply in_or_app. left. exact H.
Qed.

Lemma find_IDS_after now md root :
  find "IDS" (run_steps (steps_after_ids now md) root) = find "IDS" root.
Proof.
  rewrite find_run_steps by apply tag_preserving_after.
  destruct (find "IDS" root) as [c |]; [| reflexivity].
  cbn [option_map]. rewrite apply_for_absent; [reflexivity |].
  intros H. apply IDS_not_filled.
  rewrite <- (keys_of_steps sample_synonyms now md).
  rewrite map_app. apply in_or_app. right. exact H.
Qed.

Lemma top_level_IDS : In "IDS" top_level_tags.
Proof. left. reflexivity. Qed.

(** The encoder raises when the [IDS] block does. *)
Lemma encode_root_raise GM now md root c e :
  find "IDS" (handles root) = Some c ->
  fill_ids (encoded_md md) c = Raise e ->
  snd (encode_root GM now md root) = Raise e.
Proof.
  intros Hc Hfill. rewrite encode_root_eq.
  rewrite (with_child_result_find "IDS" _ _ c)
    by (rewrite find_IDS_before; exact Hc).
  rewrite Hfill. reflexivity.
Qed.

(** The encoder returns when the [IDS] block does, and leaves under [IDS]
    what the block returned, indented. *)
Lemma encode_root_return GM now md root c c' :
  find "IDS" (handles root) = Some c ->
  fill_ids (encoded_md md) c = OK c' ->
  exists out,
    snd (encode_root GM now md root) = OK out
    /\ option_map content (find "IDS" out) = Some (content (indent_elem 1 c')).
Proof.
  intros Hc Hfill. rewrite encode_root_eq.
  assert (Hc0 : find "IDS" (run_steps (steps_before_ids GM md) (handles root))
                = Some c)
    by (rewrite find_IDS_before; exact Hc).
  rewrite (with_child_result_find "IDS" _ _ c Hc0), Hfill.
  cbv beta iota delta [bind snd]. eexists. split; [reflexivity |].
  rewrite find_indent, find_IDS_after.
  rewrite (find_with_child_found "IDS" _ _ c Hc0).
  - reflexivity.
  - rewrite (tag_fill_ids _ _ _ Hfill). apply (find_tag _ _ _ Hc0).
Qed.

Lemma update_issue_id_ext md md' ids :
  data_origin md = data_origin md' ->
  issue_id md = issue_id md' ->
  update_issue_id md ids = update_issue_id md' ids.
Proof.
  intros Ho Hi. induction ids as [| c ids IH]; [reflexivity |].
  simpl. unfold data_origin_name. rewrite Ho, Hi, IH. reflexivity.
Qed.

Lemma fill_ids_encoded md c : fill_ids (encoded_md md) c = fill_ids md c.
Proof.
  unfold fill_ids, data_origin_name.
  rewrite issue_id_encoded, data_origin_encoded.
  rewrite (update_issue_id_ext (encoded_md md) md)
    by (apply data_origin_encoded || apply issue_id_encoded).
  reflexivity.
Qed.

Lemma scan_other md o c :
  data_origin md = Some o -> other_source o c ->
  forall rest,
    update_issue_id md (c :: rest) =
    (found <- update_issue_id md rest ;; OK (option_map (cons c) found)).
Proof.
  intros Ho (s & Hs & Hne) rest. simpl. unfold data_origin_name.
  rewrite Hs, Ho. simpl.
  destruct (String.eqb_spec s (name o)); [contradiction | reflexivity].
Qed.

Lemma scan_match md o pre c post :
  data_origin md = Some o ->
  Forall (other_source o) pre ->
  dict_get "source" (attrib c) = Some (name o) ->
  update_issue_id md (pre ++ c :: post) =
  OK (Some (pre ++ set_attrib "primary" "true" (set_text (issue_id md) c)
              :: post)%list).
Proof.
  intros Ho Hpre Hc. induction Hpre as [| c0 pre Hc0 _ IH].
  - simpl. unfold data_origin_name. rewrite Hc, Ho. simpl.
    rewrite String.eqb_refl. reflexivity.
  - rewrite <- app_comm_cons, (scan_other md o c0 Ho Hc0), IH. reflexivity.
Qed.

Lemma scan_no_match md o ids :
  data_origin md = Some o ->
  Forall (other_source o) ids ->
  update_issue_id md ids = OK None.
Proof.
  intros Ho Hids. induction Hids as [| c0 ids Hc0 _ IH]; [reflexivity |].
  rewrite (scan_other md o c0 Ho Hc0), IH. reflexivity.
Qed.

Lemma scan_missing_source md o pre c post :
  data_origin md = Some o ->
  Forall (other_source o) pre ->
  dict_get "source" (attrib c) = None ->
  update_issue_id md (pre ++ c :: post) = Raise (KeyError "source").
Proof.
  intros Ho Hpre Hc. induction Hpre as [| c0 pre Hc0 _ IH].
  - simpl. rewrite Hc. reflexivity.
  - rewrite <- app_comm_cons, (scan_other md o c0 Ho Hc0), IH. reflexivity.
Qed.

Lemma fill_ids_no_origin md c :
  truthy (issue_id md) = true ->
  data_origin md = None ->
  exists e, fill_ids md c = Raise e.
Proof.
  intros Hi Ho. unfold fill_ids. rewrite Hi.
  destruct (children c) as [| c0 rest]; simpl.
  - unfold data_origin_name. rewrite Ho. simpl. eexists. reflexivity.
  - destruct (dict_get "source" (attrib c0)); [| eexists; reflexivity].
    unfold data_origin_name. rewrite Ho. simpl. eexists. reflexivity.
Qed.

(** The handle on [IDS] of an existing document that has the element. *)
Lemma find_handles_IDS root ids :
  find "IDS" root = Some ids -> find "IDS" (handles root) = Some ids.
Proof.
  intros H. unfold handles. rewrite find_ensure_all, H. reflexivity.
Qed.

Lemma convert_parsed GM now fromstring md xml root :
  parsed fromstring xml root ->
  _convert_metadata_to_xml GM now fromstring md xml = encode_root GM now md root.
Proof.
  rewrite convert_encode_root. intros [(-> & ->) | (Hne & Hparse)].
  - reflexivity.
  - destruct xml; [contradiction |]. rewrite Hparse. reflexivity.
Qed.

(** The handle on [IDS] holds the [IDS] children of the existing document. *)
Lemma handles_ids root :
  exists c, find "IDS" (handles root) = Some c /\ children c = ids_of root.
Proof.
  destruct (find_handles "IDS" root top_level_IDS) as (c & Hc & _ & Hnew).
  exists c. split; [exact Hc |]. unfold ids_of.
  destruct (find "IDS" root) as [ids |] eqn:E.
  - rewrite (find_handles_IDS _ _ E) in Hc. congruence.
  - rewrite (Hnew eq_refl). reflexivity.
Qed.

Lemma children_indent_elem level e :
  map content (children (indent_elem level e)) =
  map (fun c => content (indent_elem (S level) c)) (children e).
Proof.
  unfold indent_elem. destruct (children e) eqn:E.
  - rewrite E. reflexivity.
  - rewrite <- E. apply children_indent_children.
Qed.

Lemma text_indent_elem level e :
  text (indent_elem level e) =
  if is_leaf e then text e
  else if blank (text e) then Some (indentation (S level)) else text e.
Proof.
  unfold indent_elem, is_leaf. destruct (children e); [reflexivity |].
  rewrite _indent_children_unfold. reflexivity.
Qed.

(** The encoder returns when the [IDS] block does; the [IDS] children of
    the document are those the block leaves, indented. *)
Lemma convert_ids GM now fromstring md xml root c c' :
  parsed fromstring xml root ->
  find "IDS" (handles root) = Some c ->
  fill_ids md c = OK c' ->
  exists out,
    snd (_convert_metadata_to_xml GM now fromstring md xml) = OK out
    /\ map content (ids_of out) =
       map (fun e => content (indent_elem 2 e)) (children c').
Proof.
  intros Hp Hc Hfill. rewrite (convert_parsed GM now _ md _ _ Hp).
  rewrite <- fill_ids_encoded in Hfill.
  destruct (encode_root_return GM now md root c c' Hc Hfill)
    as (out & Hout & Hfind).
  exists out. split; [exact Hout |].
  apply find_content_Some in Hfind. destruct Hfind as (e' & He' & Hcontent).
  unfold ids_of. rewrite He', (content_children _ _ Hcontent).
  apply children_indent_elem.
Qed.

Lemma map_view_content l l' :
  map content l = map (fun e => content (indent_elem 2 e)) l' ->
  map view l = map view l'.
Proof.
  intros H.
  assert (Hv : map view l = map (fun x => (fst (fst (fst x)), snd (fst (fst x))))
                              (map content l))
    by (rewrite map_map; reflexivity).
  rewrite Hv, H, map_map. apply map_ext. intros e. unfold view. cbn [content fst snd].
  rewrite tag_indent_elem, attrib_indent_elem. reflexivity.
Qed.

Lemma map_text_content l l' :
  map content l = map (fun e => content (indent_elem 2 e)) l' ->
  map text l = map (fun e => text (indent_elem 2 e)) l'.
Proof.
  intros H.
  assert (Hv : map text l = map (fun x => snd (fst x)) (map content l))
    by (rewrite map_map; reflexivity).
  rewrite Hv, H, map_map. reflexivity.
Qed.

Lemma fill_ids_match md o iid c pre x post :
  issue_id md = Some iid -> iid <> "" ->
  data_origin md = Some o ->
  children c = (pre ++ x :: post)%list ->
  Forall (other_source o) pre ->
  source_of x = Some (name o) ->
  fill_ids md c =
  OK (set_children
        (pre ++ set_attrib "primary" "true" (set_text (Some iid) x) :: post) c).
Proof.
  intros Hi Hne Ho Hch Hpre Hx. unfold fill_ids.
  rewrite Hi. destruct iid; [contradiction |]. cbn [truthy PyStr.nonempty].
  rewrite Hch, (scan_match md o pre x post Ho Hpre Hx), Hi. reflexivity.
Qed.

Lemma fill_ids_append md o iid c :
  issue_id md = Some iid -> iid <> "" ->
  data_origin md = Some o ->
  Forall (other_source o) (children c) ->
  fill_ids md c =
  OK (add_element "ID" iid [("source", name o); ("primary", "true")] c).
Proof.
  intros Hi Hne Ho Hch. unfold fill_ids.
  rewrite Hi. destruct iid; [contradiction |]. cbn [truthy PyStr.nonempty].
  rewrite (scan_no_match md o _ Ho Hch). unfold data_origin_name.
  rewrite Ho. reflexivity.
Qed.

Lemma dict_get_set_other k k' v d :
  String.eqb k' k = false -> dict_get k (dict_set k' v d) = dict_get k d.
Proof.
  intros Hk. induction d as [| [k0 v0] d IH]; simpl.
  - rewrite Hk. reflexivity.
  - destruct (String.eqb k0 k') eqn:E; simpl.
    + apply String.eqb_eq in E. subst k0. rewrite Hk. reflexivity.
    + destruct (String.eqb k0 k); [reflexivity | exact IH].
Qed.

Lemma other_source_name o o' e :
  name o = name o' -> other_source o e -> other_source o' e.
Proof. intros H (s & Hs & Hne). exists s. rewrite <- H. auto. Qed.

Lemma count_source_other o ids :
  Forall (other_source o) ids -> count_source (name o) ids = 0.
Proof.
  unfold count_source. induction 1 as [| e ids (s & Hs & Hne) _ IH];
    [reflexivity |].
  simpl. unfold source_of at 1. rewrite Hs.
  destruct (String.eqb_spec s (name o)); [contradiction | exact IH].
Qed.

Lemma count_source_app s l l' :
  count_source s (l ++ l') = count_source s l + count_source s l'.
Proof. unfold count_source. rewrite map_app, filter_app, length_app. reflexivity. Qed.

Lemma count_source_view s l l' :
  map view l = map view l' -> count_source s l = count_source s l'.
Proof.
  intros H. unfold count_source.
  assert (Hs : forall l0, map source_of l0
                          = map (fun v => dict_get "source" (snd v)) (map view l0))
    by (intros l0; rewrite map_map; reflexivity).
  rewrite (Hs l), (Hs l'), H. reflexivity.
Qed.

Lemma nth_error_map_middle (A B : Type) (g : A -> B) pre x post :
  nth_error (map g (pre ++ x :: post)) (length pre) = Some (g x).
Proof.
  rewrite map_app, nth_error_app2 by (rewrite length_map; apply le_n).
  rewrite length_map, Nat.sub_diag. reflexivity.
Qed.

Lemma source_of_primary e :
  source_of (set_attrib "primary" "true" e) = source_of e.
Proof. unfold source_of. simpl. apply dict_get_set_other. reflexivity. Qed.

(** What a scan that returned tells about the children scanned. *)
Lemma scan_result md o ids found :
  data_origin md = Some o ->
  update_issue_id md ids = OK found ->
  match found with
  | Some _ =>
      exists pre x post,
        ids = (pre ++ x :: post)%list
        /\ Forall (other_source o) pre
        /\ source_of x = Some (name o)
  | None => Forall (other_source o) ids
  end.
Proof.
  intros Ho. revert found. induction ids as [| c ids IH]; intros found H.
  - injection H as <-. constructor.
  - simpl in H. destruct (dict_get "source" (attrib c)) as [s |] eqn:Hs;
      [| discriminate]. unfold data_origin_name in H. rewrite Ho in H.
    simpl in H. destruct (String.eqb_spec s (name o)) as [-> | Hne].
    + injection H as <-. exists [], c, ids. repeat split; [constructor | exact Hs].
    + apply result_bind_OK in H. destruct H as (found' & Hscan & H).
      injection H as <-. specialize (IH _ Hscan).
      assert (Hother : other_source o c) by (exists s; auto).
      destruct found' as [ids' |]; simpl.
      * destruct IH as (pre & x & post & -> & Hpre & Hx).
        exists (c :: pre), x, post. repeat split; [constructor; assumption | exact Hx].
      * constructor; assumption.
Qed.

Lemma Forall_other_view o l l' :
  map view l = map view l' ->
  Forall (other_source o) l' -> Forall (other_source o) l.
Proof.
  revert l'. induction l as [| e l IH]; intros [| e' l'] H Hall;
    try discriminate; [constructor |].
  rewrite !map_cons in H.
  pose proof (f_equal (@List.hd _ (view e)) H) as He.
  pose proof (f_equal (@List.tl _) H) as Hl. cbn [List.hd List.tl] in He, Hl.
  inversion Hall as [| ? ? (s & Hs & Hne) Hall']; subst.
  constructor; [| eapply IH; eassumption].
  exists s. split; [| exact Hne].
  unfold view in He. replace (attrib e) with (attrib e') by congruence. exact Hs.
Qed.

Lemma view_split l pre x post :
  map view l = map view (pre ++ x :: post) ->
  exists pre' x' post',
    l = (pre' ++ x' :: post')%list
    /\ map view pre' = map view pre
    /\ view x' = view x.
Proof.
  revert l. induction pre as [| p pre IH]; intros [| e l] H; try discriminate.
  - cbn [app] in H. rewrite !map_cons in H.
    pose proof (f_equal (@List.hd _ (view e)) H) as He. cbn [List.hd] in He.
    exists [], e, l. auto.
  - rewrite <- app_comm_cons, !map_cons in H.
    pose proof (f_equal (@List.hd _ (view e)) H) as He.
    pose proof (f_equal (@List.tl _) H) as Hl. cbn [List.hd List.tl] in He, Hl.
    destruct (IH _ Hl) as (pre' & x' & post' & -> & Hpre & Hx).
    exists (e :: pre'), x', post'. repeat split; [| exact Hx].
    rewrite !map_cons, He, Hpre. reflexivity.
Qed.

Lemma source_of_view e e' : view e = view e' -> source_of e = source_of e'.
Proof. unfold view, source_of. congruence. Qed.

Lemma map_source_of_view l l' :
  map view l = map view l' -> map source_of l = map source_of l'.
Proof.
  intros H.
  assert (Hs : forall l0, map source_of l0
                          = map (fun v => dict_get "source" (snd v)) (map view l0))
    by (intros l0; rewrite map_map; reflexivity).
  rewrite (Hs l), (Hs l'), H. reflexivity.
Qed.

(** The update of a matching [ID] child. *)
Lemma upsert_update GM now fromstring md xml root o iid pre x post :
  issue_id md = Some iid -> iid <> "" ->
  data_origin md = Some o ->
  parsed fromstring xml root ->
  ids_of root = (pre ++ x :: post)%list ->
  Forall (other_source o) pre ->
  source_of x = Some (name o) ->
  exists out,
    snd (_convert_metadata_to_xml GM now fromstring md xml) = OK out
    /\ map view (ids_of out)
       = map view (pre ++ set_attrib "primary" "true" x :: post)
    /\ nth_error (map text (ids_of out)) (length pre)
       = Some (Some (if negb (is_leaf x) && blank (Some iid)
                     then indentation 3 else iid)).
Proof.
  intros Hi Hne Ho Hp Hids Hpre Hx.
  destruct (handles_ids root) as (c & Hc & Hch). rewrite Hids in Hch.
  pose proof (fill_ids_match md o iid c pre x post Hi Hne Ho Hch Hpre Hx) as Hfill.
  destruct (convert_ids GM now fromstring md xml root c _ Hp Hc Hfill)
    as (out & Hout & Hcontent).
  cbn [children set_children] in Hcontent.
  exists out. split; [exact Hout |]. split.
  - rewrite (map_view_content _ _ Hcontent), !map_app, !map_cons. reflexivity.
  - rewrite (map_text_content _ _ Hcontent), nth_error_map_middle.
    rewrite text_indent_elem. unfold is_leaf. cbn [children set_attrib set_text text].
    destruct (children x); cbn [negb andb]; [reflexivity |].
    destruct (blank (Some iid)); reflexivity.
Qed.

(** The insertion of a new [ID] child. *)
Lemma upsert_append GM now fromstring md xml root o iid :
  issue_id md = Some iid -> iid <> "" ->
  data_origin md = Some o ->
  parsed fromstring xml root ->
  Forall (other_source o) (ids_of root) ->
  exists out,
    snd (_convert_metadata_to_xml GM now fromstring md xml) = OK out
    /\ map view (ids_of out)
       = (map view (ids_of root)
            ++ [("ID", [("source", name o); ("primary", "true")])])%list
    /\ last (map text (ids_of out)) None = Some iid
    /\ count_source (name o) (ids_of out) = 1.
Proof.
  intros Hi Hne Ho Hp Hall.
  destruct (handles_ids root) as (c & Hc & Hch). rewrite <- Hch in Hall.
  pose proof (fill_ids_append md o iid c Hi Hne Ho Hall) as Hfill.
  destruct (convert_ids GM now fromstring md xml root c _ Hp Hc Hfill)
    as (out & Hout & Hcontent).
  rewrite add_element_append in Hcontent.
  cbn [children append set_children] in Hcontent.
  assert (Hnew : new_element "ID" iid [("source", name o); ("primary", "true")]
                 = mkElement "ID" [("source", name o); ("primary", "true")]
                     (Some iid) None []).
  { unfold new_element. destruct iid; [contradiction | reflexivity]. }
  rewrite Hnew in Hcontent.
  assert (Hview : map view (ids_of out)
                  = (map view (ids_of root)
                       ++ [("ID", [("source", name o); ("primary", "true")])])%list).
  { rewrite (map_view_content _ _ Hcontent), map_app, Hch. reflexivity. }
  exists out. split; [exact Hout |]. split; [exact Hview |]. split.
  - rewrite (map_text_content _ _ Hcontent), map_app. cbn [map].
    rewrite last_last. reflexivity.
  - rewrite (count_source_view (name o) _
               (children c ++ [mkElement "ID" [("source", name o); ("primary", "true")]
                                 (Some iid) None []])).
    + rewrite count_source_app, (count_source_other o _ Hall).
      unfold count_source. cbn [map source_of attrib dict_get filter].
      rewrite String.eqb_refl. cbn. rewrite String.eqb_refl. reflexivity.
    + rewrite Hview, map_app, Hch. reflexivity.
Qed.

(** After an encode that returned, the scan of the [IDS] children of its
    document reaches a child of the data origin. *)
Lemma encoded_ids_shape GM now fromstring md xml root o iid out :
  issue_id md = Some iid -> iid <> "" ->
  data_origin md = Some o ->
  parsed fromstring xml root ->
  snd (_convert_metadata_to_xml GM now fromstring md xml) = OK out ->
  exists pre x post,
    ids_of out = (pre ++ x :: post)%list
    /\ Forall (other_source o) pre
    /\ source_of x = Some (name o).
Proof.
  intros Hi Hne Ho Hp Hout.
  destruct (update_issue_id md (ids_of root)) as [[ids' |] | e] eqn:Hscan.
  - destruct (scan_result md o _ _ Ho Hscan) as (pre & x & post & Hids & Hpre & Hx).
    destruct (upsert_update GM now fromstring md xml root o iid pre x post
                Hi Hne Ho Hp Hids Hpre Hx) as (out' & Hout' & Hview & _).
    assert (out' = out) by congruence. subst out'.
    destruct (view_split _ _ _ _ Hview) as (pre' & x' & post' & Hsplit & Hvpre & Hvx).
    exists pre', x', post'. split; [exact Hsplit |]. split.
    + eapply Forall_other_view; eassumption.
    + rewrite (source_of_view _ _ Hvx), source_of_primary. exact Hx.
  - pose proof (scan_result md o _ _ Ho Hscan) as Hall. cbn in Hall.
    destruct (upsert_append GM now fromstring md xml root o iid
                Hi Hne Ho Hp Hall) as (out' & Hout' & Hview & _).
    assert (out' = out) by congruence. subst out'.
    assert (Hview' : map view (ids_of out)
                     = map view (ids_of root
                                   ++ mkElement "ID"
                                        [("source", name o); ("primary", "true")]
                                        None None [] :: [])%list)
      by (rewrite Hview, map_app; reflexivity).
    destruct (view_split _ _ _ _ Hview') as (pre' & x' & post' & Hsplit & Hvpre & Hvx).
    exists pre', x', post'. split; [exact Hsplit |]. split.
    + eapply Forall_other_view; eassumption.
    + rewrite (source_of_view _ _ Hvx). unfold source_of. cbn.
      reflexivity.
  - exfalso. destruct (handles_ids root) as (c & Hc & Hch).
    rewrite (convert_parsed GM now _ md _ _ Hp) in Hout.
    rewrite (encode_root_raise GM now md root c e Hc) in Hout; [discriminate |].
    rewrite fill_ids_encoded. unfold fill_ids. rewrite Hi.
    destruct iid; [contradiction |]. cbn [truthy PyStr.nonempty].
    rewrite Hch, Hscan. reflexivity.
Qed.

(** ** Credits *)

(** *** The dict [creators] *)

Lemma creators_get_setdefault k p r k' d :
  creators_get k' (setdefault_append k p r d) =
  if String.eqb k k'
  then Some (match creators_get k' d with
             | Some (p0, rs) => (p0, (rs ++ [r])%list)
             | None => (p, [r])
             end)
  else creators_get k' d.
Proof.
  induction d as [| [k0 [p0 rs]] d IH]; simpl.
  - destruct (String.eqb k k'); reflexivity.
  - destruct (String.eqb k0 k) eqn:E0; simpl.
    + apply String.eqb_eq in E0. subst k0.
      destruct (String.eqb k k'); reflexivity.
    + destruct (String.eqb k0 k') eqn:E1.
      * apply String.eqb_eq in E1. subst k0.
        rewrite String.eqb_sym, E0. reflexivity.
      * exact IH.
Qed.

Lemma keys_setdefault k p r d :
  map fst (setdefault_append k p r d) =
  if PyStr.mem k (map fst d) then map fst d else (map fst d ++ [k])%list.
Proof.
  induction d as [| [k0 [p0 rs]] d IH]; [reflexivity |].
  simpl. rewrite (String.eqb_sym k k0).
  destruct (String.eqb k0 k) eqn:E; simpl; [reflexivity |].
  rewrite IH. unfold PyStr.mem. destruct (existsb (String.eqb k) (map fst d));
    reflexivity.
Qed.

Lemma NoDup_setdefault k p r d :
  NoDup (map fst d) -> NoDup (map fst (setdefault_append k p r d)).
Proof.
  intros H. rewrite keys_setdefault.
  destruct (PyStr.mem k (map fst d)) eqn:E; [exact H |].
  apply NoDup_app; [exact H | repeat constructor; intros [] |].
  intros x Hx [<- | []].
  apply mem_In in Hx. congruence.
Qed.

Lemma NoDup_collect GM cs d :
  NoDup (map fst d) ->
  NoDup (map fst
           (fold_left
              (fun creators credit =>
                 setdefault_append (creator_folded (person credit))
                   (person credit) (credit_role GM (role credit)) creators)
              cs d)).
Proof.
  revert d. induction cs as [| c cs IH]; intros d H; [exact H |].
  simpl. apply IH, NoDup_setdefault, H.
Qed.

Lemma creators_get_fold GM k cs d :
  creators_get k
    (fold_left
       (fun creators credit =>
          setdefault_append (creator_folded (person credit))
            (person credit) (credit_role GM (role credit)) creators)
       cs d) =
  match filter (fun c => String.eqb (creator_folded (person c)) k) cs with
  | [] => creators_get k d
  | c :: _ =>
      Some (match creators_get k d with
            | Some (p0, rs) => (p0, (rs ++ roles_for GM k cs)%list)
            | None => (person c, roles_for GM k cs)
            end)
  end.
Proof.
  revert d. induction cs as [| c cs IH]; intros d; [reflexivity |].
  cbn [fold_left]. rewrite IH, creators_get_setdefault.
  unfold roles_for. cbn [filter].
  destruct (String.eqb (creator_folded (person c)) k) eqn:E.
  - cbn [map].
    destruct (filter (fun c0 => String.eqb (creator_folded (person c0)) k) cs)
      as [| c' m].
    + destruct (creators_get k d) as [[p0 rs] |]; reflexivity.
    + destruct (creators_get k d) as [[p0 rs] |]; [| reflexivity].
      rewrite <- app_assoc. reflexivity.
  - reflexivity.
Qed.

Lemma filter_head_find (A : Type) (P : A -> bool) l :
  List.find P l = List.hd_error (filter P l).
Proof.
  induction l as [| a l IH]; [reflexivity |].
  simpl. destruct (P a); [reflexivity | exact IH].
Qed.

Lemma creators_get_collect GM k cs :
  creators_get k (collect_creators GM cs) =
  option_map (fun p => (p, roles_for GM k cs)) (first_person k cs).
Proof.
  unfold collect_creators. rewrite creators_get_fold.
  unfold first_person. rewrite filter_head_find.
  destruct (filter (fun c => String.eqb (creator_folded (person c)) k) cs);
    reflexivity.
Qed.

Lemma creators_get_In k v d : creators_get k d = Some v -> In (k, v) d.
Proof.
  induction d as [| [k0 v0] d IH]; simpl; [discriminate |].
  destruct (String.eqb k0 k) eqn:E.
  - apply String.eqb_eq in E. intros H. injection H as <-. subst. auto.
  - auto.
Qed.

Lemma first_person_In k c cs :
  In c cs -> creator_folded (person c) = k -> first_person k cs <> None.
Proof.
  intros Hin Hk. unfold first_person.
  destruct (List.find (fun c0 => String.eqb (creator_folded (person c0)) k) cs)
    eqn:E; [discriminate |].
  apply (find_none _ _ E) in Hin. subst k. rewrite String.eqb_refl in Hin.
  discriminate Hin.
Qed.

(** Every credit is in the entry of its folded name, with the roles of all
    credits of that folded name. *)
Lemma collect_creators_merges GM cs c :
  In c cs ->
  exists p,
    first_person (creator_folded (person c)) cs = Some p
    /\ In (creator_folded (person c),
           (p, roles_for GM (creator_folded (person c)) cs))
         (collect_creators GM cs).
Proof.
  intros Hin. pose proof (first_person_In _ c cs Hin eq_refl) as Hp.
  destruct (first_person (creator_folded (person c)) cs) as [p |] eqn:E;
    [| contradiction].
  exists p. split; [reflexivity |]. apply creators_get_In.
  rewrite creators_get_collect, E. reflexivity.
Qed.

Lemma collect_two GM p1 r1 p2 r2 :
  creator_folded p1 = creator_folded p2 ->
  collect_creators GM [mkCredit p1 r1; mkCredit p2 r2] =
  [(creator_folded p1, (p1, [credit_role GM r1; credit_role GM r2]))].
Proof.
  intros H. unfold collect_creators.
  cbn [fold_left setdefault_append person role]. rewrite H, String.eqb_refl.
  reflexivity.
Qed.

(** *** The [Credit] elements *)

Lemma map_factor (A : Type) (obs : Element -> A) l l' :
  (forall e e', content e = content e' -> obs e = obs e') ->
  map content l = map content l' -> map obs l = map obs l'.
Proof.
  intros Hobs. revert l'. induction l as [| e l IH]; intros [| e' l'] H;
    try discriminate; [reflexivity |].
  rewrite !map_cons in H.
  pose proof (f_equal (@List.hd _ (content e)) H) as He.
  pose proof (f_equal (@List.tl _) H) as Hl. cbn [List.hd List.tl] in He, Hl.
  rewrite !map_cons, (Hobs _ _ He), (IH _ Hl). reflexivity.
Qed.

Lemma content_tag e e' : content e = content e' -> tag e = tag e'.
Proof. unfold content. congruence. Qed.

Lemma credit_view_content e e' :
  content e = content e' -> credit_view e = credit_view e'.
Proof.
  intros H. unfold credit_view, creator_of, child_text, roles_of.
  rewrite (content_tag _ _ H), (content_find "Creator" _ _ H),
    (content_find "Roles" _ _ H). reflexivity.
Qed.

Lemma add_credit_element creator roles e :
  add_credit creator roles e =
  if PyStr.nonempty creator then append (credit_element creator roles) e else e.
Proof. reflexivity. Qed.

Lemma children_add_credits entries e :
  children
    (fold_left
       (fun metron_credits (creator : string * (string * list string)) =>
          add_credit (fst (snd creator)) (snd (snd creator)) metron_credits)
       entries e) =
  (children e
     ++ map (fun entry => credit_element (fst (snd entry)) (snd (snd entry)))
          (named entries))%list.
Proof.
  revert e. induction entries as [| entry entries IH]; intros e.
  - simpl. rewrite app_nil_r. reflexivity.
  - cbn [fold_left]. rewrite IH, add_credit_element. unfold named. cbn [filter].
    destruct (PyStr.nonempty (fst (snd entry))); [| reflexivity].
    cbn [children append set_children map]. rewrite <- app_assoc. reflexivity.
Qed.

Lemma children_fill_credits GM md e :
  children (fill_credits GM md e) =
  map (fun entry => credit_element (fst (snd entry)) (snd (snd entry)))
    (named (collect_creators GM (credits md))).
Proof. unfold fill_credits. rewrite children_add_credits. reflexivity. Qed.

Lemma children_fold_append (A : Type) (g : A -> Element) l e :
  children (fold_left (fun parent a => append (g a) parent) l e) =
  (children e ++ map g l)%list.
Proof.
  revert e. induction l as [| a l IH]; intros e.
  - simpl. rewrite app_nil_r. reflexivity.
  - cbn [fold_left]. rewrite IH. cbn [children append set_children map].
    rewrite <- app_assoc. reflexivity.
Qed.

Lemma tag_credit_element creator roles :
  tag (credit_element creator roles) = "Credit".
Proof. unfold credit_element. destruct (0 <? length roles)%nat; reflexivity. Qed.

Lemma find_creator_credit_element creator roles :
  find "Creator" (credit_element creator roles) =
  Some (new_element "Creator" creator []).
Proof.
  unfold credit_element. destruct (0 <? length roles)%nat;
    rewrite ?find_append, find_add_element; reflexivity.
Qed.

Lemma tag_roles_element roles : tag (roles_element roles) = "Roles".
Proof. unfold roles_element. rewrite tag_fold_left; reflexivity. Qed.

Lemma children_roles_element roles :
  children (roles_element roles) =
  map (fun role => set_text (Some role) (ET.new "Role")) roles.
Proof.
  unfold roles_element.
  rewrite (children_fold_append _ (fun role => set_text (Some role) (ET.new "Role"))).
  reflexivity.
Qed.

Lemma find_roles_credit_element creator roles :
  find "Roles" (credit_element creator roles) =
  match roles with
  | [] => None
  | _ => Some (roles_element roles)
  end.
Proof.
  unfold credit_element. destruct roles as [| r roles]; cbn [length Nat.ltb Nat.leb].
  - rewrite find_add_element. reflexivity.
  - rewrite find_append, find_add_element. fold (roles_element (r :: roles)).
    rewrite tag_roles_element. reflexivity.
Qed.

Lemma find_content_None t e :
  option_map content (find t e) = None -> find t e = None.
Proof. destruct (find t e); [discriminate | reflexivity]. Qed.

(** A [Credit] element as it reads after the pretty-printing. *)
Lemma credit_view_indent level creator roles :
  PyStr.nonempty creator = true ->
  credit_view (indent_elem level (credit_element creator roles)) =
  ("Credit", Some creator, map (fun r => ("Role", Some r)) roles).
Proof.
  intros Hne. unfold credit_view. f_equal; [f_equal |].
  - rewrite tag_indent_elem. apply tag_credit_element.
  - unfold creator_of. eapply child_text_content.
    + rewrite find_indent_elem, find_creator_credit_element. reflexivity.
    + rewrite (new_element_plain _ _ Hne). reflexivity.
  - unfold roles_of.
    pose proof (find_indent_elem "Roles" level (credit_element creator roles)) as H.
    rewrite find_roles_credit_element in H. destruct roles as [| r roles].
    + apply find_content_None in H. rewrite H. reflexivity.
    + cbn [option_map] in H. apply find_content_Some in H.
      destruct H as (e' & He' & Hc). rewrite He', (content_children _ _ Hc).
      rewrite (map_factor _ (fun x => (tag x, text x)) _
                 (map (indent_elem (S (S level)))
                    (children (roles_element (r :: roles))))).
      * rewrite children_roles_element, !map_map. reflexivity.
      * intros e1 e2 H12. rewrite (content_tag _ _ H12), (content_text _ _ H12).
        reflexivity.
      * rewrite children_indent_elem, map_map. reflexivity.
Qed.

(** The children of [Credits] in the document, read as credits. *)
Lemma credits_written_collect GM now fromstring md xml out :
  snd (_convert_metadata_to_xml GM now fromstring md xml) = OK out ->
  credits_written out =
  map entry_written (named (collect_creators GM (credits md))).
Proof.
  intros Hout.
  assert (Hf : filler GM now md "Credits" = Some (fill_credits GM md))
    by reflexivity.
  pose proof (convert_cleared _ _ _ _ _ _ _ _ Hout Hf ltac:(discriminate)) as H.
  apply find_content_Some in H. destruct H as (cs & Hcs & Hc).
  unfold credits_written. rewrite Hcs, (content_children _ _ Hc).
  rewrite (map_factor _ credit_view _
             (map (indent_elem 2) (children (fill_credits GM md (ET.new "Credits"))))
             credit_view_content)
    by (rewrite children_indent_elem, map_map; reflexivity).
  rewrite children_fill_credits, !map_map. apply map_ext_in.
  intros entry Hin. unfold named in Hin. apply filter_In in Hin.
  destruct Hin as (_ & Hne). rewrite (credit_view_indent _ _ _ Hne). reflexivity.
Qed.

(** * The properties of the specification *)

(** ** The adapter: [has_tags] *)

(** C7.  [has_tags] is a total function to [bool]: it returns [True]
    exactly when the archive supports files, [MetronInfo.xml] is in its file
    list and its bytes parse as XML with root tag [MetronInfo]; in every
    other case it returns [False], also when the expression inside its
    [try] raises, whatever the exception. *)
Theorem has_tags_true_iff fromstring archive :
  (has_tags fromstring archive = true <->
   supports_files archive = OK true
   /\ (exists names, get_filename_list archive = OK names /\ In file names)
   /\ (exists data root,
         read_file archive file = OK data
         /\ fromstring data = OK root
         /\ tag root = "MetronInfo"))
  /\ (forall e, has_tags_body fromstring archive = Raise e ->
                has_tags fromstring archive = false).
Proof.
  split; [| intros e H; unfold has_tags; rewrite H; reflexivity].
  unfold has_tags, has_tags_body, supports_tags, _validate_bytes. split.
  - destruct (supports_files archive) as [[|] | e]; simpl; try discriminate.
    destruct (get_filename_list archive) as [names | e]; simpl;
      try discriminate.
    destruct (PyStr.mem file names) eqn:Hmem; try discriminate.
    destruct (read_file archive file) as [data | e]; simpl; try discriminate.
    destruct (fromstring data) as [root | e] eqn:Hparse.
    + destruct (String.eqb (tag root) "MetronInfo") eqn:Htag; try discriminate.
      intros _. split; [reflexivity |]. split.
      * exists names. split; [reflexivity | apply mem_In, Hmem].
      * exists data, root. apply String.eqb_eq in Htag. auto.
    + destruct e; discriminate.
  - intros (Hs & (names & Hn & Hin) & (data & root & Hr & Hp & Ht)).
    rewrite Hs. simpl. rewrite Hn. simpl.
    apply mem_In in Hin. rewrite Hin, Hr. simpl. rewrite Hp, Ht. reflexivity.
Qed.

(** ** Credit roles *)

(** C2.  The classification of a credit role never yields [Translator],
    whatever the synonym tables and the role: the chain of tests has no
    branch for [translator_synonyms].  With the tables of the sample, the
    role [Translator] is a role the format supports
    ([supports_credit_role]) and is written as [Other]. *)
Theorem credit_role_never_Translator :
  (forall GM role, credit_role GM role <> "Translator")
  /\ supports_credit_role sample_synonyms "Translator" = true
  /\ credit_role sample_synonyms "Translator" = "Other"
  /\ credit_role sample_synonyms "translation" = "Other".
Proof.
  split; [| repeat split; reflexivity].
  intros GM role. unfold credit_role.
  repeat match goal with
         | |- (if ?b then _ else _) <> _ => destruct b eqn:?
         end; try discriminate.
  intros ->.
  match goal with
  | H : PyStr.mem _ ADDITIONAL_CREDITS = true |- _ => vm_compute in H; discriminate H
  end.
Qed.

(** ** Maturity rating *)

(** C1.  A maturity rating [G] is written to [AgeRating] as [Unknown], not
    as [Everyone]: the rating is lowercased before it is looked up in
    [mature_everyone], which holds [G] in upper case.  This holds for every
    record, existing document and synonym table; the encoder does return a
    document on the record that holds nothing else.  The other inputs of
    the claim are normalized as it says. *)
Theorem maturity_G_written_Unknown :
  (forall GM now fromstring md xml,
      match snd (_convert_metadata_to_xml GM now fromstring
                   (set_maturity_rating (Some "G") md) xml) with
      | OK out => child_text "AgeRating" out = Some "Unknown"
      | Raise _ => True
      end)
  /\ (forall GM now fromstring,
         option_map (child_text "AgeRating")
           (document (_convert_metadata_to_xml GM now fromstring
                        (set_maturity_rating (Some "G") empty_metadata) []))
         = Some (Some "Unknown"))
  /\ normalize_maturity "G" = "Unknown"
  /\ normalize_maturity "all ages" = "Everyone"
  /\ normalize_maturity "Everyone" = "Everyone"
  /\ normalize_maturity "18+" = "Adult"
  /\ normalize_maturity "Adults Only 18+" = "Adult".
Proof.
  split; [| split; [| repeat split; reflexivity]].
  - intros GM now fromstring md xml.
    destruct (snd (_convert_metadata_to_xml GM now fromstring
                     (set_maturity_rating (Some "G") md) xml)) as [out | e] eqn:E;
      [| exact I].
    rewrite (age_rating_written _ _ _ _ _ _ E); reflexivity.
  - intros GM now fromstring. vm_compute. reflexivity.
Qed.

(** ** Cover date *)




(** ** Series format *)

Lemma truthy_Some s : s <> "" -> truthy (Some s) = true.
Proof. destruct s; [contradiction | reflexivity]. Qed.

(** C4.  For every record with a non-empty series and a non-empty format,
    the [Format] child of [Series] is [Trade Paperback] when the format is
    one of [TPB], [tpb], [Trade Paperback] and [collected edition], and
    [Single Issue] when the format, lowercased, is in neither synonym list
    nor among the keys of the lookup table. *)
Theorem format_normalized GM now fromstring md xml out s fmt :
  series md = Some s -> s <> "" ->
  format md = Some fmt -> fmt <> "" ->
  snd (_convert_metadata_to_xml GM now fromstring md xml) = OK out ->
  exists se,
    find "Series" out = Some se
    /\ (In fmt ["TPB"; "tpb"; "Trade Paperback"; "collected edition"] ->
        child_text "Format" se = Some "Trade Paperback")
    /\ (PyStr.mem (PyStr.casefold (PyStr.lower fmt)) format_tpb = false ->
        PyStr.mem (PyStr.casefold (PyStr.lower fmt)) format_one_shot = false ->
        dict_get (PyStr.casefold (PyStr.lower fmt)) format_dict = None ->
        child_text "Format" se = Some "Single Issue").
Proof.
  intros Hs Hsne Hf Hfne Hout.
  destruct (series_format_written GM now fromstring md xml out Hout)
    as (se & Hse & Htext).
  { rewrite Hs. apply truthy_Some, Hsne. }
  { rewrite Hf. apply truthy_Some, Hfne. }
  exists se. split; [exact Hse |]. rewrite Htext, Hf. cbn [text_of]. split.
  - intros Hin. simpl in Hin.
    destruct Hin as [<- | [<- | [<- | [<- | []]]]]; reflexivity.
  - intros Htpb Hone Hdict. unfold normalize_format, dict_get_default.
    rewrite Htpb, Hone, Hdict. reflexivity.
Qed.

Lemma format_normalized_witness :
  exists se,
    find "Series"
      (match document (_convert_metadata_to_xml sample_synonyms sample_now
                         (parser_of fresh_root) (md_with_format "Saga" "TPB") [])
       with Some out => out | None => ET.new "" end) = Some se
    /\ child_text "Format" se = Some "Trade Paperback".
Proof.
  assert (H : exists out, snd (_convert_metadata_to_xml sample_synonyms sample_now
                     (parser_of fresh_root) (md_with_format "Saga" "TPB") [])
              = OK out
              /\ match document (_convert_metadata_to_xml sample_synonyms
                                   sample_now (parser_of fresh_root)
                                   (md_with_format "Saga" "TPB") [])
                 with Some out => out | None => ET.new "" end = out).
  { vm_compute. eexists. split; reflexivity. }
  destruct H as (out & Hout & ->).
  destruct (format_normalized sample_synonyms sample_now (parser_of fresh_root)
              (md_with_format "Saga" "TPB") [] out "Saga" "TPB"
              eq_refl ltac:(discriminate) eq_refl ltac:(discriminate) Hout)
    as (se & Hse & Htpb & _).
  exists se. split; [exact Hse |]. apply Htpb. left. reflexivity.
Defined.

(** ** The encoder mutates its record *)

(** C9, as stated, fails: the encoder leaves the record that holds nothing
    as it was, and it leaves a format alone when the series is empty. *)
Lemma encoder_keeps_empty_record :
  fst (_convert_metadata_to_xml sample_synonyms sample_now
         (parser_of fresh_root) empty_metadata []) = empty_metadata
  /\ fst (_convert_metadata_to_xml sample_synonyms sample_now
            (parser_of fresh_root) (set_format (Some "tpb") empty_metadata) [])
     = set_format (Some "tpb") empty_metadata.
Proof. split; vm_compute; reflexivity. Qed.

(** C9, amended.  Whenever the existing bytes are empty or parse, the
    encoder leaves the caller's record, also when it raises later, with
    [format] replaced by its normalized value if series and format are both
    non-empty, [maturity_rating] replaced by its normalized value if it is
    non-empty, [Manga] added to [genres] if [manga], casefolded, starts
    with [yes], and every other field as it was; so the record differs from
    its value before the call exactly when one of these three fields
    changes.  [write_tags] hands this record back. *)
Theorem encoder_mutates_record GM now fromstring md xml :
  (xml = [] \/ exists root, fromstring xml = OK root) ->
  fst (_convert_metadata_to_xml GM now fromstring md xml) =
    set_maturity_rating (encoded_maturity_rating md)
      (set_genres (encoded_genres md) (set_format (encoded_format md) md))
  /\ (fst (_convert_metadata_to_xml GM now fromstring md xml) = md <->
      encoded_format md = format md
      /\ encoded_genres md = genres md
      /\ encoded_maturity_rating md = maturity_rating md)
  /\ (forall tostring archive,
         supports_files archive = OK true ->
         (if has_tags fromstring archive then read_file archive file else OK [])
         = OK xml ->
         fst (write_tags GM now fromstring tostring md archive) =
         fst (_convert_metadata_to_xml GM now fromstring md xml)).
Proof.
  intros Hxml.
  assert (H : fst (_convert_metadata_to_xml GM now fromstring md xml)
              = encoded_md md).
  { rewrite convert_encode_root. destruct Hxml as [-> | (root & Hroot)].
    - apply fst_encode_root.
    - destruct xml; [apply fst_encode_root |].
      rewrite Hroot. apply fst_encode_root. }
  split; [| split].
  - rewrite H. apply encoded_md_fields.
  - rewrite H, encoded_md_fields. apply setters_fixpoint.
  - intros tostring archive Hs Hread. unfold write_tags, supports_tags.
    rewrite Hs, Hread. unfold _bytes_from_metadata.
    destruct (_convert_metadata_to_xml GM now fromstring md xml) as [md' [out | e]];
      [| reflexivity].
    destruct (write_file archive file (tostring out)); reflexivity.
Qed.

Lemma encoder_mutates_record_witness :
  format (fst (_convert_metadata_to_xml sample_synonyms sample_now
                 (parser_of fresh_root) (md_with_format "Saga" "TPB") []))
  = Some "Trade Paperback".
Proof.
  rewrite (proj1 (encoder_mutates_record sample_synonyms sample_now
                    (parser_of fresh_root) (md_with_format "Saga" "TPB") []
                    (or_introl eq_refl))).
  reflexivity.
Defined.

(** ** The top-level elements *)

(** C3, as stated, fails on [IDS]: encoding the record that holds nothing
    into a document whose [IDS] has an [ID] child leaves that child in
    place, where encoding into a new document leaves [IDS] empty. *)
Lemma ids_not_cleared :
  ids_written
    (_convert_metadata_to_xml sample_synonyms sample_now
       (parser_of (doc_with_ids [id_element (Some "Metron") "1"]))
       empty_metadata sample_xml)
  = Some [("ID", [("source", "Metron")], Some "1")]
  /\ ids_written
       (_convert_metadata_to_xml sample_synonyms sample_now
          (parser_of (doc_with_ids [id_element (Some "Metron") "1"]))
          empty_metadata [])
     = Some [].
Proof. split; vm_compute; reflexivity. Qed.

(** C3, amended.  After every encode that returns, each of the fixed
    top-level children exists, and each of them other than [IDS] and
    [LastModified] has been cleared before it was filled from the record:
    its attributes, text and children are those the encoder leaves for the
    same record whatever the existing document. *)
Theorem top_level_elements GM now fromstring md xml out :
  snd (_convert_metadata_to_xml GM now fromstring md xml) = OK out ->
  (forall t, In t top_level_tags -> find t out <> None)
  /\ (forall t xml' out',
         In t cleared_tags ->
         snd (_convert_metadata_to_xml GM now fromstring md xml') = OK out' ->
         option_map content (find t out) = option_map content (find t out')).
Proof.
  intros Hout. split.
  - intros t Hin. apply convert_OK_root in Hout. destruct Hout as (root & Hout).
    destruct (String.eqb t "IDS") eqn:Eids.
    + apply String.eqb_eq in Eids. subst t.
      destruct (find_handles "IDS" root top_level_IDS) as (c & Hc & _).
      destruct (fill_ids (encoded_md md) c) as [c' | e] eqn:Hfill.
      * destruct (encode_root_return GM now md root c c' Hc Hfill)
          as (out' & Hout' & Hfind).
        assert (out' = out) by congruence. subst out'.
        destruct (find "IDS" out); [discriminate | discriminate Hfind].
      * rewrite (encode_root_raise GM now md root c e Hc Hfill) in Hout.
        discriminate Hout.
    + assert (Hfilled : exists f, filler GM now md t = Some f).
      { unfold filler. simpl in Hin.
        repeat match type of Hin with
               | _ \/ _ => destruct Hin as [<- | Hin]
               end;
          try (eexists; reflexivity); try discriminate Eids; contradiction. }
      destruct Hfilled as (f & Hf).
      pose proof (encode_root_find _ _ _ _ _ _ _ Hout Hf) as H.
      destruct (find_handles t root Hin) as (c & Hc & _).
      rewrite Hc in H. destruct (find t out); [discriminate | discriminate H].
  - intros t xml' out' Hin Hout'.
    assert (Hfilled : exists f, filler GM now md t = Some f /\ t <> "LastModified").
    { unfold filler. simpl in Hin.
      repeat match type of Hin with
             | _ \/ _ => destruct Hin as [<- | Hin]
             end;
        try (eexists; split; [reflexivity | discriminate]); contradiction. }
    destruct Hfilled as (f & Hf & Hne).
    rewrite (convert_cleared _ _ _ _ _ _ _ _ Hout Hf Hne).
    rewrite (convert_cleared _ _ _ _ _ _ _ _ Hout' Hf Hne). reflexivity.
Qed.

Lemma top_level_elements_witness :
  find "IDS" out_year_5_stale <> None
  /\ find "LastModified" out_year_5_stale <> None
  /\ option_map content (find "Genres" out_year_5_stale)
     = Some ("Genres", [], None, []).
Proof.
  assert (H : snd (_convert_metadata_to_xml sample_synonyms sample_now
                     (parser_of stale_doc) (md_with_year 5) sample_xml)
              = OK out_year_5_stale)
    by (vm_compute; reflexivity).
  assert (H' : snd (_convert_metadata_to_xml sample_synonyms sample_now
                      (parser_of stale_doc) (md_with_year 5) [])
               = OK out_year_5)
    by (vm_compute; reflexivity).
  destruct (top_level_elements sample_synonyms sample_now (parser_of stale_doc)
              (md_with_year 5) sample_xml out_year_5_stale H) as (Hall & Hsame).
  split; [apply Hall; vm_compute; auto |].
  split; [apply Hall; vm_compute; auto 25 |].
  rewrite (Hsame "Genres" [] out_year_5); [reflexivity | | exact H'].
  vm_compute. auto 15.
Defined.

(** ** The issue identifier *)

(** C10, as stated, fails: the scan of the [IDS] children stops at the
    first child whose [source] is the data origin's name, so a child without
    a [source] attribute placed after it is never read, and the encoder
    returns a document. *)
Lemma later_id_without_source_not_read :
  dict_get "source" (attrib (id_element None "2")) = None
  /\ ids_written
       (_convert_metadata_to_xml sample_synonyms sample_now
          (parser_of (doc_with_ids [ id_element (Some "Metron") "1";
                                     id_element None "2" ]))
          (md_with_issue_id (Some metron) "7") sample_xml)
     = Some [ ("ID", [("source", "Metron"); ("primary", "true")], Some "7");
              ("ID", [], Some "2") ].
Proof. split; vm_compute; reflexivity. Qed.

(** C10, amended.  For every record with a non-empty issue id, the encoder
    raises instead of returning a document when the record has no data
    origin, or when the existing document has an [IDS] child without a
    [source] attribute that the scan reaches, every child before it having
    a [source] other than the data origin's name; [write_tags] then returns
    [False]. *)
Theorem ids_block_precondition GM now fromstring md xml :
  truthy (issue_id md) = true ->
  ids_block_raises fromstring md xml ->
  (exists e, snd (_convert_metadata_to_xml GM now fromstring md xml) = Raise e)
  /\ (forall tostring archive,
         supports_files archive = OK true ->
         (if has_tags fromstring archive then read_file archive file else OK [])
         = OK xml ->
         snd (write_tags GM now fromstring tostring md archive) = OK false).
Proof.
  intros Hi Hraises.
  assert (H : exists e,
             snd (_convert_metadata_to_xml GM now fromstring md xml) = Raise e).
  { rewrite convert_encode_root. destruct Hraises as [Ho | Hscan].
    - assert (Hroot : forall root, exists e,
                 snd (encode_root GM now md root) = Raise e).
      { intros root.
        destruct (find_handles "IDS" root top_level_IDS) as (c & Hc & _).
        destruct (fill_ids_no_origin md c Hi Ho) as (e & He).
        exists e. apply (encode_root_raise GM now md root c e Hc).
        rewrite fill_ids_encoded. exact He. }
      destruct xml as [| b xml]; [apply Hroot |].
      destruct (fromstring (b :: xml)) as [root | e];
        [apply Hroot | exists e; reflexivity].
    - destruct Hscan as (o & root & pre & c & post & Ho & Hne & Hparse & Hids
                         & Hpre & Hc).
      destruct xml as [| b xml]; [contradiction |]. rewrite Hparse.
      assert (Hids' : exists ids, find "IDS" root = Some ids
                                  /\ children ids = (pre ++ c :: post)%list).
      { unfold ids_of in Hids. destruct (find "IDS" root) as [ids |]; [eauto |].
        destruct pre; discriminate Hids. }
      destruct Hids' as (ids & Hfind & Hchildren).
      exists (KeyError "source").
      apply (encode_root_raise GM now md root ids _ (find_handles_IDS _ _ Hfind)).
      rewrite fill_ids_encoded. unfold fill_ids. rewrite Hi, Hchildren.
      rewrite (scan_missing_source md o pre c post Ho Hpre Hc). reflexivity. }
  split; [exact H |].
  intros tostring archive Hs Hread. destruct H as (e & He).
  unfold write_tags, supports_tags. rewrite Hs, Hread.
  unfold _bytes_from_metadata.
  destruct (_convert_metadata_to_xml GM now fromstring md xml) as [md' r].
  cbn [snd] in He. rewrite He. reflexivity.
Qed.

Lemma ids_block_precondition_witness :
  truthy (issue_id (md_with_issue_id (Some metron) "7")) = true
  /\ ids_block_raises
       (parser_of (doc_with_ids [ id_element (Some "Comic Vine") "1";
                                  id_element None "2" ]))
       (md_with_issue_id (Some metron) "7") sample_xml
  /\ exists e,
       snd (_convert_metadata_to_xml sample_synonyms sample_now
              (parser_of (doc_with_ids [ id_element (Some "Comic Vine") "1";
                                         id_element None "2" ]))
              (md_with_issue_id (Some metron) "7") sample_xml) = Raise e.
Proof.
  assert (Hi : truthy (issue_id (md_with_issue_id (Some metron) "7")) = true)
    by reflexivity.
  assert (Hr : ids_block_raises
                 (parser_of (doc_with_ids [ id_element (Some "Comic Vine") "1";
                                            id_element None "2" ]))
                 (md_with_issue_id (Some metron) "7") sample_xml).
  { right. exists metron, (doc_with_ids [ id_element (Some "Comic Vine") "1";
                                          id_element None "2" ]),
      [id_element (Some "Comic Vine") "1"], (id_element None "2"), [].
    repeat split; try reflexivity; try discriminate.
    constructor; [| constructor]. exists "Comic Vine".
    split; [reflexivity | discriminate]. }
  split; [exact Hi |]. split; [exact Hr |].
  exact (proj1 (ids_block_precondition sample_synonyms sample_now _ _ _ Hi Hr)).
Defined.

(** C8, as stated, fails: the existing document holds an [ID] child whose
    [source] is the data origin's name, and the encoder raises, because an
    earlier child has no [source] attribute. *)
Lemma upsert_raises_on_earlier_id_without_source :
  source_of (id_element (Some "Metron") "1") = Some (name metron)
  /\ snd (_convert_metadata_to_xml sample_synonyms sample_now
            (parser_of (doc_with_ids [ id_element None "0";
                                       id_element (Some "Metron") "1" ]))
            (md_with_issue_id (Some metron) "7") sample_xml)
     = Raise (KeyError "source").
Proof. split; vm_compute; reflexivity. Qed.

(** C8, amended.  For every record with a non-empty issue id and a data
    origin, encoding into a document in which an [IDS] child has the data
    origin's name as [source], every child before it having another
    [source], overwrites the text of that child with the issue id and sets
    its [primary] attribute to [true] without adding an element (the
    pretty-printer replaces the text only if it is blank and the child has
    children of its own); when every [IDS] child has another [source], an
    [ID] element with the [source] and [primary="true"] is appended, the
    only one of that source; and encoding a record of the same data-origin
    name into the document returned adds no element: the [IDS] children
    carry the same sources as before, each as often. *)
Theorem issue_id_upsert GM now fromstring md xml root o iid :
  issue_id md = Some iid -> iid <> "" ->
  data_origin md = Some o ->
  parsed fromstring xml root ->
  (forall pre x post,
      ids_of root = (pre ++ x :: post)%list ->
      Forall (other_source o) pre ->
      source_of x = Some (name o) ->
      exists out,
        snd (_convert_metadata_to_xml GM now fromstring md xml) = OK out
        /\ map view (ids_of out)
           = map view (pre ++ set_attrib "primary" "true" x :: post)
        /\ nth_error (map text (ids_of out)) (length pre)
           = Some (Some (if negb (is_leaf x) && blank (Some iid)
                         then indentation 3 else iid)))
  /\ (Forall (other_source o) (ids_of root) ->
      exists out,
        snd (_convert_metadata_to_xml GM now fromstring md xml) = OK out
        /\ map view (ids_of out)
           = (map view (ids_of root)
                ++ [("ID", [("source", name o); ("primary", "true")])])%list
        /\ last (map text (ids_of out)) None = Some iid
        /\ count_source (name o) (ids_of out) = 1)
  /\ (forall out md2 xml2 o2 iid2,
         snd (_convert_metadata_to_xml GM now fromstring md xml) = OK out ->
         issue_id md2 = Some iid2 -> iid2 <> "" ->
         data_origin md2 = Some o2 -> name o2 = name o ->
         xml2 <> [] -> fromstring xml2 = OK out ->
         exists out2,
           snd (_convert_metadata_to_xml GM now fromstring md2 xml2) = OK out2
           /\ map source_of (ids_of out2) = map source_of (ids_of out)
           /\ count_source (name o) (ids_of out2)
              = count_source (name o) (ids_of out)).
Proof.
  intros Hi Hne Ho Hp. split; [| split].
  - intros pre x post. apply upsert_update; assumption.
  - apply upsert_append; assumption.
  - intros out md2 xml2 o2 iid2 Hout Hi2 Hne2 Ho2 Hname Hxml2 Hparse2.
    destruct (encoded_ids_shape GM now fromstring md xml root o iid out
                Hi Hne Ho Hp Hout) as (pre & x & post & Hids & Hpre & Hx).
    assert (Hp2 : parsed fromstring xml2 out) by (right; auto).
    destruct (upsert_update GM now fromstring md2 xml2 out o2 iid2 pre x post
                Hi2 Hne2 Ho2 Hp2 Hids) as (out2 & Hout2 & Hview & _).
    { eapply Forall_impl; [| exact Hpre]. intros e.
      apply other_source_name. symmetry. exact Hname. }
    { rewrite Hname. exact Hx. }
    assert (Hsrc : map source_of (ids_of out2) = map source_of (ids_of out)).
    { rewrite (map_source_of_view _ _ Hview), Hids, !map_app, !map_cons.
      rewrite source_of_primary. reflexivity. }
    exists out2. split; [exact Hout2 |]. split; [exact Hsrc |].
    unfold count_source. rewrite Hsrc. reflexivity.
Qed.

Lemma issue_id_upsert_witness :
  exists out,
    snd (_convert_metadata_to_xml sample_synonyms sample_now
           (parser_of (doc_with_ids [ id_element (Some "Comic Vine") "1";
                                      id_element (Some "Metron") "2" ]))
           (md_with_issue_id (Some metron) "7") sample_xml) = OK out
    /\ map view (ids_of out)
       = [ ("ID", [("source", "Comic Vine")]);
           ("ID", [("source", "Metron"); ("primary", "true")]) ]
    /\ nth_error (map text (ids_of out)) 1 = Some (Some "7").
Proof.
  assert (Hp : parsed
                 (parser_of (doc_with_ids [ id_element (Some "Comic Vine") "1";
                                            id_element (Some "Metron") "2" ]))
                 sample_xml
                 (doc_with_ids [ id_element (Some "Comic Vine") "1";
                                 id_element (Some "Metron") "2" ]))
    by (right; split; [discriminate | reflexivity]).
  assert (Hpre : Forall (other_source metron) [id_element (Some "Comic Vine") "1"]).
  { constructor; [| constructor]. exists "Comic Vine".
    split; [reflexivity | discriminate]. }
  exact (proj1 (issue_id_upsert sample_synonyms sample_now _
                  (md_with_issue_id (Some metron) "7") sample_xml _ metron "7"
                  eq_refl ltac:(discriminate) eq_refl Hp)
           [id_element (Some "Comic Vine") "1"] (id_element (Some "Metron") "2") []
           eq_refl Hpre eq_refl).
Defined.

(** ** Credits *)

(** C6, as stated, fails in its general part: the names [Jane Doe] and
    [Jane Doe] followed by a space agree once spaces are stripped, whether
    all of them or those at the ends, and casefolded; the encoder, which
    folds a name by replacing each space with an underscore, writes a
    [Credit] element for each. *)
Lemma stripped_names_not_merged :
  PyStr.casefold (remove_spaces "Jane Doe")
  = PyStr.casefold (remove_spaces "Jane Doe ")
  /\ PyStr.casefold (PyStr.strip "Jane Doe")
     = PyStr.casefold (PyStr.strip "Jane Doe ")
  /\ option_map credits_written
       (document
          (_convert_metadata_to_xml sample_synonyms sample_now
             (parser_of fresh_root)
             (md_with_credits [ mkCredit "Jane Doe" "Writer";
                                mkCredit "Jane Doe " "Penciller" ]) []))
     = Some [ ("Credit", Some "Jane Doe", [("Role", Some "Writer")]);
              ("Credit", Some "Jane Doe ", [("Role", Some "Penciller")]) ].
Proof. repeat split; vm_compute; reflexivity. Qed.

(** C6, amended.  For every record whose credits are [Jane Doe] as
    [Writer] and [jane doe] as [Penciller], the encoder leaves exactly one
    [Credit] element under [Credits], whose [Creator] text is [Jane Doe] and
    whose [Roles] child has exactly two [Role] children.  In general the
    [Credit] elements are the entries of the dict [creators] with a
    non-empty name, in order; the dict has one entry for each folded name,
    the name with each space replaced by an underscore and casefolded, and
    that entry carries the name of the first credit of that folded name and
    the roles of all of them. *)
Theorem credits_merged GM now fromstring md xml out :
  snd (_convert_metadata_to_xml GM now fromstring md xml) = OK out ->
  (credits md = [mkCredit "Jane Doe" "Writer"; mkCredit "jane doe" "Penciller"] ->
   credits_written out =
   [ ("Credit", Some "Jane Doe",
      [ ("Role", Some (credit_role GM "Writer"));
        ("Role", Some (credit_role GM "Penciller")) ]) ])
  /\ credits_written out =
     map entry_written (named (collect_creators GM (credits md)))
  /\ NoDup (map fst (collect_creators GM (credits md)))
  /\ (forall c,
         In c (credits md) ->
         exists p,
           first_person (creator_folded (person c)) (credits md) = Some p
           /\ In (creator_folded (person c),
                  (p, roles_for GM (creator_folded (person c)) (credits md)))
                (collect_creators GM (credits md))).
Proof.
  intros Hout.
  pose proof (credits_written_collect GM now fromstring md xml out Hout) as Hw.
  split; [| split; [exact Hw | split]].
  - intros Hc. rewrite Hw, Hc.
    rewrite (collect_two GM "Jane Doe" "Writer" "jane doe" "Penciller" eq_refl).
    reflexivity.
  - apply NoDup_collect. constructor.
  - intros c. apply collect_creators_merges.
Qed.

Lemma credits_merged_witness :
  option_map credits_written
    (document
       (_convert_metadata_to_xml sample_synonyms sample_now
          (parser_of fresh_root)
          (md_with_credits [ mkCredit "Jane Doe" "Writer";
                             mkCredit "jane doe" "Penciller" ]) []))
  = Some [ ("Credit", Some "Jane Doe",
            [("Role", Some "Writer"); ("Role", Some "Penciller")]) ].
Proof.
  destruct (snd (_convert_metadata_to_xml sample_synonyms sample_now
                   (parser_of fresh_root)
                   (md_with_credits [ mkCredit "Jane Doe" "Writer";
                                      mkCredit "jane doe" "Penciller" ]) []))
    as [out | e] eqn:E.
  - unfold document. rewrite E. cbn [option_map].
    rewrite (proj1 (credits_merged sample_synonyms sample_now
                      (parser_of fresh_root) _ [] out E) eq_refl).
    reflexivity.
  - vm_compute in E. discriminate E.
Defined.

(** * Further properties of the code *)

(** ** [write_tags] *)


(** X2.  [write_tags] returns [True] exactly when the archive supports
    files, the existing tags, if any, can be read, the encoder returns a
    document for them and [write_file] returns [True] on its bytes. *)
Theorem write_tags_true_iff GM now fromstring tostring md archive :
  snd (write_tags GM now fromstring tostring md archive) = OK true
  <-> supports_files archive = OK true
      /\ exists xml out,
           existing_xml fromstring archive = OK xml
           /\ snd (_convert_metadata_to_xml GM now fromstring md xml) = OK out
           /\ write_file archive file (tostring out) = OK true.
Proof.
  unfold write_tags, supports_tags, existing_xml, _bytes_from_metadata. split.
  - destruct (supports_files archive) as [[|] | e']; try discriminate.
    destruct (if has_tags fromstring archive then read_file archive file
              else OK []) as [xml | e1]; try discriminate.
    destruct (_convert_metadata_to_xml GM now fromstring md xml)
      as [md' [out | e2]] eqn:E; try discriminate.
    destruct (write_file archive file (tostring out)) as [b | e3] eqn:W;
      try discriminate.
    cbn [snd]. intros H. injection H as ->.
    split; [reflexivity |]. exists xml, out. rewrite E. auto.
  - intros (Hs & xml & out & Hx & Hout & Hw). rewrite Hs, Hx.
    destruct (_convert_metadata_to_xml GM now fromstring md xml) as [md' r].
    cbn [snd] in Hout. subst r. rewrite Hw. reflexivity.
Qed.

(** ** When the encoder raises *)

Lemma ids_trichotomy o ids :
  Forall (other_source o) ids
  \/ (exists pre x post,
         ids = (pre ++ x :: post)%list
         /\ Forall (other_source o) pre
         /\ source_of x = Some (name o))
  \/ (exists pre c post,
         ids = (pre ++ c :: post)%list
         /\ Forall (other_source o) pre
         /\ source_of c = None).
Proof.
  induction ids as [| c ids IH]; [left; constructor |].
  destruct (source_of c) as [s |] eqn:Hs.
  - destruct (String.eqb_spec s (name o)) as [-> | Hne].
    + right. left. exists [], c, ids. repeat split; [constructor | exact Hs].
    + assert (Hc : other_source o c) by (exists s; auto).
      destruct IH as [Hall | [(pre & x & post & -> & Hpre & Hx)
                             | (pre & x & post & -> & Hpre & Hx)]].
      * left. constructor; assumption.
      * right. left. exists (c :: pre), x, post.
        repeat split; [constructor; assumption | exact Hx].
      * right. right. exists (c :: pre), x, post.
        repeat split; [constructor; assumption | exact Hx].
  - right. right. exists [], c, ids. repeat split; [constructor | exact Hs].
Qed.

Lemma truthy_issue_id md :
  truthy (issue_id md) = true -> exists iid, issue_id md = Some iid /\ iid <> "".
Proof.
  destruct (issue_id md) as [[| a s] |]; try discriminate.
  intros _. eexists. split; [reflexivity | discriminate].
Qed.

Lemma ids_block_raises_Raise GM now fromstring md xml :
  truthy (issue_id md) = true ->
  ids_block_raises fromstring md xml ->
  exists e, snd (_convert_metadata_to_xml GM now fromstring md xml) = Raise e.
Proof.
  intros Hi [Ho | (o & root & pre & c & post & Ho & Hne & Hparse & Hids
                   & Hpre & Hc)].
  - assert (Hroot : forall root, exists e,
               snd (encode_root GM now md root) = Raise e).
    { intros root. destruct (handles_ids root) as (c & Hc & _).
      destruct (fill_ids_no_origin md c Hi Ho) as (e & He).
      exists e. apply (encode_root_raise GM now md root c e Hc).
      rewrite fill_ids_encoded. exact He. }
    rewrite convert_encode_root. destruct xml as [| b xml]; [apply Hroot |].
    destruct (fromstring (b :: xml)) as [root | e];
      [apply Hroot | exists e; reflexivity].
  - assert (Hp : parsed fromstring xml root) by (right; auto).
    rewrite (convert_parsed GM now _ md _ _ Hp).
    destruct (handles_ids root) as (ids & Hfind & Hch).
    exists (KeyError "source").
    apply (encode_root_raise GM now md root ids _ Hfind).
    rewrite fill_ids_encoded. unfold fill_ids. rewrite Hi, Hch, Hids.
    rewrite (scan_missing_source md o pre c post Ho Hpre Hc). reflexivity.
Qed.

(** X3.  The encoder raises in two cases only: the existing bytes do not
    parse, or the record has a non-empty issue id and either no data origin
    or the scan of the existing [IDS] children reaches a child without a
    [source] attribute.  In every other case it returns a document. *)
Theorem encoder_raises_iff GM now fromstring md xml :
  (exists e, snd (_convert_metadata_to_xml GM now fromstring md xml) = Raise e)
  <-> (xml <> [] /\ exists e, fromstring xml = Raise e)
      \/ (truthy (issue_id md) = true /\ ids_block_raises fromstring md xml).
Proof.
  split.
  - intros (e & He).
    assert (Hcases : (xml <> [] /\ exists e', fromstring xml = Raise e')
                     \/ exists root, parsed fromstring xml root).
    { destruct xml as [| b xml].
      - right. exists fresh_root. left. auto.
      - destruct (fromstring (b :: xml)) as [root | e'] eqn:Hp.
        + right. exists root. right. split; [discriminate | exact Hp].
        + left. split; [discriminate | eauto]. }
    destruct Hcases as [Hfail | (root & Hp)]; [left; exact Hfail | right].
    destruct (handles_ids root) as (c & Hc & Hch).
    destruct (truthy (issue_id md)) eqn:Hi.
    + split; [reflexivity |].
      destruct (truthy_issue_id md Hi) as (iid & Hiid & Hne).
      destruct (data_origin md) as [o |] eqn:Ho; [| left; exact Ho].
      destruct (ids_trichotomy o (ids_of root))
        as [Hall | [(pre & x & post & Hids & Hpre & Hx)
                   | (pre & x & post & Hids & Hpre & Hx)]].
      * destruct (upsert_append GM now fromstring md xml root o iid
                    Hiid Hne Ho Hp Hall) as (out & Hout & _).
        congruence.
      * destruct (upsert_update GM now fromstring md xml root o iid pre x post
                    Hiid Hne Ho Hp Hids Hpre Hx) as (out & Hout & _).
        congruence.
      * right. exists o, root, pre, x, post.
        destruct Hp as [(-> & ->) | (Hxml & Hparse)].
        { exfalso. destruct pre; discriminate Hids. }
        { repeat split; assumption. }
    + exfalso.
      assert (Hfill : fill_ids md c = OK c)
        by (unfold fill_ids; rewrite Hi; reflexivity).
      destruct (convert_ids GM now fromstring md xml root c c Hp Hc Hfill)
        as (out & Hout & _).
      congruence.
  - intros [(Hne & e & Hparse) | (Hi & Hraises)].
    + exists e. rewrite convert_encode_root.
      destruct xml; [contradiction |]. rewrite Hparse. reflexivity.
    + apply ids_block_raises_Raise; assumption.
Qed.

(** ** What the encoder keeps of the existing document *)

(** X4.  For a record without an issue id the [IDS] element is left as the
    existing document has it: the encoder returns a document whose [IDS]
    children are the existing ones, pretty-printed, with their tags and
    attributes unchanged. *)
Theorem ids_kept_without_issue_id GM now fromstring md xml root :
  truthy (issue_id md) = false ->
  parsed fromstring xml root ->
  exists out,
    snd (_convert_metadata_to_xml GM now fromstring md xml) = OK out
    /\ map content (ids_of out)
       = map (fun c => content (indent_elem 2 c)) (ids_of root)
    /\ map view (ids_of out) = map view (ids_of root).
Proof.
  intros Hi Hp. destruct (handles_ids root) as (c & Hc & Hch).
  assert (Hfill : fill_ids md c = OK c)
    by (unfold fill_ids; rewrite Hi; reflexivity).
  destruct (convert_ids GM now fromstring md xml root c c Hp Hc Hfill)
    as (out & Hout & Hcontent).
  rewrite Hch in Hcontent. exists out. split; [exact Hout |].
  split; [exact Hcontent | apply (map_view_content _ _ Hcontent)].
Qed.

Lemma ids_kept_without_issue_id_witness :
  exists out,
    snd (_convert_metadata_to_xml sample_synonyms sample_now
           (parser_of (doc_with_ids [id_element (Some "Metron") "1"]))
           (md_with_year 5) sample_xml) = OK out
    /\ map view (ids_of out) = [("ID", [("source", "Metron")])].
Proof.
  assert (Hi : truthy (issue_id (md_with_year 5)) = false) by reflexivity.
  assert (Hp : parsed (parser_of (doc_with_ids [id_element (Some "Metron") "1"]))
                 sample_xml (doc_with_ids [id_element (Some "Metron") "1"]))
    by (right; split; [discriminate | reflexivity]).
  destruct (ids_kept_without_issue_id sample_synonyms sample_now _ _ _ _ Hi Hp)
    as (out & Hout & _ & Hview).
  exists out. split; [exact Hout |]. rewrite Hview. reflexivity.
Defined.

Lemma find_in_mem t cs :
  find_in t cs = None <-> PyStr.mem t (map tag cs) = false.
Proof.
  induction cs as [| c cs IH]; simpl; [tauto |].
  rewrite (String.eqb_sym t (tag c)).
  destruct (String.eqb (tag c) t); simpl; [split; discriminate | exact IH].
Qed.

Lemma children_ensure t r :
  children (ensure t r) =
  (children r
     ++ if PyStr.mem t (map tag (children r)) then [] else [ET.new t])%list.
Proof.
  unfold ensure, find. destruct (find_in t (children r)) as [c |] eqn:E.
  - destruct (PyStr.mem t (map tag (children r))) eqn:M.
    + rewrite app_nil_r. reflexivity.
    + apply find_in_mem in M. congruence.
  - apply find_in_mem in E. rewrite E. reflexivity.
Qed.

Lemma root_ensure t r : tag (ensure t r) = tag r /\ attrib (ensure t r) = attrib r.
Proof. unfold ensure. destruct (find t r); split; reflexivity. Qed.

Lemma mem_app x l l' : PyStr.mem x (l ++ l') = PyStr.mem x l || PyStr.mem x l'.
Proof. unfold PyStr.mem. apply existsb_app. Qed.

Lemma map_tag_ensure_all tags r :
  NoDup tags ->
  map tag (children (fold_left (fun r t => ensure t r) tags r)) =
  (map tag (children r)
     ++ filter (fun t => negb (PyStr.mem t (map tag (children r)))) tags)%list.
Proof.
  intros Hnd. revert r. induction Hnd as [| t tags Hnotin _ IH]; intros r.
  - simpl. rewrite app_nil_r. reflexivity.
  - cbn [fold_left filter]. rewrite IH, children_ensure.
    destruct (PyStr.mem t (map tag (children r))) eqn:M; cbn [negb].
    + rewrite app_nil_r. reflexivity.
    + rewrite map_app, <- app_assoc. cbn [map app tag ET.new]. f_equal. f_equal.
      apply filter_ext_in. intros t' Hin. rewrite mem_app. cbn.
      rewrite orb_false_r.
      destruct (String.eqb_spec t' t) as [-> | _]; [contradiction |].
      rewrite orb_false_r. reflexivity.
Qed.

Lemma root_ensure_all tags r :
  tag (fold_left (fun r t => ensure t r) tags r) = tag r
  /\ attrib (fold_left (fun r t => ensure t r) tags r) = attrib r.
Proof.
  revert r. induction tags as [| t tags IH]; intros r; [split; reflexivity |].
  cbn [fold_left]. destruct (IH (ensure t r)) as (-> & ->). apply root_ensure.
Qed.

Lemma NoDup_top_level_tags : NoDup top_level_tags.
Proof.
  assert (H : nodup string_dec top_level_tags = top_level_tags)
    by (vm_compute; reflexivity).
  rewrite <- H. apply NoDup_nodup.
Qed.

Lemma map_tag_update_in t f cs :
  (forall c, tag (f c) = tag c) -> map tag (update_in t f cs) = map tag cs.
Proof.
  intros Hf. induction cs as [| c cs IH]; [reflexivity |].
  simpl. destruct (String.eqb (tag c) t); simpl; [rewrite Hf | rewrite IH];
    reflexivity.
Qed.

Lemma map_tag_run_steps steps r :
  tag_preserving steps ->
  map tag (children (run_steps steps r)) = map tag (children r)
  /\ tag (run_steps steps r) = tag r
  /\ attrib (run_steps steps r) = attrib r.
Proof.
  intros H. revert r. induction H as [| [t f] steps Hf _ IH]; intros r.
  - repeat split.
  - unfold run_steps in *. cbn [fold_left fst snd].
    destruct (IH (with_child t f r)) as (-> & -> & ->).
    unfold with_child. cbn [children set_children tag attrib].
    rewrite (map_tag_update_in t f _ Hf). repeat split.
Qed.

Lemma map_tag_update_in_result t f cs cs' :
  (forall c c', f c = OK c' -> tag c' = tag c) ->
  update_in_result t f cs = OK cs' -> map tag cs' = map tag cs.
Proof.
  intros Hf. revert cs'. induction cs as [| c cs IH]; intros cs' H.
  - injection H as <-. reflexivity.
  - simpl in H. destruct (String.eqb (tag c) t).
    + apply result_bind_OK in H. destruct H as (c' & Hc & H). injection H as <-.
      simpl. rewrite (Hf _ _ Hc). reflexivity.
    + apply result_bind_OK in H. destruct H as (cs'' & Hcs & H). injection H as <-.
      simpl. rewrite (IH _ Hcs). reflexivity.
Qed.

Lemma map_tag_with_child_result t f r r' :
  (forall c c', f c = OK c' -> tag c' = tag c) ->
  with_child_result t f r = OK r' ->
  map tag (children r') = map tag (children r)
  /\ tag r' = tag r /\ attrib r' = attrib r.
Proof.
  intros Hf H. unfold with_child_result in H. apply result_bind_OK in H.
  destruct H as (cs & Hcs & H). injection H as <-.
  cbn [children set_children tag attrib].
  rewrite (map_tag_update_in_result _ _ _ _ Hf Hcs). repeat split.
Qed.

Lemma map_tag_content l l' :
  map content l = map (fun c => content (indent_elem 1 c)) l' ->
  map tag l = map tag l'.
Proof.
  intros H.
  assert (Hv : map tag l = map (fun x => fst (fst (fst x))) (map content l))
    by (rewrite map_map; reflexivity).
  rewrite Hv, H, map_map. apply map_ext. intros c. cbn [content fst].
  apply tag_indent_elem.
Qed.

Lemma indent_indent_elem r : indent r = indent_elem 0 r.
Proof. unfold indent, indent_elem, is_leaf. destruct (children r); reflexivity. Qed.

(** The document the encoder returns, from the root it starts from. *)
Lemma encode_root_out GM now md root out :
  snd (encode_root GM now md root) = OK out ->
  exists r,
    with_child_result "IDS" (fill_ids (encoded_md md))
      (run_steps (steps_before_ids GM md) (handles root)) = OK r
    /\ out = indent (run_steps (steps_after_ids now md) r).
Proof.
  rewrite encode_root_eq.
  destruct (with_child_result "IDS" _ _) as [r | e]; intros H;
    [| discriminate H].
  exists r. split; [reflexivity |]. unfold snd in H. congruence.
Qed.

Lemma root_handles root :
  tag (handles root) = tag root /\ attrib (handles root) = attrib root.
Proof. apply root_ensure_all. Qed.

Lemma map_tag_handles root :
  map tag (children (handles root)) =
  (map tag (children root)
     ++ filter (fun t => negb (PyStr.mem t (map tag (children root))))
          top_level_tags)%list.
Proof. apply map_tag_ensure_all, NoDup_top_level_tags. Qed.

(** X5.  The encoder never removes, renames or reorders a child of the
    root: the root keeps its tag and attributes, and its children carry the
    tags of the existing children, in order, followed by those of the fixed
    top-level elements the existing document lacked, in the order of their
    creation. *)
Theorem root_children_kept GM now fromstring md xml root out :
  parsed fromstring xml root ->
  snd (_convert_metadata_to_xml GM now fromstring md xml) = OK out ->
  tag out = tag root
  /\ attrib out = attrib root
  /\ map tag (children out) =
     (map tag (children root)
        ++ filter (fun t => negb (PyStr.mem t (map tag (children root))))
             top_level_tags)%list.
Proof.
  intros Hp Hout. rewrite (convert_parsed GM now _ md _ _ Hp) in Hout.
  destruct (encode_root_out _ _ _ _ _ Hout) as (r & Hr & ->).
  destruct (map_tag_with_child_result _ _ _ _ (tag_fill_ids (encoded_md md)) Hr)
    as (Hc1 & Ht1 & Ha1).
  destruct (map_tag_run_steps _ (handles root) (tag_preserving_before GM md))
    as (Hc0 & Ht0 & Ha0).
  destruct (map_tag_run_steps _ r (tag_preserving_after now md))
    as (Hc2 & Ht2 & Ha2).
  destruct (root_handles root) as (Hth & Hah).
  rewrite indent_indent_elem, tag_indent_elem, attrib_indent_elem.
  split; [rewrite Ht2, Ht1, Ht0; exact Hth |].
  split; [rewrite Ha2, Ha1, Ha0; exact Hah |].
  rewrite (map_tag_content _ (children (run_steps (steps_after_ids now md) r)))
    by apply children_indent_elem.
  rewrite Hc2, Hc1, Hc0. apply map_tag_handles.
Qed.

Lemma root_children_kept_witness :
  map tag (children out_year_5_stale) =
  [ "Genres"; "IDS"; "Number"; "Series"; "Stories"; "CollectionTitle";
    "Summary"; "Notes"; "Prices"; "GTIN"; "AgeRating"; "Tags"; "Arcs";
    "Characters"; "Teams"; "Locations"; "Publisher"; "CoverDate"; "URLs";
    "Credits"; "LastModified" ].
Proof.
  assert (H : snd (_convert_metadata_to_xml sample_synonyms sample_now
                     (parser_of stale_doc) (md_with_year 5) sample_xml)
              = OK out_year_5_stale)
    by (vm_compute; reflexivity).
  assert (Hp : parsed (parser_of stale_doc) sample_xml stale_doc)
    by (right; split; [discriminate | reflexivity]).
  rewrite (proj2 (proj2 (root_children_kept sample_synonyms sample_now
                           (parser_of stale_doc) (md_with_year 5) sample_xml
                           stale_doc out_year_5_stale Hp H))).
  reflexivity.
Defined.

Lemma nth_error_update_in_other t f cs i c :
  nth_error cs i = Some c -> String.eqb (tag c) t = false ->
  nth_error (update_in t f cs) i = Some c.
Proof.
  revert i. induction cs as [| c0 cs IH]; intros [| i] H Ht; try discriminate.
  - simpl in H. injection H as ->. simpl. rewrite Ht. reflexivity.
  - simpl in *. destruct (String.eqb (tag c0) t); simpl; [exact H | auto].
Qed.

Lemma nth_error_update_in_result_other t f cs cs' i c :
  update_in_result t f cs = OK cs' ->
  nth_error cs i = Some c -> String.eqb (tag c) t = false ->
  nth_error cs' i = Some c.
Proof.
  revert cs' i. induction cs as [| c0 cs IH]; intros cs' [| i] Hup H Ht;
    try discriminate.
  - simpl in H. injection H as ->. simpl in Hup. rewrite Ht in Hup.
    apply result_bind_OK in Hup. destruct Hup as (cs'' & _ & Hup).
    injection Hup as <-. reflexivity.
  - simpl in *. destruct (String.eqb (tag c0) t).
    + apply result_bind_OK in Hup. destruct Hup as (c' & _ & Hup).
      injection Hup as <-. exact H.
    + apply result_bind_OK in Hup. destruct Hup as (cs'' & Hcs & Hup).
      injection Hup as <-. simpl. eapply IH; eassumption.
Qed.

Lemma nth_error_run_steps steps r i c :
  nth_error (children r) i = Some c ->
  ~ In (tag c) (map fst steps) ->
  nth_error (children (run_steps steps r)) i = Some c.
Proof.
  revert r. induction steps as [| [t f] steps IH]; intros r H Hnotin;
    [exact H |].
  unfold run_steps in *. cbn [fold_left fst snd]. apply IH.
  - unfold with_child. cbn [children set_children].
    apply nth_error_update_in_other; [exact H |].
    destruct (String.eqb_spec (tag c) t) as [E | _]; [| reflexivity].
    exfalso. apply Hnotin. left. symmetry. exact E.
  - intros Hin. apply Hnotin. right. exact Hin.
Qed.

Lemma nth_error_handles root i c :
  nth_error (children root) i = Some c ->
  nth_error (children (handles root)) i = Some c.
Proof.
  unfold handles. generalize top_level_tags. intros tags. revert root.
  induction tags as [| t tags IH]; intros root H; [exact H |].
  cbn [fold_left]. apply IH. rewrite children_ensure.
  rewrite nth_error_app1; [exact H |]. apply nth_error_Some. congruence.
Qed.

Lemma nth_error_map_content (l l' : list Element) (g : Element -> Element) i c :
  map content l = map (fun x => content (g x)) l' ->
  nth_error l' i = Some c ->
  exists c', nth_error l i = Some c' /\ content c' = content (g c).
Proof.
  intros H Hc.
  pose proof (f_equal (fun m => nth_error m i) H) as Hn. cbn beta in Hn.
  rewrite !nth_error_map, Hc in Hn. cbn [option_map] in Hn.
  destruct (nth_error l i) as [c' |]; [| discriminate].
  exists c'. split; [reflexivity |]. cbn [option_map] in Hn. congruence.
Qed.

Lemma foreign_not_before GM md t :
  ~ In t top_level_tags -> ~ In t (map fst (steps_before_ids GM md)).
Proof.
  intros Hforeign Hin. apply Hforeign, filled_tags_top_level.
  rewrite <- (keys_of_steps GM "" md), map_app. apply in_or_app. left. exact Hin.
Qed.

Lemma foreign_not_after now md t :
  ~ In t top_level_tags -> ~ In t (map fst (steps_after_ids now md)).
Proof.
  intros Hforeign Hin. apply Hforeign, filled_tags_top_level.
  rewrite <- (keys_of_steps sample_synonyms now md), map_app.
  apply in_or_app. right. exact Hin.
Qed.

Lemma foreign_not_IDS t : ~ In t top_level_tags -> String.eqb t "IDS" = false.
Proof.
  intros Hforeign. destruct (String.eqb_spec t "IDS") as [E | _]; [| reflexivity].
  exfalso. apply Hforeign. rewrite E. apply top_level_IDS.
Qed.

Lemma nth_error_with_child_result_other t f r r' i c :
  with_child_result t f r = OK r' ->
  nth_error (children r) i = Some c -> String.eqb (tag c) t = false ->
  nth_error (children r') i = Some c.
Proof.
  intros Hr H Ht. unfold with_child_result in Hr. apply result_bind_OK in Hr.
  destruct Hr as (cs & Hcs & Hr). injection Hr as <-.
  cbn [children set_children].
  eapply nth_error_update_in_result_other; eassumption.
Qed.

(** X6.  A child of the root whose tag is not one of the fixed top-level
    names is carried over: the document returned has it at the same
    position, pretty-printed and otherwise unchanged. *)
Theorem foreign_children_kept GM now fromstring md xml root out i c :
  parsed fromstring xml root ->
  snd (_convert_metadata_to_xml GM now fromstring md xml) = OK out ->
  nth_error (children root) i = Some c ->
  ~ In (tag c) top_level_tags ->
  exists c',
    nth_error (children out) i = Some c'
    /\ content c' = content (indent_elem 1 c).
Proof.
  intros Hp Hout Hc Hforeign.
  rewrite (convert_parsed GM now _ md _ _ Hp) in Hout.
  destruct (encode_root_out _ _ _ _ _ Hout) as (r & Hr & ->).
  pose proof (nth_error_run_steps _ _ _ _ (nth_error_handles _ _ _ Hc)
                (foreign_not_before GM md _ Hforeign)) as H0.
  pose proof (nth_error_with_child_result_other _ _ _ _ _ _ Hr H0
                (foreign_not_IDS _ Hforeign)) as H1.
  pose proof (nth_error_run_steps _ _ _ _ H1
                (foreign_not_after now md _ Hforeign)) as H2.
  rewrite indent_indent_elem.
  exact (nth_error_map_content _ _ (indent_elem 1) _ _
           (children_indent_elem 0 _) H2).
Qed.

Lemma foreign_children_kept_witness :
  exists c',
    nth_error (children out_year_5_foreign) 0 = Some c'
    /\ content c' = ("MangaVolume", [], Some "3", []).
Proof.
  assert (H : snd (_convert_metadata_to_xml sample_synonyms sample_now
                     (parser_of foreign_doc) (md_with_year 5) sample_xml)
              = OK out_year_5_foreign)
    by (vm_compute; reflexivity).
  assert (Hp : parsed (parser_of foreign_doc) sample_xml foreign_doc)
    by (right; split; [discriminate | reflexivity]).
  assert (Hf : ~ In "MangaVolume" top_level_tags).
  { intros Hin. apply mem_In in Hin. vm_compute in Hin. discriminate Hin. }
  exact (foreign_children_kept sample_synonyms sample_now (parser_of foreign_doc)
           (md_with_year 5) sample_xml foreign_doc out_year_5_foreign 0
           (mkElement "MangaVolume" [] (Some "3") None []) Hp H eq_refl Hf).
Defined.

(** ** Texts and lists written by the encoder *)

Lemma children_fill_list sub items e :
  children (fill_list sub items e) = map (fun i => new_element sub i []) items.
Proof.
  unfold fill_list.
  rewrite (children_fold_append _ (fun i => new_element sub i [])).
  reflexivity.
Qed.

Lemma view_new_element sub i :
  is_leaf (new_element sub i []) = true
  /\ tag (new_element sub i []) = sub
  /\ text (new_element sub i []) = text_opt i.
Proof.
  unfold new_element, text_opt. destruct (PyStr.nonempty i); repeat split.
Qed.

(** The children of a cleared element read in the document as the encoder
    appended them, when they are leaves. *)
Lemma cleared_children_view GM now fromstring md xml out t f :
  snd (_convert_metadata_to_xml GM now fromstring md xml) = OK out ->
  filler GM now md t = Some f ->
  t <> "LastModified" ->
  Forall (fun c => is_leaf c = true) (children (f (ET.new t))) ->
  children_view t out = map (fun c => (tag c, text c)) (children (f (ET.new t))).
Proof.
  intros Hout Hf Ht Hleaves.
  pose proof (convert_cleared _ _ _ _ _ _ _ _ Hout Hf Ht) as H.
  apply find_content_Some in H. destruct H as (e' & He' & Hc).
  unfold children_view. rewrite He', (content_children _ _ Hc).
  rewrite (map_factor _ (fun x => (tag x, text x)) _
             (map (indent_elem 2) (children (f (ET.new t))))).
  - rewrite map_map. apply map_ext_in. intros c Hin.
    rewrite Forall_forall in Hleaves. specialize (Hleaves c Hin).
    rewrite tag_indent_elem, text_indent_elem, Hleaves. reflexivity.
  - intros e1 e2 H12. rewrite (content_tag _ _ H12), (content_text _ _ H12).
    reflexivity.
  - rewrite children_indent_elem, map_map. reflexivity.
Qed.


Lemma format_series_md md : format (series_md md) = encoded_format md.
Proof.
  unfold series_md, encoded_format.
  destruct (truthy (series md) && truthy (format md)); reflexivity.
Qed.

Lemma title_series_md md : title (series_md md) = title md.
Proof. unfold series_md. destruct (truthy (series md) && truthy (format md)); reflexivity. Qed.

Lemma is_trade_paperback_series_md md :
  is_trade_paperback (series_md md) = encoded_trade_paperback md.
Proof.
  unfold is_trade_paperback, encoded_trade_paperback.
  rewrite format_series_md. reflexivity.
Qed.

Lemma fill_stories_list md e :
  fill_stories md e =
  if truthy (title md) && negb (is_trade_paperback md)
  then fill_list "Story"
         (map PyStr.strip (PyStr.split ";" (text_of (title md)))) e
  else clear e.
Proof.
  unfold fill_stories, fill_list.
  destruct (truthy (title md) && negb (is_trade_paperback md)); [| reflexivity].
  generalize (clear e). generalize (PyStr.split ";" (text_of (title md))).
  intros l. induction l as [| t l IH]; intros e0; [reflexivity |].
  cbn [fold_left map]. apply IH.
Qed.

(** X7.  A non-empty title is written to exactly one place: to
    [CollectionTitle] when the format the encoder leaves in the record is
    [Trade Paperback], and otherwise to [Stories], one [Story] for each
    segment between semicolons, stripped of surrounding whitespace (an
    empty segment gives a [Story] without text).  The other of the two
    elements is left empty, and both are when the title is empty. *)
Theorem title_placement GM now fromstring md xml out :
  snd (_convert_metadata_to_xml GM now fromstring md xml) = OK out ->
  child_text "CollectionTitle" out =
    (if truthy (title md) && encoded_trade_paperback md
     then title md else None)
  /\ children_view "Stories" out =
     (if truthy (title md) && negb (encoded_trade_paperback md)
      then map (fun seg => ("Story", text_opt (PyStr.strip seg)))
             (PyStr.split ";" (text_of (title md)))
      else []).
Proof.
  intros Hout. split.
  - assert (Hf : filler GM now md "CollectionTitle"
                 = Some (fill_title (series_md md))) by reflexivity.
    pose proof (convert_cleared _ _ _ _ _ _ _ _ Hout Hf ltac:(discriminate)) as H.
    eapply child_text_content; [exact H |].
    unfold fill_title.
    rewrite title_series_md, is_trade_paperback_series_md.
    destruct (truthy (title md) && encoded_trade_paperback md); reflexivity.
  - assert (Hf : filler GM now md "Stories"
                 = Some (fill_stories (series_md md))) by reflexivity.
    assert (Hleaves : Forall (fun c => is_leaf c = true)
                        (children (fill_stories (series_md md) (ET.new "Stories")))).
    { rewrite fill_stories_list.
      destruct (truthy (title (series_md md))
                && negb (is_trade_paperback (series_md md))); [| constructor].
      rewrite children_fill_list. apply Forall_forall. intros c Hin.
      apply in_map_iff in Hin. destruct Hin as (i & <- & _).
      apply view_new_element. }
    rewrite (cleared_children_view _ _ _ _ _ _ _ _ Hout Hf ltac:(discriminate)
               Hleaves).
    rewrite fill_stories_list, title_series_md, is_trade_paperback_series_md.
    destruct (truthy (title md) && negb (encoded_trade_paperback md));
      [| reflexivity].
    rewrite children_fill_list, !map_map. apply map_ext. intros seg.
    destruct (view_new_element "Story" (PyStr.strip seg)) as (_ & -> & ->).
    reflexivity.
Qed.

Lemma genres_before md : genres (manga_md (series_md md)) = encoded_genres md.
Proof.
  unfold manga_md, series_md, encoded_genres.
  destruct (truthy (series md) && truthy (format md)); cbn [manga set_format];
    destruct (manga md) as [m |]; try reflexivity;
    destruct (PyStr.startswith "yes" (PyStr.casefold m)); reflexivity.
Qed.

Lemma mem_set_add x s : PyStr.mem x (set_add x s) = true.
Proof.
  unfold set_add. destruct (PyStr.mem x s) eqn:E; [exact E |].
  rewrite mem_app. cbn. rewrite String.eqb_refl, orb_true_r. reflexivity.
Qed.

Lemma title_placement_witness :
  option_map (children_view "Stories")
    (document (_convert_metadata_to_xml sample_synonyms sample_now
                 (parser_of fresh_root) (md_with_title "One; Two;") []))
    = Some [ ("Story", Some "One"); ("Story", Some "Two"); ("Story", None) ]
  /\ option_map (child_text "CollectionTitle")
       (document (_convert_metadata_to_xml sample_synonyms sample_now
                    (parser_of fresh_root)
                    (md_with_format_title "Saga" "tpb" "Book One") []))
     = Some (Some "Book One").
Proof.
  split.
  - destruct (snd (_convert_metadata_to_xml sample_synonyms sample_now
                     (parser_of fresh_root) (md_with_title "One; Two;") []))
      as [out | e] eqn:E.
    + unfold document. rewrite E. cbn [option_map].
      rewrite (proj2 (title_placement sample_synonyms sample_now
                        (parser_of fresh_root) _ [] out E)).
      reflexivity.
    + vm_compute in E. discriminate E.
  - destruct (snd (_convert_metadata_to_xml sample_synonyms sample_now
                     (parser_of fresh_root)
                     (md_with_format_title "Saga" "tpb" "Book One") []))
      as [out | e] eqn:E.
    + unfold document. rewrite E. cbn [option_map].
      rewrite (proj1 (title_placement sample_synonyms sample_now
                        (parser_of fresh_root) _ [] out E)).
      reflexivity.
    + vm_compute in E. discriminate E.
Defined.


(** ** Normalization *)

Lemma dict_get_default_In k d default :
  In (dict_get_default k d default) (default :: map snd d).
Proof.
  unfold dict_get_default. induction d as [| [k' v] d IH]; simpl; [auto |].
  destruct (String.eqb k' k); [auto |].
  destruct IH as [IH | IH]; auto.
Qed.

Lemma normalize_format_name f : In (normalize_format f) format_names.
Proof.
  unfold normalize_format.
  match goal with
  | |- In (dict_get_default ?k _ _) _ =>
      pose proof (dict_get_default_In k format_dict "Single Issue") as H;
      generalize dependent (dict_get_default k format_dict "Single Issue")
  end.
  intros s H. cbn in H.
  repeat match type of H with
         | _ \/ _ => destruct H as [<- | H]
         end; try contradiction; cbn; auto 12.
Qed.

Lemma normalize_maturity_name r : In (normalize_maturity r) rating_names.
Proof.
  unfold normalize_maturity.
  match goal with
  | |- In (dict_get_default ?k _ _) _ =>
      pose proof (dict_get_default_In k mature_dict "Unknown") as H;
      generalize dependent (dict_get_default k mature_dict "Unknown")
  end.
  intros s H. cbn in H.
  repeat match type of H with
         | _ \/ _ => destruct H as [<- | H]
         end; try contradiction; cbn; auto 12.
Qed.


(** X9.  Whatever the record holds as format and maturity rating, what
    the encoder writes is a name of the schema: the [Format] child of
    [Series] is one of the nine format names and the text of [AgeRating]
    one of the seven rating names. *)
Theorem written_names_canonical GM now fromstring md xml out :
  snd (_convert_metadata_to_xml GM now fromstring md xml) = OK out ->
  (truthy (series md) = true -> truthy (format md) = true ->
   exists se name,
     find "Series" out = Some se
     /\ child_text "Format" se = Some name
     /\ In name format_names)
  /\ (truthy (maturity_rating md) = true ->
      exists name,
        child_text "AgeRating" out = Some name /\ In name rating_names).
Proof.
  intros Hout. split.
  - intros Hs Hf.
    destruct (series_format_written GM now fromstring md xml out Hout Hs Hf)
      as (se & Hse & Htext).
    exists se, (normalize_format (text_of (format md))).
    split; [exact Hse |]. split; [exact Htext | apply normalize_format_name].
  - intros Hr. exists (normalize_maturity (text_of (maturity_rating md))).
    split; [| apply normalize_maturity_name].
    apply (age_rating_written GM now fromstring md xml out Hout Hr).
Qed.

Lemma written_names_canonical_witness :
  exists se name,
    find "Series"
      (match document (_convert_metadata_to_xml sample_synonyms sample_now
                         (parser_of fresh_root)
                         (md_with_format "Saga" "floppy") [])
       with Some out => out | None => ET.new "" end) = Some se
    /\ child_text "Format" se = Some name
    /\ In name format_names.
Proof.
  destruct (snd (_convert_metadata_to_xml sample_synonyms sample_now
                   (parser_of fresh_root) (md_with_format "Saga" "floppy") []))
    as [out | e] eqn:E.
  - unfold document. rewrite E.
    exact (proj1 (written_names_canonical sample_synonyms sample_now
                    (parser_of fresh_root) (md_with_format "Saga" "floppy") []
                    out E) eq_refl eq_refl).
  - vm_compute in E. discriminate E.
Defined.

Lemma normalize_format_fixed name :
  In name format_names -> normalize_format name = name.
Proof.
  intros H. cbn in H.
  repeat match type of H with
         | _ \/ _ => destruct H as [<- | H]
         end; try contradiction; reflexivity.
Qed.

Lemma normalize_maturity_fixed name :
  In name rating_names -> normalize_maturity name = name.
Proof.
  intros H. cbn in H.
  repeat match type of H with
         | _ \/ _ => destruct H as [<- | H]
         end; try contradiction; reflexivity.
Qed.

Lemma set_add_twice x s : set_add x (set_add x s) = set_add x s.
Proof. unfold set_add at 1. rewrite mem_set_add. reflexivity. Qed.

Lemma encoded_md_idempotent md : encoded_md (encoded_md md) = encoded_md md.
Proof.
  rewrite (encoded_md_fields (encoded_md md)).
  assert (Hf : encoded_format (encoded_md md) = format (encoded_md md)).
  { rewrite (encoded_md_fields md). unfold encoded_format.
    cbn [series format set_maturity_rating set_genres set_format].
    destruct (truthy (series md) && truthy (format md)) eqn:E.
    - apply andb_prop in E. destruct E as (Hs & _). rewrite Hs.
      cbn [text_of truthy]. rewrite normalize_format_nonempty. cbn [andb].
      rewrite normalize_format_fixed by apply normalize_format_name.
      reflexivity.
    - rewrite E. reflexivity. }
  assert (Hg : encoded_genres (encoded_md md) = genres (encoded_md md)).
  { rewrite (encoded_md_fields md). unfold encoded_genres.
    cbn [manga genres set_maturity_rating set_genres set_format].
    destruct (manga md) as [m |]; [| reflexivity].
    destruct (PyStr.startswith "yes" (PyStr.casefold m)); [| reflexivity].
    apply set_add_twice. }
  assert (Hm : encoded_maturity_rating (encoded_md md)
               = maturity_rating (encoded_md md)).
  { rewrite (encoded_md_fields md). unfold encoded_maturity_rating.
    cbn [maturity_rating set_maturity_rating].
    destruct (truthy (maturity_rating md)) eqn:E; [| rewrite E; reflexivity].
    cbn [text_of truthy].
    destruct (PyStr.nonempty (normalize_maturity (text_of (maturity_rating md))));
      [| reflexivity].
    rewrite normalize_maturity_fixed by apply normalize_maturity_name.
    reflexivity. }
  rewrite Hf, Hg, Hm. apply setters_fixpoint. auto.
Qed.

(** X10.  Encoding mutates the record once: a record the encoder has left
    comes back from a further encode as it went in, whatever the documents
    of the two encodes, provided their bytes are empty or parse. *)
Theorem encoded_record_stable GM now fromstring md xml root xml' root' :
  parsed fromstring xml root ->
  parsed fromstring xml' root' ->
  fst (_convert_metadata_to_xml GM now fromstring
         (fst (_convert_metadata_to_xml GM now fromstring md xml)) xml')
  = fst (_convert_metadata_to_xml GM now fromstring md xml).
Proof.
  intros Hp Hp'.
  rewrite (convert_parsed GM now _ md _ _ Hp), fst_encode_root.
  rewrite (convert_parsed GM now _ _ _ _ Hp'), fst_encode_root.
  apply encoded_md_idempotent.
Qed.

Lemma encoded_record_stable_witness :
  format
    (fst (_convert_metadata_to_xml sample_synonyms sample_now
            (parser_of fresh_root)
            (fst (_convert_metadata_to_xml sample_synonyms sample_now
                    (parser_of fresh_root) (md_with_format "Saga" "TPB") []))
            []))
  = Some "Trade Paperback".
Proof.
  rewrite (encoded_record_stable sample_synonyms sample_now (parser_of fresh_root)
             (md_with_format "Saga" "TPB") [] fresh_root [] fresh_root
             (or_introl (conj eq_refl eq_refl))
             (or_introl (conj eq_refl eq_refl))).
  vm_compute. reflexivity.
Defined.

(** ** Credit roles *)

(** X11.  A role the format does not support ([supports_credit_role] is
    false) is written as [Other], whatever the synonym tables. *)
Theorem unsupported_role_written_Other GM role :
  supports_credit_role GM role = false -> credit_role GM role = "Other".
Proof.
  unfold supports_credit_role, _get_parseable_credits, credit_role.
  rewrite !mem_app. intros H.
  repeat match type of H with
         | _ || _ = false => apply orb_false_elim in H; destruct H as [?H H]
         end.
  repeat match goal with
         | Hf : ?b = false |- context [if ?b then _ else _] => rewrite Hf
         end.
  reflexivity.
Qed.

Lemma unsupported_role_written_Other_witness :
  credit_role sample_synonyms "Cat herder" = "Other".
Proof.
  apply (unsupported_role_written_Other sample_synonyms "Cat herder").
  vm_compute. reflexivity.
Defined.

Lemma content_attrib' e e' : content e = content e' -> attrib e = attrib e'.
Proof. unfold content. congruence. Qed.

(** ** [LastModified] *)

Lemma find_handles_existing t root e :
  find t root = Some e -> find t (handles root) = Some e.
Proof.
  intros H. unfold handles. rewrite find_ensure_all, H. reflexivity.
Qed.

Lemma top_level_LastModified : In "LastModified" top_level_tags.
Proof. apply mem_In. vm_compute. reflexivity. Qed.

(** X12.  Every encode writes the reading of the clock as the text of
    [LastModified], provided that reading is not blank, and keeps the
    attributes the existing element had. *)
Theorem last_modified_written GM now fromstring md xml root out :
  ET.blank (Some now) = false ->
  parsed fromstring xml root ->
  snd (_convert_metadata_to_xml GM now fromstring md xml) = OK out ->
  child_text "LastModified" out = Some now
  /\ option_map attrib (find "LastModified" out)
     = Some (match find "LastModified" root with
             | Some e => attrib e
             | None => []
             end).
Proof.
  intros Hnow Hp Hout. rewrite (convert_parsed GM now _ md _ _ Hp) in Hout.
  assert (Hf : filler GM now md "LastModified" = Some (fill_modified now))
    by reflexivity.
  pose proof (encode_root_find _ _ _ _ _ _ _ Hout Hf) as H.
  destruct (find_handles "LastModified" root top_level_LastModified)
    as (c & Hc & _ & Hnew).
  rewrite Hc in H. cbn [option_map] in H.
  apply find_content_Some in H. destruct H as (e' & He' & Hcontent).
  split.
  - unfold child_text. rewrite He', (content_text _ _ Hcontent).
    rewrite text_indent_elem. cbn [text fill_modified set_text].
    rewrite Hnow. destruct (is_leaf _); reflexivity.
  - rewrite He'. cbn [option_map]. rewrite (content_attrib' _ _ Hcontent).
    rewrite attrib_indent_elem. cbn [attrib fill_modified set_text].
    destruct (find "LastModified" root) as [e |] eqn:E.
    + rewrite (find_handles_existing _ _ _ E) in Hc. congruence.
    + rewrite (Hnew eq_refl). reflexivity.
Qed.

Lemma last_modified_written_witness :
  child_text "LastModified" out_year_5 = Some sample_now.
Proof.
  assert (H : snd (_convert_metadata_to_xml sample_synonyms sample_now
                     (parser_of fresh_root) (md_with_year 5) []) = OK out_year_5)
    by (vm_compute; reflexivity).
  exact (proj1 (last_modified_written sample_synonyms sample_now
                  (parser_of fresh_root) (md_with_year 5) [] fresh_root
                  out_year_5 eq_refl (or_introl (conj eq_refl eq_refl)) H)).
Defined.

(** ** Groups that need a name *)

Lemma publisher_encoded md : publisher (encoded_md md) = publisher md.
Proof. md_field. Qed.

(** X13.  [Series] and [Publisher] are written only under a name: when the
    series is empty the [Series] element is left without attributes, text
    and children, whatever series id, volume, format, counts and aliases
    the record has, and the record keeps its format as it was; when the
    publisher is empty the [Publisher] element is left empty, whatever the
    imprint. *)
Theorem unnamed_groups_empty GM now fromstring md xml out :
  snd (_convert_metadata_to_xml GM now fromstring md xml) = OK out ->
  (truthy (series md) = false ->
   option_map content (find "Series" out) = Some ("Series", [], None, [])
   /\ encoded_format md = format md)
  /\ (truthy (publisher md) = false ->
      option_map content (find "Publisher" out)
      = Some ("Publisher", [], None, [])).
Proof.
  intros Hout. split.
  - intros Hs. split.
    + assert (Hf : filler GM now md "Series" = Some (fill_series md))
        by reflexivity.
      rewrite (convert_cleared _ _ _ _ _ _ _ _ Hout Hf ltac:(discriminate)).
      unfold fill_series. rewrite Hs. reflexivity.
    + unfold encoded_format. rewrite Hs. reflexivity.
  - intros Hpub.
    assert (Hf : filler GM now md "Publisher"
                 = Some (fill_publisher (encoded_md md))) by reflexivity.
    rewrite (convert_cleared _ _ _ _ _ _ _ _ Hout Hf ltac:(discriminate)).
    unfold fill_publisher. rewrite publisher_encoded, Hpub. reflexivity.
Qed.

Lemma unnamed_groups_empty_witness :
  option_map content (find "Series" out_year_5) = Some ("Series", [], None, []).
Proof.
  assert (H : snd (_convert_metadata_to_xml sample_synonyms sample_now
                     (parser_of fresh_root) (md_with_year 5) []) = OK out_year_5)
    by (vm_compute; reflexivity).
  exact (proj1 (proj1 (unnamed_groups_empty sample_synonyms sample_now
                         (parser_of fresh_root) (md_with_year 5) []
                         out_year_5 H) eq_refl)).
Defined.

(** ** Counting the credits *)

Lemma nonempty_creator_folded p :
  PyStr.nonempty (creator_folded p) = PyStr.nonempty p.
Proof. destruct p; reflexivity. Qed.

Lemma named_roles_cons entry d :
  named_roles (entry :: d) =
  (if PyStr.nonempty (fst (snd entry)) then length (snd (snd entry)) else 0)
  + named_roles d.
Proof.
  unfold named_roles, named. cbn [filter].
  destruct (PyStr.nonempty (fst (snd entry))); reflexivity.
Qed.

Lemma named_roles_setdefault k p r d :
  Forall key_matches_name d ->
  PyStr.nonempty p = PyStr.nonempty k ->
  named_roles (setdefault_append k p r d) =
  named_roles d + (if PyStr.nonempty k then 1 else 0).
Proof.
  intros Hd Hp. induction Hd as [| [k0 [p0 rs]] d Hk0 _ IH].
  - cbn [setdefault_append]. rewrite named_roles_cons. cbn [fst snd length].
    rewrite Hp. unfold named_roles. cbn. destruct (PyStr.nonempty k); reflexivity.
  - cbn [setdefault_append]. unfold key_matches_name in Hk0. cbn [fst snd] in Hk0.
    destruct (String.eqb_spec k0 k) as [-> | Hne].
    + rewrite !named_roles_cons. cbn [fst snd]. rewrite Hk0, length_app.
      cbn [length]. destruct (PyStr.nonempty k); lia.
    + rewrite !named_roles_cons, IH. cbn [fst snd]. lia.
Qed.

Lemma invariants_setdefault k p r d :
  Forall key_matches_name d -> Forall has_roles d ->
  PyStr.nonempty p = PyStr.nonempty k ->
  Forall key_matches_name (setdefault_append k p r d)
  /\ Forall has_roles (setdefault_append k p r d).
Proof.
  intros Hd Hr Hp. induction d as [| [k0 [p0 rs]] d IH].
  - split; constructor; try constructor; [exact Hp | discriminate].
  - inversion Hd as [| ? ? Hk0 Hd']. inversion Hr as [| ? ? Hr0 Hr']. subst.
    cbn [setdefault_append]. destruct (String.eqb k0 k).
    + split; constructor; try assumption.
      unfold has_roles. cbn [snd]. destruct rs; discriminate.
    + destruct (IH Hd' Hr') as (IH1 & IH2). split; constructor; assumption.
Qed.

Lemma collect_fold_counts GM cs d :
  Forall key_matches_name d -> Forall has_roles d ->
  let d' :=
    fold_left
      (fun creators credit =>
         setdefault_append (creator_folded (person credit))
           (person credit) (credit_role GM (role credit)) creators)
      cs d in
  named_roles d' =
    named_roles d + length (filter (fun c => PyStr.nonempty (person c)) cs)
  /\ Forall has_roles d'.
Proof.
  revert d. induction cs as [| c cs IH]; intros d Hd Hr.
  - cbv zeta. cbn [fold_left filter length]. split; [apply plus_n_O | exact Hr].
  - cbn [fold_left filter].
    destruct (invariants_setdefault (creator_folded (person c)) (person c)
                (credit_role GM (role c)) d Hd Hr
                (eq_sym (nonempty_creator_folded (person c)))) as (Hd' & Hr').
    destruct (IH _ Hd' Hr') as (IH1 & IH2). cbv zeta in *.
    split; [| exact IH2].
    rewrite IH1, named_roles_setdefault
      by (assumption || (symmetry; apply nonempty_creator_folded)).
    rewrite nonempty_creator_folded.
    destruct (PyStr.nonempty (person c)); cbn [length]; lia.
Qed.

(** X14.  The credits are written without loss or repetition of roles: the
    document holds one [Role] element for each credit of the record whose
    person is not empty, credits with an empty person being dropped, and
    every [Credit] element has a creator name and at least one role. *)
Theorem credits_counted GM now fromstring md xml out :
  snd (_convert_metadata_to_xml GM now fromstring md xml) = OK out ->
  roles_total out
    = length (filter (fun c => PyStr.nonempty (person c)) (credits md))
  /\ Forall (fun c => snd c <> []
                      /\ exists p, snd (fst c) = Some p /\ p <> "")
       (credits_written out).
Proof.
  intros Hout.
  pose proof (credits_written_collect GM now fromstring md xml out Hout) as Hw.
  destruct (collect_fold_counts GM (credits md) [] (Forall_nil _) (Forall_nil _))
    as (Hcount & Hroles).
  cbv zeta in Hcount, Hroles. fold (collect_creators GM (credits md)) in *.
  split.
  - transitivity (named_roles (collect_creators GM (credits md)));
      [| rewrite Hcount; reflexivity].
    unfold roles_total. rewrite Hw, map_map.
    unfold named_roles. f_equal. apply map_ext. intros entry.
    unfold entry_written. cbn [snd]. apply length_map.
  - rewrite Hw. apply Forall_forall. intros v Hin.
    apply in_map_iff in Hin. destruct Hin as (entry & <- & Hin).
    unfold named in Hin. apply filter_In in Hin. destruct Hin as (Hin & Hne).
    rewrite Forall_forall in Hroles. specialize (Hroles entry Hin).
    unfold entry_written. cbn [fst snd]. split.
    + unfold has_roles in Hroles. destruct (snd (snd entry));
        [contradiction | discriminate].
    + exists (fst (snd entry)). split; [reflexivity |].
      destruct (fst (snd entry)); [discriminate | discriminate].
Qed.

Lemma credits_counted_witness :
  option_map roles_total
    (document
       (_convert_metadata_to_xml sample_synonyms sample_now
          (parser_of fresh_root)
          (md_with_credits [ mkCredit "Jane Doe" "Writer";
                             mkCredit "" "Inker";
                             mkCredit "jane doe" "Writer" ]) []))
  = Some 2.
Proof.
  destruct (snd (_convert_metadata_to_xml sample_synonyms sample_now
                   (parser_of fresh_root)
                   (md_with_credits [ mkCredit "Jane Doe" "Writer";
                                      mkCredit "" "Inker";
                                      mkCredit "jane doe" "Writer" ]) []))
    as [out | e] eqn:E.
  - unfold document. rewrite E. cbn [option_map].
    rewrite (proj1 (credits_counted sample_synonyms sample_now
                      (parser_of fresh_root) _ [] out E)).
    reflexivity.
  - vm_compute in E. discriminate E.
Defined.

(** * Properties of the reading side *)

Lemma find_desc_children name e :
  find_desc name e = find_desc_in name (children e).
Proof.
  destruct e as [t a tx tl cs]. cbn [find_desc children].
  induction cs as [| c cs IH]; [reflexivity |].
  cbn [find_desc_in]. rewrite <- IH. reflexivity.
Qed.

Lemma get_element_root root name :
  get_element root name None = find_desc name root.
Proof. unfold get_element. destruct (find_desc name root); reflexivity. Qed.

Lemma get_element_sub root name e :
  get_element root name (Some e) = find_desc name e.
Proof. unfold get_element. destruct (find_desc name e); reflexivity. Qed.

Lemma get_text_root root name :
  get_text root name None = match find_desc name root with
                            | Some e => text e
                            | None => None
                            end.
Proof. reflexivity. Qed.

Lemma get_text_sub root name e :
  get_text root name (Some e) = match find_desc name e with
                                | Some e' => text e'
                                | None => None
                                end.
Proof. reflexivity. Qed.




(** The decoder on a root tagged [MetronInfo]: it returns or raises as the
    prices do. *)
Lemma decode_price U root :
  String.eqb (tag root) "MetronInfo" = true ->
  match find_desc "Prices" root with
  | Some m_prices =>
      match read_price m_prices None with
      | OK price => exists d, decode U root = OK d /\ Decoded.price d = price
      | Raise e => decode U root = Raise e
      end
  | None => exists d, decode U root = OK d /\ Decoded.price d = None
  end.
Proof.
  intros H. unfold decode, _convert_xml_to_metadata. rewrite H.
  cbv zeta. cbn [negb]. rewrite get_element_root. cbn [Decoded.price Decoded.empty].
  destruct (find_desc "Prices" root) as [m_prices |].
  - destruct (read_price m_prices None) as [price | e]; cbn [bind].
    + eexists. split; reflexivity.
    + reflexivity.
  - cbn [bind]. eexists. split; reflexivity.
Qed.



Ltac decode_inv H :=
  unfold decode, _convert_xml_to_metadata in H;
  match type of H with
  | context [negb ?b] =>
      destruct b eqn:?Htag; [cbn [negb] in H | discriminate H]
  end;
  cbv zeta in H;
  match type of H with
  | bind ?p _ = _ =>
      destruct p eqn:?Hprice; [cbn [bind] in H | discriminate H]
  end;
  injection H as <-.


(** What [has_tags] has checked when it answers [True]. *)
Lemma has_tags_document fromstring archive :
  has_tags fromstring archive = true ->
  exists data root,
    read_file archive file = OK data
    /\ fromstring data = OK root
    /\ tag root = "MetronInfo".
Proof.
  unfold has_tags, has_tags_body, supports_tags, _validate_bytes.
  destruct (supports_files archive) as [[|] | e]; cbn [bind]; try discriminate.
  destruct (get_filename_list archive) as [names | e]; cbn [bind];
    try discriminate.
  destruct (PyStr.mem file names); try discriminate.
  destruct (read_file archive file) as [data | e]; cbn [bind]; try discriminate.
  destruct (fromstring data) as [root | e] eqn:Hparse.
  - destruct (String.eqb_spec (tag root) "MetronInfo"); try discriminate.
    intros _. exists data, root. auto.
  - destruct e; discriminate.
Qed.


(** X17.  [read_raw_tags] never raises: when [has_tags] holds it returns
    the serialization of the document parsed from the file, and the empty
    string otherwise. *)
Theorem read_raw_tags_serializes fromstring tostring_unicode archive :
  if has_tags fromstring archive
  then exists data root,
         read_file archive file = OK data
         /\ fromstring data = OK root
         /\ tag root = "MetronInfo"
         /\ read_raw_tags fromstring tostring_unicode archive
            = tostring_unicode root
  else read_raw_tags fromstring tostring_unicode archive = "".
Proof.
  unfold read_raw_tags.
  destruct (has_tags fromstring archive) eqn:Hhas; [| reflexivity].
  destruct (has_tags_document _ _ Hhas) as (data & root & Hr & Hp & Ht).
  exists data, root. rewrite Hr. cbn [bind]. rewrite Hp. cbn [bind]. auto.
Qed.

(** X18.  [remove_tags] calls [remove_file] only on an archive that has
    the tags: it raises exactly when [has_tags] holds and [remove_file]
    raises, and it returns [False], without an error, when the test for
    the tags itself fails with an exception. *)
Theorem remove_tags_raises_iff fromstring remove_file archive e :
  (remove_tags fromstring remove_file archive = Raise e
   <-> has_tags fromstring archive = true /\ remove_file file = Raise e)
  /\ (forall e',
        has_tags_body fromstring archive = Raise e' ->
        remove_tags fromstring remove_file archive = OK false).
Proof.
  unfold remove_tags. split.
  - destruct (has_tags fromstring archive).
    + split; [intros H; split; [reflexivity | exact H] | intros (_ & H); exact H].
    + split; [discriminate | intros (H & _); discriminate].
  - intros e' H. unfold has_tags. rewrite H. reflexivity.
Qed.

Lemma read_identifier_rest post i :
  Forall not_isbn post ->
  fold_left
    (fun identifier ident =>
       if String.eqb (tag ident) "ISBN" then text ident
       else match identifier with
            | None => text ident
            | Some _ => identifier
            end)
    post (Some i) = Some i.
Proof.
  induction 1 as [| c post Hc _ IH]; [reflexivity |].
  cbn [fold_left]. apply String.eqb_neq in Hc. rewrite Hc. exact IH.
Qed.

Lemma read_identifier_first cs :
  Forall not_isbn cs ->
  fold_left
    (fun identifier ident =>
       if String.eqb (tag ident) "ISBN" then text ident
       else match identifier with
            | None => text ident
            | Some _ => identifier
            end)
    cs None = first_text cs.
Proof.
  induction 1 as [| c cs Hc Hcs IH]; [reflexivity |].
  cbn [fold_left]. pose proof Hc as Hc'. apply String.eqb_neq in Hc'.
  rewrite Hc'. unfold first_text. cbn [List.find].
  destruct (text c) as [t |] eqn:Et.
  - rewrite Et. apply read_identifier_rest. exact Hcs.
  - exact IH.
Qed.

(** X19.  The identifier read from [GTIN] prefers an [ISBN]: it is the text
    of the last [ISBN] child when that child has a text, whatever the other
    children, and without an [ISBN] child it is the first text among the
    children. *)
Theorem gtin_prefers_isbn U root d m_gtin :
  decode U root = OK d ->
  find_desc "GTIN" root = Some m_gtin ->
  (forall pre x post t,
      children m_gtin = (pre ++ x :: post)%list ->
      tag x = "ISBN" -> text x = Some t -> Forall not_isbn post ->
      Decoded.identifier d = Some t)
  /\ (Forall not_isbn (children m_gtin) ->
      Decoded.identifier d = first_text (children m_gtin)).
Proof.
  intros Hd Hg. decode_inv Hd. cbn [Decoded.identifier].
  rewrite get_element_root, Hg. unfold read_identifier.
  cbn [Decoded.identifier Decoded.empty]. split.
  - intros pre x post t Hcs Hx Ht Hpost. rewrite Hcs, fold_left_app.
    cbn [fold_left]. rewrite Hx, Ht. cbn [String.eqb Ascii.eqb Bool.eqb].
    apply read_identifier_rest. exact Hpost.
  - apply read_identifier_first.
Qed.

Lemma gtin_prefers_isbn_witness :
  option_map Decoded.identifier
    (match decode sample_utils sample_doc with
     | OK d => Some d
     | Raise _ => None
     end) = Some (Some "978-1").
Proof.
  destruct (decode sample_utils sample_doc) as [d | e] eqn:Hd.
  - cbn [option_map]. f_equal.
    refine (proj1 (gtin_prefers_isbn sample_utils sample_doc d
                     (mkElement "GTIN" [] None None
                        [ leaf "UPC" (Some "0123"); leaf "ISBN" (Some "978-1");
                          leaf "UPC" None ])
                     Hd eq_refl)
              [leaf "UPC" (Some "0123")] (leaf "ISBN" (Some "978-1"))
              [leaf "UPC" None] "978-1" eq_refl eq_refl eq_refl _).
    constructor; [| constructor]. unfold not_isbn. cbn. discriminate.
  - vm_compute in Hd. discriminate Hd.
Defined.

Lemma us_price_none ps price r :
  Forall (fun p => ~ is_us p) ps ->
  us_price ps price = OK r -> r = price.
Proof.
  intros H. revert price. induction H as [| p ps Hp _ IH]; intros price;
    cbn [us_price].
  - congruence.
  - destruct (dict_get "country" (attrib p)) as [c |] eqn:Ec; [| discriminate].
    destruct (String.eqb_spec c "US") as [-> | _].
    + exfalso. apply Hp. exact Ec.
    + apply IH.
Qed.

Lemma us_price_last pre x post price r :
  is_us x -> Forall (fun p => ~ is_us p) post ->
  us_price (pre ++ x :: post) price = OK r -> r = text x.
Proof.
  intros Hx Hpost. revert price. induction pre as [| p pre IH]; intros price.
  - cbn [app us_price]. unfold is_us in Hx. rewrite Hx.
    cbn [String.eqb Ascii.eqb Bool.eqb]. apply us_price_none. exact Hpost.
  - cbn [app us_price]. destruct (dict_get "country" (attrib p)); [| discriminate].
    apply IH.
Qed.

(** X20.  The price read from [Prices]: a single price is taken whatever
    its country, also without one; among several prices the last one of
    the country [US] is taken, and when none of them is of the [US] no
    price is read at all. *)
Theorem price_rule U root d m_prices :
  decode U root = OK d ->
  find_desc "Prices" root = Some m_prices ->
  (forall p, children m_prices = [p] -> Decoded.price d = text p)
  /\ ((1 < length (children m_prices))%nat ->
      Forall (fun p => ~ is_us p) (children m_prices) ->
      Decoded.price d = None)
  /\ (forall pre x post,
        children m_prices = (pre ++ x :: post)%list ->
        (1 < length (children m_prices))%nat ->
        is_us x -> Forall (fun p => ~ is_us p) post ->
        Decoded.price d = text x).
Proof.
  intros Hd Hp. decode_inv Hd. cbn [Decoded.price].
  rewrite get_element_root, Hp in Hprice. unfold read_price in Hprice.
  cbn [Decoded.price Decoded.empty] in Hprice. repeat split.
  - intros p Hcs. rewrite Hcs in Hprice. cbn in Hprice. congruence.
  - intros Hlen Hnone. apply Nat.ltb_lt in Hlen. rewrite Hlen in Hprice.
    destruct (us_price (children m_prices) None) as [r |] eqn:Eus;
      [| discriminate].
    apply us_price_none in Eus; [| exact Hnone]. subst r. cbn [bind] in Hprice.
    apply Nat.ltb_lt in Hlen.
    destruct (children m_prices) as [| ? [| ? ?]]; cbn in Hlen;
      try lia; congruence.
  - intros pre x post Hcs Hlen Hx Hpost. apply Nat.ltb_lt in Hlen.
    rewrite Hlen in Hprice.
    destruct (us_price (children m_prices) None) as [r |] eqn:Eus;
      [| discriminate].
    rewrite Hcs in Eus. apply us_price_last in Eus; [| assumption ..]. subst r.
    cbn [bind] in Hprice. apply Nat.ltb_lt in Hlen.
    destruct (text x), (children m_prices) as [| ? [| ? ?]]; cbn in Hlen;
      try lia; congruence.
Qed.

Lemma price_rule_witness :
  option_map Decoded.price
    (match decode sample_utils sample_doc with
     | OK d => Some d
     | Raise _ => None
     end) = Some (Some "3.99").
Proof.
  destruct (decode sample_utils sample_doc) as [d | e] eqn:Hd.
  - cbn [option_map]. f_equal.
    refine (proj2 (proj2 (price_rule sample_utils sample_doc d
                            (mkElement "Prices" [] None None
                               [ price_element (Some "GB") "2.50";
                                 price_element (Some "US") "3.99" ])
                            Hd eq_refl))
              [price_element (Some "GB") "2.50"]
              (price_element (Some "US") "3.99") [] eq_refl _ eq_refl _).
    + cbn. lia.
    + constructor.
  - vm_compute in Hd. discriminate Hd.
Defined.

(** ** Descendants *)

Lemma Element_nested_ind (P : Element -> Prop) :
  (forall t a tx tl cs, Forall P cs -> P (mkElement t a tx tl cs)) ->
  forall e, P e.
Proof.
  intros H.
  exact (fix IH (e : Element) : P e :=
           match e with
           | mkElement t a tx tl cs =>
               H t a tx tl cs
                 ((fix all (cs : list Element) : Forall P cs :=
                     match cs with
                     | [] => Forall_nil P
                     | c :: cs' => Forall_cons c (IH c) (all cs')
                     end) cs)
           end).
Qed.

Lemma tags_below_children e : tags_below e = tags_in (children e).
Proof. destruct e. reflexivity. Qed.

Lemma tags_in_app a b : tags_in (a ++ b) = (tags_in a ++ tags_in b)%list.
Proof. unfold tags_in. apply flat_map_app. Qed.

Lemma tags_in_cons c cs :
  tags_in (c :: cs) = (tag c :: tags_below c ++ tags_in cs)%list.
Proof. reflexivity. Qed.

Lemma find_desc_in_In name cs d :
  find_desc_in name cs = Some d -> In name (tags_in cs).
Proof.
  induction cs as [| c cs IH]; cbn [find_desc_in]; [discriminate |].
  rewrite tags_in_cons.
  destruct (String.eqb_spec (tag c) name) as [E | _]; [intros _; left; exact E |].
  destruct (find_desc name c) as [d' |] eqn:Ed.
  - intros _. right. apply in_or_app. left.
    revert d' Ed. clear. induction c as [t a tx tl cs IH] using Element_nested_ind.
    intros d'. rewrite find_desc_children, tags_below_children. cbn [children].
    induction IH as [| c cs Hc _ IHcs]; cbn [find_desc_in]; [discriminate |].
    rewrite tags_in_cons.
    destruct (String.eqb_spec (tag c) name) as [E | _];
      [intros _; left; exact E |].
    destruct (find_desc name c) as [d'' |] eqn:Ed'.
    + intros _. right. apply in_or_app. left. eapply Hc. reflexivity.
    + intros H. right. apply in_or_app. right. apply IHcs. exact H.
  - intros H. right. apply in_or_app. right. apply IH. exact H.
Qed.

Lemma find_desc_In name e d :
  find_desc name e = Some d -> In name (tags_below e).
Proof.
  rewrite find_desc_children, tags_below_children. apply find_desc_in_In.
Qed.

Lemma find_desc_None name e :
  ~ In name (tags_below e) -> find_desc name e = None.
Proof.
  intros H. destruct (find_desc name e) as [d |] eqn:E; [| reflexivity].
  exfalso. apply H. eapply find_desc_In, E.
Qed.

(** Below elements that hold no [name], the search is that of the
    children. *)
Lemma find_desc_in_top name cs :
  Forall (fun c => ~ In name (tags_below c)) cs ->
  find_desc_in name cs = find_in name cs.
Proof.
  induction 1 as [| c cs Hc _ IH]; [reflexivity |].
  cbn [find_desc_in find_in]. rewrite (find_desc_None _ _ Hc), IH. reflexivity.
Qed.

(** The search sees an element through its tag and its children. *)
Lemma find_desc_content name e e' :
  content e = content e' -> find_desc name e = find_desc name e'.
Proof.
  intros H. rewrite !find_desc_children, (content_children _ _ H). reflexivity.
Qed.

Lemma tags_in_content cs cs' :
  map content cs = map content cs' -> tags_in cs = tags_in cs'.
Proof.
  revert cs'. induction cs as [| c cs IH]; intros [| c' cs'] H;
    try discriminate; [reflexivity |].
  cbn [map] in H.
  assert (Hc : content c = content c') by congruence.
  assert (Hcs : map content cs = map content cs') by congruence.
  rewrite !tags_in_cons, !tags_below_children.
  rewrite (content_tag _ _ Hc), (content_children _ _ Hc), (IH _ Hcs).
  reflexivity.
Qed.

Lemma tags_below_content e e' :
  content e = content e' -> tags_below e = tags_below e'.
Proof.
  intros H. rewrite !tags_below_children, (content_children _ _ H). reflexivity.
Qed.

(** Pretty-printing leaves the tags where they are. *)
Lemma tags_below_indent_elem level e :
  tags_below (indent_elem level e) = tags_below e.
Proof.
  revert level. induction e as [t a tx tl cs IH] using Element_nested_ind.
  intros level. rewrite !tags_below_children.
  rewrite (tags_in_content _ (map (indent_elem (S level)) cs))
    by (rewrite children_indent_elem, map_map; reflexivity).
  cbn [children]. induction IH as [| c cs Hc _ IHcs]; [reflexivity |].
  cbn [map]. rewrite !tags_in_cons, tag_indent_elem, Hc, IHcs. reflexivity.
Qed.

(** A list of elements with distinct tags is known from what [find]
    gives for each tag. *)
Lemma map_content_by_tags
    (g : string -> string * list (string * string) * option string * list Element)
    cs ts :
  map tag cs = ts -> NoDup ts ->
  (forall t, In t ts -> option_map content (find_in t cs) = Some (g t)) ->
  map content cs = map g ts.
Proof.
  revert ts. induction cs as [| c cs IH]; intros ts <- Hnd Hg; [reflexivity |].
  cbn [map] in *. inversion Hnd as [| ? ? Hnotin Hnd']; subst. f_equal.
  - specialize (Hg (tag c) (or_introl eq_refl)). cbn [find_in] in Hg.
    rewrite String.eqb_refl in Hg. cbn [option_map] in Hg. congruence.
  - apply IH; [reflexivity | exact Hnd' |].
    intros t Hin. specialize (Hg t (or_intror Hin)). cbn [find_in] in Hg.
    destruct (String.eqb_spec (tag c) t) as [E | _]; [| exact Hg].
    subst t. contradiction.
Qed.

Lemma lookup_Some t steps :
  In t (map fst steps) -> exists f, lookup t steps = Some f.
Proof.
  induction steps as [| [t' g] rest IH]; cbn [map fst lookup]; [intros [] |].
  destruct (String.eqb_spec t' t) as [_ | Hne]; [intros _; eexists; reflexivity |].
  intros [E | H]; [contradiction | apply IH, H].
Qed.

Lemma lookup_None t steps :
  ~ In t (map fst steps) -> lookup t steps = None.
Proof.
  intros H. destruct (lookup t steps) as [f |] eqn:E; [| reflexivity].
  exfalso. apply H. eapply lookup_In, E.
Qed.

Lemma top_level_filled t :
  In t top_level_tags -> t = "IDS" \/ In t filled_tags.
Proof.
  intros H.
  assert (Hall : forallb (fun k => String.eqb k "IDS" || PyStr.mem k filled_tags)
                   top_level_tags = true) by (vm_compute; reflexivity).
  rewrite forallb_forall in Hall. specialize (Hall t H).
  apply orb_true_iff in Hall. destruct Hall as [E | E].
  - left. apply String.eqb_eq, E.
  - right. apply mem_In, E.
Qed.

Lemma find_fresh_root t : find t fresh_root = None.
Proof. reflexivity. Qed.

Lemma convert_fresh GM now fromstring md :
  _convert_metadata_to_xml GM now fromstring md []
  = encode_root GM now md fresh_root.
Proof. apply convert_parsed. left. split; reflexivity. Qed.

(** The top-level elements of a document made from no existing bytes. *)
Lemma fresh_find GM now fromstring md out t :
  snd (_convert_metadata_to_xml GM now fromstring md []) = OK out ->
  In t top_level_tags ->
  option_map content (find t out)
  = Some (content (indent_elem 1 (fresh_child GM now md t))).
Proof.
  intros Hout Hin. rewrite convert_fresh in Hout. unfold fresh_child.
  destruct (find_handles t fresh_root Hin) as (c & Hc & _ & Hnew).
  specialize (Hnew (find_fresh_root t)). subst c.
  destruct (top_level_filled t Hin) as [-> | Hf].
  - assert (Hnone : filler GM now md "IDS" = None).
    { apply lookup_None. rewrite keys_of_steps. apply IDS_not_filled. }
    rewrite Hnone.
    destruct (fill_ids (encoded_md md) (ET.new "IDS")) as [c' | e] eqn:Ef.
    + destruct (encode_root_return GM now md fresh_root _ _ Hc Ef)
        as (out' & Hout' & Hcontent).
      rewrite Hout in Hout'. injection Hout' as <-. exact Hcontent.
    + rewrite (encode_root_raise GM now md fresh_root _ _ Hc Ef) in Hout.
      discriminate Hout.
  - destruct (lookup_Some t (steps_before_ids GM md ++ steps_after_ids now md))
      as (f & Hlook); [rewrite keys_of_steps; exact Hf |].
    fold (filler GM now md t) in Hlook. rewrite Hlook.
    rewrite (encode_root_find _ _ _ _ _ _ _ Hout Hlook), Hc. reflexivity.
Qed.

(** ** The tags below the elements the encoder builds *)

Lemma tags_below_set_text x e : tags_below (set_text x e) = tags_below e.
Proof. destruct e; reflexivity. Qed.

Lemma tags_below_set_attrib k v e : tags_below (set_attrib k v e) = tags_below e.
Proof. destruct e; reflexivity. Qed.

Lemma tags_below_append c e :
  tags_below (append c e) = (tags_below e ++ tag c :: tags_below c)%list.
Proof.
  rewrite (tags_below_children (append c e)), (tags_below_children e).
  unfold append. cbn [children set_children]. rewrite tags_in_app, tags_in_cons.
  unfold tags_in at 2. cbn [flat_map]. rewrite app_nil_r. reflexivity.
Qed.

Lemma children_fold_set_attrib attribs e :
  children (fold_left (fun e kv => set_attrib (fst kv) (snd kv) e) attribs e)
  = children e.
Proof.
  revert e. induction attribs as [| kv attribs IH]; intros e; [reflexivity |].
  cbn [fold_left]. rewrite IH. reflexivity.
Qed.

Lemma children_new_element sub txt attribs :
  children (new_element sub txt attribs) = [].
Proof.
  unfold new_element. rewrite children_fold_set_attrib.
  destruct (PyStr.nonempty txt); reflexivity.
Qed.

Lemma tags_below_new_element sub txt attribs :
  tags_below (new_element sub txt attribs) = [].
Proof. rewrite tags_below_children, children_new_element. reflexivity. Qed.

Lemma tags_below_add_element sub txt attribs e :
  tags_below (add_element sub txt attribs e) = (tags_below e ++ [sub])%list.
Proof.
  rewrite add_element_append, tags_below_append, tag_new_element,
    tags_below_new_element. reflexivity.
Qed.

Lemma incl_tags_in_map (A : Type) (g : A -> Element) l allowed :
  (forall a, In (tag (g a)) allowed /\ incl (tags_below (g a)) allowed) ->
  incl (tags_in (map g l)) allowed.
Proof.
  intros H. induction l as [| a l IH]; [apply incl_nil_l |].
  cbn [map]. rewrite tags_in_cons. destruct (H a) as (Ht & Hb).
  apply incl_cons; [exact Ht |]. apply incl_app; assumption.
Qed.

Lemma tags_below_fold_append (A : Type) (g : A -> Element) l e :
  tags_below (fold_left (fun parent a => append (g a) parent) l e)
  = (tags_below e ++ tags_in (map g l))%list.
Proof.
  rewrite !tags_below_children, children_fold_append, tags_in_app. reflexivity.
Qed.

Ltac inner_tag := apply mem_In; reflexivity.

Ltac incl_inner :=
  repeat first
    [ apply incl_nil_l
    | apply incl_app
    | apply incl_cons; [inner_tag |]
    | apply incl_tags_in_map; intros; split; [try inner_tag |] ].

Lemma inner_fill_list sub items e :
  In sub inner_tags -> incl (tags_below (fill_list sub items e)) inner_tags.
Proof.
  intros H. rewrite tags_below_children, children_fill_list.
  apply incl_tags_in_map. intros i. rewrite tag_new_element, tags_below_new_element.
  split; [exact H | apply incl_nil_l].
Qed.

Lemma inner_roles_element roles :
  incl (tags_below (roles_element roles)) inner_tags.
Proof.
  rewrite tags_below_children, children_roles_element.
  apply incl_tags_in_map. intros r. split; [inner_tag | apply incl_nil_l].
Qed.

Lemma inner_credit_element creator roles :
  incl (tags_below (credit_element creator roles)) inner_tags.
Proof.
  unfold credit_element. fold (roles_element roles).
  destruct (0 <? length roles)%nat;
    rewrite ?tags_below_append, tags_below_add_element, ?tag_roles_element;
    cbn [tags_below ET.new children flat_map app].
  - apply incl_cons; [inner_tag |]. apply incl_cons; [inner_tag |].
    apply inner_roles_element.
  - incl_inner.
Qed.

Lemma inner_fill_credits GM md e :
  incl (tags_below (fill_credits GM md e)) inner_tags.
Proof.
  rewrite tags_below_children, children_fill_credits.
  apply incl_tags_in_map. intros entry. rewrite tag_credit_element.
  split; [inner_tag | apply inner_credit_element].
Qed.

Ltac inner_cases :=
  repeat match goal with
         | |- context [if ?b then _ else _] => destruct b
         | |- context [match ?x with _ => _ end] => destruct x
         end.

Lemma inner_fill_series md e : incl (tags_below (fill_series md e)) inner_tags.
Proof.
  unfold fill_series. cbv zeta.
  destruct (truthy (series md)); [| apply incl_nil_l].
  destruct (series_aliases md) as [| a aliases].
  - inner_cases;
      rewrite ?tags_below_add_element, ?tags_below_set_attrib;
      cbn [tags_below clear ET.new children flat_map tag app]; incl_inner.
  - rewrite tags_below_append.
    apply incl_app.
    + inner_cases;
        rewrite ?tags_below_add_element, ?tags_below_set_attrib;
        cbn [tags_below clear ET.new children flat_map tag app]; incl_inner.
    + rewrite tag_fold_left by reflexivity.
      apply incl_cons; [inner_tag |].
      change (fold_left
                (fun series_alts series_alt =>
                   add_element "AlternativeName" series_alt [] series_alts)
                (a :: aliases) (ET.new "AlternativeNames"))
        with (fold_left
                (fun parent i => append (new_element "AlternativeName" i []) parent)
                (a :: aliases) (ET.new "AlternativeNames")).
      rewrite tags_below_fold_append. cbn [tags_below ET.new children flat_map app].
      apply incl_tags_in_map. intros i.
      rewrite tag_new_element, tags_below_new_element.
      split; [inner_tag | apply incl_nil_l].
Qed.

Lemma inner_fill_arcs md e : incl (tags_below (fill_arcs md e)) inner_tags.
Proof.
  unfold fill_arcs.
  rewrite (tags_below_fold_append _
             (fun arc => add_element "Name" arc [] (ET.new "Arc"))).
  apply incl_app; [apply incl_nil_l |].
  apply incl_tags_in_map. intros arc. split; [inner_tag |].
  rewrite tags_below_add_element. incl_inner.
Qed.

Lemma inner_fill_ids md e e' :
  incl (tags_below e) inner_tags ->
  children e = [] ->
  fill_ids md e = OK e' -> incl (tags_below e') inner_tags.
Proof.
  intros He Hcs. unfold fill_ids. rewrite Hcs. cbn [update_issue_id bind].
  destruct (truthy (issue_id md)).
  - destruct (data_origin_name md) as [o | x]; cbn [bind]; [| discriminate].
    intros H. injection H as <-. rewrite tags_below_add_element.
    apply incl_app; [exact He |]. incl_inner.
  - intros H. injection H as <-. exact He.
Qed.

Ltac inner_simple :=
  inner_cases;
  rewrite ?tags_below_add_element, ?tags_below_set_attrib, ?tags_below_set_text;
  cbn [tags_below clear ET.new children flat_map tag app]; incl_inner.

(** Below the top-level elements of a new document there are tags of
    [inner_tags] only. *)
Lemma fresh_child_inner GM now md t :
  In t top_level_tags ->
  incl (tags_below (fresh_child GM now md t)) inner_tags.
Proof.
  intros Hin. unfold fresh_child. cbn [top_level_tags In] in Hin.
  repeat match type of Hin with
         | _ \/ _ => destruct Hin as [<- | Hin]
         end; try contradiction.
  - change (filler GM now md "IDS") with (@None (Element -> Element)). cbv beta iota.
    destruct (fill_ids (encoded_md md) (ET.new "IDS")) as [c |] eqn:E;
      [| apply incl_nil_l].
    eapply inner_fill_ids; [| | exact E]; [apply incl_nil_l | reflexivity].
  - change (filler GM now md "Number")
      with (Some (fill_number (series_md md))). cbv beta iota.
    unfold fill_number. inner_simple.
  - change (filler GM now md "Series") with (Some (fill_series md)). cbv beta iota.
    apply inner_fill_series.
  - change (filler GM now md "Stories")
      with (Some (fill_stories (series_md md))). cbv beta iota.
    rewrite fill_stories_list.
    destruct (truthy (title (series_md md))
              && negb (is_trade_paperback (series_md md)));
      [apply inner_fill_list; inner_tag | apply incl_nil_l].
  - change (filler GM now md "CollectionTitle")
      with (Some (fill_title (series_md md))). cbv beta iota.
    unfold fill_title. inner_simple.
  - change (filler GM now md "Summary")
      with (Some (fill_summary (manga_md (series_md md)))).
    unfold fill_summary. inner_simple.
  - change (filler GM now md "Notes") with (Some (fill_notes (encoded_md md))). cbv beta iota.
    unfold fill_notes. inner_simple.
  - change (filler GM now md "Prices") with (Some (fill_prices (encoded_md md))). cbv beta iota.
    unfold fill_prices. inner_simple.
  - change (filler GM now md "GTIN") with (Some (fill_gtin (encoded_md md))). cbv beta iota.
    unfold fill_gtin. inner_simple.
  - change (filler GM now md "Genres")
      with (Some (fill_genres (manga_md (series_md md)))).
    apply inner_fill_list. inner_tag.
  - change (filler GM now md "AgeRating")
      with (Some (fill_age_rating (manga_md (series_md md)))).
    unfold fill_age_rating. inner_simple.
  - change (filler GM now md "Tags") with (Some (fill_tags (encoded_md md))). cbv beta iota.
    apply inner_fill_list. inner_tag.
  - change (filler GM now md "Arcs") with (Some (fill_arcs (encoded_md md))). cbv beta iota.
    apply inner_fill_arcs.
  - change (filler GM now md "Characters")
      with (Some (fill_characters (encoded_md md))). cbv beta iota.
    apply inner_fill_list. inner_tag.
  - change (filler GM now md "Teams") with (Some (fill_teams (encoded_md md))). cbv beta iota.
    apply inner_fill_list. inner_tag.
  - change (filler GM now md "Locations") with (Some (fill_locs (encoded_md md))). cbv beta iota.
    apply inner_fill_list. inner_tag.
  - change (filler GM now md "Publisher")
      with (Some (fill_publisher (encoded_md md))). cbv beta iota.
    unfold fill_publisher. inner_simple.
  - change (filler GM now md "CoverDate")
      with (Some (fill_cover_date (encoded_md md))). cbv beta iota.
    unfold fill_cover_date. inner_simple.
  - change (filler GM now md "URLs")
      with (Some (fill_urls (manga_md (series_md md)))).
    apply inner_fill_list. inner_tag.
  - change (filler GM now md "Credits") with (Some (fill_credits GM md)). cbv beta iota.
    apply inner_fill_credits.
  - change (filler GM now md "LastModified") with (Some (fill_modified now)). cbv beta iota.
    apply incl_nil_l.
Qed.

(** ** The document made from no existing bytes *)

Lemma fresh_tags GM now fromstring md out :
  snd (_convert_metadata_to_xml GM now fromstring md []) = OK out ->
  tag out = "MetronInfo" /\ map tag (children out) = top_level_tags.
Proof.
  intros Hout. rewrite convert_fresh in Hout.
  destruct (encode_root_out _ _ _ _ _ Hout) as (r & Hr & ->).
  destruct (map_tag_with_child_result _ _ _ _ (tag_fill_ids (encoded_md md)) Hr)
    as (Hc1 & Ht1 & _).
  destruct (map_tag_run_steps _ (handles fresh_root) (tag_preserving_before GM md))
    as (Hc0 & Ht0 & _).
  destruct (map_tag_run_steps _ r (tag_preserving_after now md))
    as (Hc2 & Ht2 & _).
  destruct (root_handles fresh_root) as (Hth & _).
  rewrite indent_indent_elem, tag_indent_elem.
  split; [rewrite Ht2, Ht1, Ht0; exact Hth |].
  rewrite (map_tag_content _ (children (run_steps (steps_after_ids now md) r)))
    by apply children_indent_elem.
  rewrite Hc2, Hc1, Hc0, map_tag_handles. reflexivity.
Qed.

Lemma fresh_children GM now fromstring md out :
  snd (_convert_metadata_to_xml GM now fromstring md []) = OK out ->
  map content (children out)
  = map (fun t => content (indent_elem 1 (fresh_child GM now md t)))
      top_level_tags.
Proof.
  intros Hout. apply map_content_by_tags.
  - apply (fresh_tags _ _ _ _ _ Hout).
  - apply NoDup_top_level_tags.
  - intros t Hin. apply (fresh_find _ _ _ _ _ _ Hout Hin).
Qed.

Lemma Forall_map_content (P : Element -> Prop)
    (g : string -> string * list (string * string) * option string * list Element)
    cs ts :
  map content cs = map g ts ->
  (forall t c, In t ts -> content c = g t -> P c) ->
  Forall P cs.
Proof.
  revert ts. induction cs as [| c cs IH]; intros [| t ts] H HP;
    try discriminate; [constructor |].
  cbn [map] in H.
  assert (Hc : content c = g t) by congruence.
  assert (Hcs : map content cs = map g ts) by congruence.
  constructor.
  - apply (HP t c); [left; reflexivity | exact Hc].
  - apply (IH ts Hcs). intros t' c' Hin. apply HP. right. exact Hin.
Qed.

Lemma fresh_children_inner GM now fromstring md out :
  snd (_convert_metadata_to_xml GM now fromstring md []) = OK out ->
  Forall (fun c => incl (tags_below c) inner_tags) (children out).
Proof.
  intros Hout.
  apply (Forall_map_content _ _ _ _ (fresh_children _ _ _ _ _ Hout)).
  intros t c Hin Hc. rewrite (tags_below_content _ _ Hc), tags_below_indent_elem.
  apply fresh_child_inner, Hin.
Qed.

(** A name the encoder uses at the top level only is found there. *)
Lemma fresh_desc_find GM now fromstring md out name :
  snd (_convert_metadata_to_xml GM now fromstring md []) = OK out ->
  ~ In name inner_tags ->
  find_desc name out = find name out.
Proof.
  intros Hout Hname. rewrite find_desc_children. unfold find.
  apply find_desc_in_top.
  eapply Forall_impl; [| apply (fresh_children_inner _ _ _ _ _ Hout)].
  intros c Hc Hin. apply Hname, Hc, Hin.
Qed.

Lemma top_level_not_inner name : In name top_level_tags -> ~ In name inner_tags.
Proof.
  intros Ht Hi.
  assert (Hall : forallb (fun t => negb (PyStr.mem t inner_tags)) top_level_tags
                 = true) by (vm_compute; reflexivity).
  rewrite forallb_forall in Hall. specialize (Hall name Ht).
  apply mem_In in Hi. rewrite Hi in Hall. discriminate Hall.
Qed.

Lemma fresh_top GM now fromstring md out name :
  snd (_convert_metadata_to_xml GM now fromstring md []) = OK out ->
  In name top_level_tags ->
  exists e,
    find_desc name out = Some e
    /\ content e = content (indent_elem 1 (fresh_child GM now md name)).
Proof.
  intros Hout Hin.
  rewrite (fresh_desc_find _ _ _ _ _ _ Hout (top_level_not_inner _ Hin)).
  apply find_content_Some. apply (fresh_find _ _ _ _ _ _ Hout Hin).
Qed.

Lemma fresh_absent GM now fromstring md out name :
  snd (_convert_metadata_to_xml GM now fromstring md []) = OK out ->
  ~ In name inner_tags -> ~ In name top_level_tags ->
  find_desc name out = None.
Proof.
  intros Hout Hi Ht. rewrite (fresh_desc_find _ _ _ _ _ _ Hout Hi).
  unfold find. apply find_in_mem.
  rewrite (proj2 (fresh_tags _ _ _ _ _ Hout)).
  destruct (PyStr.mem name top_level_tags) eqn:E; [| reflexivity].
  apply mem_In in E. contradiction.
Qed.

(** ** Reading what the encoder wrote *)

Lemma Forall_content (P : Element -> Prop) cs cs' :
  (forall x x', content x = content x' -> P x' -> P x) ->
  map content cs = map content cs' -> Forall P cs' -> Forall P cs.
Proof.
  intros HP. revert cs'. induction cs as [| c cs IH]; intros [| c' cs'] H Hall;
    try discriminate; [constructor |].
  cbn [map] in H.
  assert (Hc : content c = content c') by congruence.
  assert (Hcs : map content cs = map content cs') by congruence.
  inversion Hall; subst. constructor; [eapply HP; eassumption | eapply IH; eassumption].
Qed.

Lemma is_leaf_tags_below c : is_leaf c = true -> tags_below c = [].
Proof.
  rewrite tags_below_children. unfold is_leaf.
  destruct (children c); [reflexivity | discriminate].
Qed.

Lemma plain_for_below name c : plain_for name c -> ~ In name (tags_below c).
Proof.
  intros [Hl | (_ & H)]; [| exact H]. rewrite (is_leaf_tags_below _ Hl). intros [].
Qed.

Lemma find_desc_direct name e :
  Forall (fun c => ~ In name (tags_below c)) (children e) ->
  find_desc name e = find name e.
Proof. intros H. rewrite find_desc_children. apply find_desc_in_top, H. Qed.

Lemma find_desc_indent_direct name level e :
  Forall (fun c => ~ In name (tags_below c)) (children e) ->
  find_desc name (indent_elem level e) = find name (indent_elem level e).
Proof.
  intros H. apply find_desc_direct.
  apply (Forall_content _ _ (map (indent_elem (S level)) (children e))).
  - intros x x' Hx. rewrite (tags_below_content _ _ Hx). auto.
  - rewrite children_indent_elem, map_map. reflexivity.
  - apply Forall_map. eapply Forall_impl; [| exact H].
    intros c Hc. rewrite tags_below_indent_elem. exact Hc.
Qed.

(** The element [get_element(name, element)] finds in an element the
    encoder wrote. *)
Lemma get_element_written root name e' level e :
  content e' = content (indent_elem level e) ->
  Forall (fun c => ~ In name (tags_below c)) (children e) ->
  option_map content (get_element root name (Some e'))
  = option_map (fun c => content (indent_elem (S level) c)) (find name e).
Proof.
  intros Hc Hbelow. rewrite get_element_sub, (find_desc_content _ _ _ Hc).
  rewrite find_desc_indent_direct by exact Hbelow.
  apply find_indent_elem.
Qed.

Lemma find_in_In t cs c : find_in t cs = Some c -> In c cs.
Proof.
  induction cs as [| c' cs IH]; cbn [find_in]; [discriminate |].
  destruct (String.eqb (tag c') t).
  - intros H. injection H as <-. left. reflexivity.
  - intros H. right. apply IH, H.
Qed.

(** The text [get_text(name, element)] finds in an element the encoder
    wrote. *)
Lemma get_text_written root name e' level e :
  content e' = content (indent_elem level e) ->
  Forall (plain_for name) (children e) ->
  get_text root name (Some e') = child_text name e.
Proof.
  intros Hc Hplain.
  assert (Hbelow : Forall (fun c => ~ In name (tags_below c)) (children e))
    by (eapply Forall_impl; [| exact Hplain]; apply plain_for_below).
  pose proof (get_element_written root name e' level e Hc Hbelow) as H.
  rewrite get_element_sub in H. rewrite get_text_sub. unfold child_text.
  destruct (find name e) as [c |] eqn:Ef.
  - cbn [option_map] in H.
    destruct (find_desc name e') as [c' |]; [| discriminate H].
    cbn [option_map] in H.
    assert (Hcc : content c' = content (indent_elem (S level) c)) by congruence.
    rewrite (content_text _ _ Hcc), text_indent_elem.
    assert (Hleaf : is_leaf c = true).
    { pose proof (find_tag _ _ _ Ef) as Ht. unfold find in Ef.
      apply find_in_In in Ef. rewrite Forall_forall in Hplain.
      destruct (Hplain c Ef) as [Hl | (Hne & _)]; [exact Hl | contradiction]. }
    rewrite Hleaf. reflexivity.
  - cbn [option_map] in H. destruct (find_desc name e'); [discriminate H | reflexivity].
Qed.

(** An observation of the children of an element the encoder wrote. *)
Lemma children_written (A : Type) (obs : Element -> A) e' level e :
  (forall x x', content x = content x' -> obs x = obs x') ->
  (forall c, In c (children e) -> obs (indent_elem (S level) c) = obs c) ->
  content e' = content (indent_elem level e) ->
  map obs (children e') = map obs (children e).
Proof.
  intros Hobs Hind Hc. rewrite (content_children _ _ Hc).
  rewrite (map_factor _ obs _ (map (indent_elem (S level)) (children e)) Hobs)
    by (rewrite children_indent_elem, map_map; reflexivity).
  rewrite map_map. apply map_ext_in. exact Hind.
Qed.

Lemma children_texts e' level e :
  content e' = content (indent_elem level e) ->
  Forall (fun c => is_leaf c = true) (children e) ->
  map (fun c => (tag c, text c)) (children e')
  = map (fun c => (tag c, text c)) (children e).
Proof.
  intros Hc Hleaves. apply (children_written _ _ e' level e); [| | exact Hc].
  - intros x x' Hx. rewrite (content_tag _ _ Hx), (content_text _ _ Hx).
    reflexivity.
  - intros c Hin. rewrite Forall_forall in Hleaves.
    rewrite tag_indent_elem, text_indent_elem, (Hleaves c Hin). reflexivity.
Qed.

(** What [get_text(name)] and [get_element(name)] find in a document made
    from no existing bytes, for a top-level name. *)
Lemma fresh_get_element GM now fromstring md out name :
  snd (_convert_metadata_to_xml GM now fromstring md []) = OK out ->
  In name top_level_tags ->
  exists e,
    get_element out name None = Some e
    /\ content e = content (indent_elem 1 (fresh_child GM now md name)).
Proof.
  intros Hout Hin. rewrite get_element_root.
  apply (fresh_top _ _ _ _ _ _ Hout Hin).
Qed.

Lemma fresh_get_text GM now fromstring md out name :
  snd (_convert_metadata_to_xml GM now fromstring md []) = OK out ->
  In name top_level_tags ->
  is_leaf (fresh_child GM now md name) = true ->
  get_text out name None = text (fresh_child GM now md name).
Proof.
  intros Hout Hin Hleaf. rewrite get_text_root.
  destruct (fresh_top _ _ _ _ _ _ Hout Hin) as (e & -> & Hc).
  rewrite (content_text _ _ Hc), text_indent_elem, Hleaf. reflexivity.
Qed.

Lemma add_element_leaf sub txt e :
  add_element sub txt [] e = append (leaf sub (text_opt txt)) e.
Proof.
  unfold add_element, text_opt, leaf. cbn [fold_left].
  destruct (PyStr.nonempty txt); reflexivity.
Qed.

Lemma text_fold_set_attrib attribs e :
  text (fold_left (fun e kv => set_attrib (fst kv) (snd kv) e) attribs e)
  = text e.
Proof.
  revert e. induction attribs as [| kv attribs IH]; intros e; [reflexivity |].
  cbn [fold_left]. rewrite IH. reflexivity.
Qed.

Lemma text_new_element sub txt attribs :
  text (new_element sub txt attribs) = text_opt txt.
Proof.
  unfold new_element, text_opt. rewrite text_fold_set_attrib.
  destruct (PyStr.nonempty txt); reflexivity.
Qed.

Lemma is_leaf_new_element sub txt attribs :
  is_leaf (new_element sub txt attribs) = true.
Proof. unfold is_leaf. rewrite children_new_element. reflexivity. Qed.

(** The children of [Series] as the encoder writes them. *)
Lemma children_fill_series md e :
  children (fill_series md e) =
  if truthy (series md) then
    (leaf "Name" (text_opt (text_of (series md)))
       :: child_if (truthy_int (volume md))
            (leaf "Volume" (text_opt (PyStr.of_int (int_of (volume md)))))
       ++ child_if (truthy (format md))
            (leaf "Format" (text_opt (normalize_format (text_of (format md)))))
       ++ child_if (truthy_int (issue_count md))
            (leaf "IssueCount" (text_opt (PyStr.of_int (int_of (issue_count md)))))
       ++ child_if (truthy_int (volume_count md))
            (leaf "VolumeCount"
               (text_opt (PyStr.of_int (int_of (volume_count md)))))
       ++ child_if (match series_aliases md with [] => false | _ => true end)
            (alternative_names (series_aliases md)))%list
  else [].
Proof.
  unfold fill_series. cbv zeta. rewrite !add_element_leaf.
  fold (alternative_names (series_aliases md)).
  destruct (truthy (series md)); [| reflexivity].
  destruct (series_id md), (truthy_int (volume md)), (truthy (format md)),
    (truthy_int (issue_count md)), (truthy_int (volume_count md)),
    (series_aliases md); reflexivity.
Qed.

Lemma find_in_child_if name b c rest :
  find_in name (child_if b c ++ rest)
  = if b && String.eqb (tag c) name then Some c else find_in name rest.
Proof.
  destruct b; [| reflexivity]. cbn [child_if app find_in andb].
  reflexivity.
Qed.

Lemma find_in_child_if_last name b c :
  find_in name (child_if b c)
  = if b && String.eqb (tag c) name then Some c else None.
Proof. destruct b; reflexivity. Qed.

Lemma Forall_child_if (P : Element -> Prop) b c :
  (b = true -> P c) -> Forall P (child_if b c).
Proof. destruct b; intros H; constructor; auto. Qed.

Lemma tag_alternative_names aliases :
  tag (alternative_names aliases) = "AlternativeNames".
Proof. unfold alternative_names. apply tag_fold_left. reflexivity. Qed.

Lemma tags_below_alternative_names aliases :
  tags_below (alternative_names aliases)
  = map (fun _ => "AlternativeName") aliases.
Proof.
  unfold alternative_names.
  change (fold_left
            (fun series_alts series_alt =>
               add_element "AlternativeName" series_alt [] series_alts)
            aliases (ET.new "AlternativeNames"))
    with (fold_left
            (fun parent i => append (new_element "AlternativeName" i []) parent)
            aliases (ET.new "AlternativeNames")).
  rewrite tags_below_fold_append. cbn [tags_below ET.new children flat_map app].
  induction aliases as [| a aliases IH]; [reflexivity |].
  cbn [map]. rewrite tags_in_cons, tag_new_element, tags_below_new_element, IH.
  reflexivity.
Qed.

Lemma plain_leaf name t x : plain_for name (leaf t x).
Proof. left. reflexivity. Qed.

Lemma plain_series md e name :
  name <> "AlternativeNames" -> name <> "AlternativeName" ->
  Forall (plain_for name) (children (fill_series md e)).
Proof.
  intros H1 H2. rewrite children_fill_series.
  destruct (truthy (series md)); [| constructor].
  constructor; [apply plain_leaf |].
  repeat (apply Forall_app; split;
          [apply Forall_child_if; intros _; apply plain_leaf |]).
  apply Forall_child_if. intros _. right.
  rewrite tag_alternative_names, tags_below_alternative_names. split.
  - congruence.
  - intros Hin. apply in_map_iff in Hin. destruct Hin as (a & E & _). congruence.
Qed.

Ltac series_text :=
  unfold child_text, find; rewrite children_fill_series;
  destruct (truthy (series _)); [| reflexivity];
  cbn [find_in leaf tag String.eqb Ascii.eqb Bool.eqb andb text];
  rewrite ?find_in_child_if, ?find_in_child_if_last, ?tag_alternative_names;
  cbn [leaf tag String.eqb Ascii.eqb Bool.eqb andb];
  rewrite ?andb_false_r, ?andb_true_r;
  repeat match goal with
         | |- context [if ?b then _ else _] => destruct b
         end;
  try reflexivity.

Lemma series_name_text md e :
  child_text "Name" (fill_series md e) = written (series md).
Proof.
  unfold written. unfold child_text, find. rewrite children_fill_series.
  destruct (series md) as [[| a s] |]; reflexivity.
Qed.

Lemma series_volume_text md e :
  child_text "Volume" (fill_series md e)
  = if truthy (series md) && truthy_int (volume md)
    then text_opt (PyStr.of_int (int_of (volume md)))
    else None.
Proof. series_text. Qed.

Lemma series_format_text md e :
  child_text "Format" (fill_series md e)
  = if truthy (series md) && truthy (format md)
    then Some (normalize_format (text_of (format md)))
    else None.
Proof.
  unfold child_text, find. rewrite children_fill_series.
  destruct (truthy (series md)); [| reflexivity].
  cbn [find_in leaf tag String.eqb Ascii.eqb Bool.eqb andb text].
  rewrite ?find_in_child_if, ?find_in_child_if_last, ?tag_alternative_names.
  cbn [leaf tag String.eqb Ascii.eqb Bool.eqb andb].
  rewrite ?andb_false_r, ?andb_true_r.
  destruct (truthy_int (volume md)), (truthy (format md));
    cbn [text leaf andb find_in app child_if];
    rewrite ?find_in_child_if, ?find_in_child_if_last, ?tag_alternative_names;
    cbn [leaf tag String.eqb Ascii.eqb Bool.eqb andb];
    rewrite ?andb_false_r;
    unfold text_opt; rewrite ?normalize_format_nonempty;
    repeat match goal with
           | |- context [if ?b then _ else _] => destruct b
           end; reflexivity.
Qed.

Lemma series_issue_count_text md e :
  child_text "IssueCount" (fill_series md e)
  = if truthy (series md) && truthy_int (issue_count md)
    then text_opt (PyStr.of_int (int_of (issue_count md)))
    else None.
Proof. series_text. Qed.

Lemma children_fill_publisher md e :
  children (fill_publisher md e) =
  if truthy (publisher md) then
    leaf "Name" (text_opt (text_of (publisher md)))
      :: child_if (truthy (imprint md))
           (leaf "Imprint" (text_opt (text_of (imprint md))))
  else [].
Proof.
  unfold fill_publisher. cbv zeta. rewrite !add_element_leaf.
  destruct (truthy (publisher md)), (truthy (imprint md)); reflexivity.
Qed.

Lemma plain_publisher md e name :
  Forall (plain_for name) (children (fill_publisher md e)).
Proof.
  rewrite children_fill_publisher.
  destruct (truthy (publisher md)); [| constructor].
  constructor; [apply plain_leaf |].
  apply Forall_child_if. intros _. apply plain_leaf.
Qed.

Lemma publisher_name_text md e :
  child_text "Name" (fill_publisher md e) = written (publisher md).
Proof.
  unfold written, child_text, find. rewrite children_fill_publisher.
  destruct (publisher md) as [[| a s] |]; reflexivity.
Qed.

Lemma publisher_imprint_text md e :
  child_text "Imprint" (fill_publisher md e)
  = if truthy (publisher md) then written (imprint md) else None.
Proof.
  unfold written, child_text, find. rewrite children_fill_publisher.
  destruct (truthy (publisher md)); [| reflexivity].
  destruct (imprint md) as [[| a s] |]; reflexivity.
Qed.

(** The fields of the record the encoder leaves that it does not touch. *)
Lemma issue_encoded md : issue (series_md md) = issue md.
Proof. md_field. Qed.

Lemma description_encoded md : description (manga_md (series_md md)) = description md.
Proof. md_field. Qed.

Lemma notes_encoded md : notes (encoded_md md) = notes md.
Proof. md_field. Qed.

Lemma imprint_encoded md : imprint (encoded_md md) = imprint md.
Proof. md_field. Qed.

Lemma price_encoded md : price (encoded_md md) = price md.
Proof. md_field. Qed.

Lemma identifier_encoded md : identifier (encoded_md md) = identifier md.
Proof. md_field. Qed.

Lemma pub_date_encoded md : pub_date (encoded_md md) = pub_date md.
Proof. unfold pub_date. rewrite day_encoded, month_encoded, year_encoded. reflexivity. Qed.

(** The texts of the top-level elements without children. *)
Ltac fresh_leaf_text Hout f :=
  rewrite (fresh_get_text _ _ _ _ _ _ Hout)
    by (try inner_tag; cbv [fresh_child];
        match goal with
        | |- context [filler ?GM ?now ?md ?t] =>
            change (filler GM now md t) with (Some f)
        end;
        cbv beta iota delta [fill_number fill_summary fill_notes fill_age_rating
                               fill_cover_date fill_title];
        repeat match goal with
               | |- context [if ?b then _ else _] => destruct b
               end; reflexivity);
  cbv [fresh_child];
  match goal with
  | |- context [filler ?GM ?now ?md ?t] =>
      change (filler GM now md t) with (Some f)
  end;
  cbv beta iota delta [fill_number fill_summary fill_notes fill_age_rating
                         fill_cover_date fill_title].

Lemma fresh_number_text GM now fromstring md out :
  snd (_convert_metadata_to_xml GM now fromstring md []) = OK out ->
  get_text out "Number" None = written (issue md).
Proof.
  intros Hout. fresh_leaf_text Hout (fill_number (series_md md)).
  unfold written. rewrite issue_encoded. destruct (truthy (issue md)); reflexivity.
Qed.

Lemma fresh_summary_text GM now fromstring md out :
  snd (_convert_metadata_to_xml GM now fromstring md []) = OK out ->
  get_text out "Summary" None = written (description md).
Proof.
  intros Hout. fresh_leaf_text Hout (fill_summary (manga_md (series_md md))).
  unfold written. rewrite description_encoded.
  destruct (truthy (description md)); reflexivity.
Qed.

Lemma fresh_notes_text GM now fromstring md out :
  snd (_convert_metadata_to_xml GM now fromstring md []) = OK out ->
  get_text out "Notes" None = written (notes md).
Proof.
  intros Hout. fresh_leaf_text Hout (fill_notes (encoded_md md)).
  unfold written. rewrite notes_encoded. destruct (truthy (notes md)); reflexivity.
Qed.

Lemma fresh_age_rating_text GM now fromstring md out :
  snd (_convert_metadata_to_xml GM now fromstring md []) = OK out ->
  get_text out "AgeRating" None
  = if truthy (maturity_rating md)
    then Some (normalize_maturity (text_of (maturity_rating md)))
    else None.
Proof.
  intros Hout. fresh_leaf_text Hout (fill_age_rating (manga_md (series_md md))).
  rewrite maturity_rating_before.
  destruct (truthy (maturity_rating md)); reflexivity.
Qed.

Lemma fresh_cover_date_text GM now fromstring md out :
  snd (_convert_metadata_to_xml GM now fromstring md []) = OK out ->
  get_text out "CoverDate" None
  = if truthy_int (year md) then Some (pub_date md) else None.
Proof.
  intros Hout. fresh_leaf_text Hout (fill_cover_date (encoded_md md)).
  rewrite year_encoded, pub_date_encoded.
  destruct (truthy_int (year md)); reflexivity.
Qed.

Lemma fresh_title_text GM now fromstring md out :
  snd (_convert_metadata_to_xml GM now fromstring md []) = OK out ->
  get_text out "CollectionTitle" None
  = if truthy (title md) && encoded_trade_paperback md then title md else None.
Proof.
  intros Hout. fresh_leaf_text Hout (fill_title (series_md md)).
  rewrite title_series_md, is_trade_paperback_series_md.
  destruct (truthy (title md) && encoded_trade_paperback md); reflexivity.
Qed.

(** The texts read below [Series] and [Publisher]. *)
Lemma fresh_series GM now fromstring md out :
  snd (_convert_metadata_to_xml GM now fromstring md []) = OK out ->
  exists e,
    get_element out "Series" None = Some e
    /\ content e = content (indent_elem 1 (fill_series md (ET.new "Series"))).
Proof.
  intros Hout. apply (fresh_get_element GM now fromstring md out "Series" Hout).
  inner_tag.
Qed.

Lemma fresh_publisher GM now fromstring md out :
  snd (_convert_metadata_to_xml GM now fromstring md []) = OK out ->
  exists e,
    get_element out "Publisher" None = Some e
    /\ content e
       = content (indent_elem 1 (fill_publisher (encoded_md md) (ET.new "Publisher"))).
Proof.
  intros Hout. apply (fresh_get_element GM now fromstring md out "Publisher" Hout).
  inner_tag.
Qed.

Lemma children_fill_prices md e :
  children (fill_prices md e) =
  match price md with
  | Some p => [new_element "Price" p [("country", "US")]]
  | None => []
  end.
Proof. unfold fill_prices. destruct (price md); reflexivity. Qed.

Lemma fresh_prices GM now fromstring md out :
  snd (_convert_metadata_to_xml GM now fromstring md []) = OK out ->
  exists e,
    find_desc "Prices" out = Some e
    /\ read_price e None
       = OK (match price md with Some p => text_opt p | None => None end).
Proof.
  intros Hout.
  destruct (fresh_top GM now fromstring md out "Prices" Hout ltac:(inner_tag))
    as (e & He & Hc).
  exists e. split; [exact He |].
  change (fresh_child GM now md "Prices")
    with (fill_prices (encoded_md md) (ET.new "Prices")) in Hc.
  pose proof (children_texts e 1 _ Hc) as Hts.
  rewrite children_fill_prices, price_encoded in Hts.
  unfold read_price. destruct (price md) as [p |].
  - specialize (Hts ltac:(constructor; [apply is_leaf_new_element | constructor])).
    cbn [map] in Hts. rewrite text_new_element in Hts.
    destruct (children e) as [| x [| y l]]; try discriminate Hts.
    cbn [map] in Hts. cbn [length Nat.ltb Nat.leb bind].
    assert (Hx : text x = text_opt p) by congruence.
    rewrite Hx. reflexivity.
  - specialize (Hts ltac:(constructor)). cbn [map] in Hts.
    destruct (children e); [reflexivity | discriminate Hts].
Qed.

(** The decoder returns on every document made from no existing bytes. *)
Lemma fresh_decodes GM now fromstring U md out :
  snd (_convert_metadata_to_xml GM now fromstring md []) = OK out ->
  exists d,
    decode U out = OK d
    /\ Decoded.price d
       = match price md with Some p => text_opt p | None => None end.
Proof.
  intros Hout.
  assert (Htag : String.eqb (tag out) "MetronInfo" = true).
  { rewrite (proj1 (fresh_tags _ _ _ _ _ Hout)). reflexivity. }
  pose proof (decode_price U out Htag) as Hp.
  destruct (fresh_prices _ _ _ _ _ Hout) as (e & He & Hr).
  rewrite He, Hr in Hp. exact Hp.
Qed.

Ltac decoded_fields :=
  cbn [Decoded.series Decoded.issue Decoded.issue_count Decoded.title
       Decoded.volume Decoded.genres Decoded.description Decoded.notes
       Decoded.story_arcs Decoded.publisher Decoded.imprint Decoded.day
       Decoded.month Decoded.year Decoded.identifier Decoded.price
       Decoded.language Decoded.web_links Decoded.format
       Decoded.maturity_rating Decoded.page_count Decoded.characters
       Decoded.teams Decoded.locations Decoded.tags Decoded.credits
       Decoded.is_empty Decoded.empty].

(** X21.  What a new document carries of the text fields: decoding the
    document the encoder makes from no existing bytes gives, for the
    series, the issue, the description, the notes, the publisher and the
    imprint, [utils.xlate] of the text the encoder wrote, which is the
    field when it is not empty and [None] otherwise; the imprint is lost
    when there is no publisher, the format when there is no series, and
    format and maturity rating come back under their names of the
    schema. *)
Theorem round_trip_texts GM now fromstring U md out :
  snd (_convert_metadata_to_xml GM now fromstring md []) = OK out ->
  exists d,
    decode U out = OK d
    /\ Decoded.series d = xlate U (written (series md))
    /\ Decoded.issue d = xlate U (written (issue md))
    /\ Decoded.description d = xlate U (written (description md))
    /\ Decoded.notes d = xlate U (written (notes md))
    /\ Decoded.publisher d = xlate U (written (publisher md))
    /\ Decoded.imprint d
       = xlate U (if truthy (publisher md) then written (imprint md) else None)
    /\ Decoded.format d
       = xlate U (if truthy (series md) && truthy (format md)
                  then Some (normalize_format (text_of (format md)))
                  else None)
    /\ Decoded.maturity_rating d
       = xlate U (if truthy (maturity_rating md)
                  then Some (normalize_maturity (text_of (maturity_rating md)))
                  else None).
Proof.
  intros Hout.
  destruct (fresh_decodes GM now fromstring U md out Hout) as (d & Hd & _).
  exists d. split; [exact Hd |].
  destruct (fresh_series _ _ _ _ _ Hout) as (se & Hse & Hsc).
  destruct (fresh_publisher _ _ _ _ _ Hout) as (pe & Hpe & Hpc).
  decode_inv Hd. decoded_fields. rewrite Hse, Hpe.
  rewrite (get_text_written out "Name" se 1 _ Hsc)
    by (apply plain_series; discriminate).
  rewrite (get_text_written out "Format" se 1 _ Hsc)
    by (apply plain_series; discriminate).
  rewrite (get_text_written out "Name" pe 1 _ Hpc) by apply plain_publisher.
  rewrite (get_text_written out "Imprint" pe 1 _ Hpc) by apply plain_publisher.
  rewrite series_name_text, series_format_text, publisher_name_text,
    publisher_imprint_text, publisher_encoded, imprint_encoded.
  rewrite (fresh_number_text _ _ _ _ _ Hout), (fresh_summary_text _ _ _ _ _ Hout),
    (fresh_notes_text _ _ _ _ _ Hout), (fresh_age_rating_text _ _ _ _ _ Hout).
  repeat split.
Qed.

Lemma fold_left_map (A B C : Type) (f : A -> C -> A) (g : B -> C) l a :
  fold_left f (map g l) a = fold_left (fun a b => f a (g b)) l a.
Proof.
  revert a. induction l as [| b l IH]; intros a; [reflexivity |].
  cbn [map fold_left]. apply IH.
Qed.

Lemma texts_set_map e : texts_set e = set_of (map text (children e)).
Proof. unfold texts_set, set_of. rewrite fold_left_map. reflexivity. Qed.

Lemma fold_somes (l : list (option string)) acc :
  fold_left
    (fun l o => match o with Some t => (l ++ [t])%list | None => l end) l acc
  = (acc ++ somes l)%list.
Proof.
  revert acc. induction l as [| o l IH]; intros acc.
  - cbn. rewrite app_nil_r. reflexivity.
  - cbn [fold_left]. rewrite IH. unfold somes. cbn [flat_map].
    destruct o; [rewrite <- app_assoc |]; reflexivity.
Qed.

Lemma texts_list_map e : texts_list e = somes (map text (children e)).
Proof.
  unfold texts_list.
  transitivity
    (fold_left
       (fun l o => match o with Some t => (l ++ [t])%list | None => l end)
       (map text (children e)) []).
  - rewrite fold_left_map. reflexivity.
  - apply fold_somes.
Qed.

Lemma read_arcs_map root e :
  read_arcs root e
  = somes (map (fun arc => get_text root "Name" (Some arc)) (children e)).
Proof.
  unfold read_arcs.
  transitivity
    (fold_left
       (fun l o => match o with Some t => (l ++ [t])%list | None => l end)
       (map (fun arc => get_text root "Name" (Some arc)) (children e)) []).
  - rewrite fold_left_map. reflexivity.
  - apply fold_somes.
Qed.

Lemma somes_text_opt items :
  somes (map text_opt items) = filter PyStr.nonempty items.
Proof.
  induction items as [| i items IH]; [reflexivity |].
  unfold somes in *. cbn [map flat_map filter]. rewrite IH. unfold text_opt.
  destruct (PyStr.nonempty i); reflexivity.
Qed.

(** The children of an element the encoder wrote, read through [obs]. *)
Lemma children_read (A : Type) (obs obs' : Element -> A) e' level e :
  (forall x x', content x = content x' -> obs x = obs x') ->
  (forall c, In c (children e) -> obs (indent_elem (S level) c) = obs' c) ->
  content e' = content (indent_elem level e) ->
  map obs (children e') = map obs' (children e).
Proof.
  intros Hobs Hind Hc. rewrite (content_children _ _ Hc).
  rewrite (map_factor _ obs _ (map (indent_elem (S level)) (children e)) Hobs)
    by (rewrite children_indent_elem, map_map; reflexivity).
  rewrite map_map. apply map_ext_in. exact Hind.
Qed.

Lemma children_text e' level e :
  content e' = content (indent_elem level e) ->
  Forall (fun c => is_leaf c = true) (children e) ->
  map text (children e') = map text (children e).
Proof.
  intros Hc Hleaves. apply (children_read _ text text e' level e); [| | exact Hc].
  - intros x x' Hx. apply content_text, Hx.
  - intros c Hin. rewrite Forall_forall in Hleaves.
    rewrite text_indent_elem, (Hleaves c Hin). reflexivity.
Qed.

Lemma text_fill_list e' level sub items e :
  content e' = content (indent_elem level (fill_list sub items e)) ->
  map text (children e') = map text_opt items.
Proof.
  intros Hc. rewrite (children_text _ _ _ Hc).
  - rewrite children_fill_list, map_map. apply map_ext. intros i.
    apply text_new_element.
  - rewrite children_fill_list. apply Forall_map, Forall_forall. intros i _.
    apply is_leaf_new_element.
Qed.

(** The set read from a top-level element the encoder filled from a
    collection. *)
Lemma fresh_set GM now fromstring md out name sub items :
  snd (_convert_metadata_to_xml GM now fromstring md []) = OK out ->
  In name top_level_tags ->
  fresh_child GM now md name = fill_list sub items (ET.new name) ->
  exists e,
    get_element out name None = Some e
    /\ map text (children e) = map text_opt items.
Proof.
  intros Hout Hin Hf.
  destruct (fresh_get_element _ _ _ _ _ _ Hout Hin) as (e & He & Hc).
  exists e. split; [exact He |]. rewrite Hf in Hc.
  apply (text_fill_list _ _ _ _ _ Hc).
Qed.

Lemma tags_encoded md : tags (encoded_md md) = tags md.
Proof. md_field. Qed.

Lemma characters_encoded md : characters (encoded_md md) = characters md.
Proof. md_field. Qed.

Lemma teams_encoded md : teams (encoded_md md) = teams md.
Proof. md_field. Qed.

Lemma locations_encoded md : locations (encoded_md md) = locations md.
Proof. md_field. Qed.

Lemma story_arcs_encoded md : story_arcs (encoded_md md) = story_arcs md.
Proof. md_field. Qed.

Lemma web_links_before md : web_links (manga_md (series_md md)) = web_links md.
Proof. md_field. Qed.

Lemma fresh_identifier GM now fromstring md out :
  snd (_convert_metadata_to_xml GM now fromstring md []) = OK out ->
  exists e,
    get_element out "GTIN" None = Some e
    /\ read_identifier e None = written (identifier md).
Proof.
  intros Hout.
  destruct (fresh_get_element GM now fromstring md out "GTIN" Hout
              ltac:(inner_tag)) as (e & He & Hc).
  exists e. split; [exact He |].
  change (fresh_child GM now md "GTIN")
    with (fill_gtin (encoded_md md) (ET.new "GTIN")) in Hc.
  pose proof (children_texts e 1 _ Hc) as Hts.
  unfold fill_gtin in Hts. rewrite identifier_encoded in Hts.
  unfold read_identifier, written.
  destruct (identifier md) as [[| a s] |]; cbn [truthy PyStr.nonempty] in *.
  - specialize (Hts ltac:(constructor)). cbn [clear children map] in Hts.
    destruct (children e); [reflexivity | discriminate Hts].
  - specialize (Hts ltac:(constructor; [reflexivity | constructor])).
    cbn in Hts. destruct (children e) as [| x [| y l]]; try discriminate Hts.
    cbn [map] in Hts. cbn [fold_left].
    assert (Hx : tag x = "ISBN") by congruence.
    assert (Hx' : text x = Some (String a s)) by congruence.
    rewrite Hx, Hx'. reflexivity.
  - specialize (Hts ltac:(constructor)). cbn [clear children map] in Hts.
    destruct (children e); [reflexivity | discriminate Hts].
Qed.

Lemma children_fill_arcs md e :
  children (fill_arcs md e)
  = map (fun arc => add_element "Name" arc [] (ET.new "Arc")) (story_arcs md).
Proof.
  unfold fill_arcs.
  rewrite (children_fold_append _
             (fun arc => add_element "Name" arc [] (ET.new "Arc"))).
  reflexivity.
Qed.

Lemma fresh_arcs GM now fromstring md out :
  snd (_convert_metadata_to_xml GM now fromstring md []) = OK out ->
  exists e,
    get_element out "Arcs" None = Some e
    /\ read_arcs out e = filter PyStr.nonempty (story_arcs md).
Proof.
  intros Hout.
  destruct (fresh_get_element GM now fromstring md out "Arcs" Hout
              ltac:(inner_tag)) as (e & He & Hc).
  exists e. split; [exact He |].
  change (fresh_child GM now md "Arcs")
    with (fill_arcs (encoded_md md) (ET.new "Arcs")) in Hc.
  rewrite read_arcs_map.
  rewrite (children_read _ (fun arc => get_text out "Name" (Some arc))
             (child_text "Name") e 1
             (fill_arcs (encoded_md md) (ET.new "Arcs"))).
  - rewrite children_fill_arcs, story_arcs_encoded, map_map.
    rewrite <- somes_text_opt. f_equal. apply map_ext. intros arc.
    rewrite add_element_leaf. reflexivity.
  - intros x x' Hx. rewrite !get_text_sub, (find_desc_content _ _ _ Hx).
    reflexivity.
  - intros c Hin. rewrite children_fill_arcs in Hin. apply in_map_iff in Hin.
    destruct Hin as (arc & <- & _).
    apply (get_text_written out "Name" _ 2 _ eq_refl).
    rewrite add_element_leaf. constructor; [apply plain_leaf | constructor].
  - exact Hc.
Qed.

(** X22.  What a new document carries of the collections: the genres come
    back capitalized, with [Manga] when the encoder added it; genres, tags,
    characters, teams and locations come back as the sets of the texts
    written, where an empty string has become [None]; the story arcs and
    the links come back without their empty members, the links through
    [utils.split_urls]; the identifier comes back as it is when it is not
    empty, and [None] otherwise. *)
Theorem round_trip_collections GM now fromstring U md out :
  snd (_convert_metadata_to_xml GM now fromstring md []) = OK out ->
  exists d,
    decode U out = OK d
    /\ Decoded.genres d
       = set_of (map (fun g => text_opt (PyStr.capitalize g)) (encoded_genres md))
    /\ Decoded.tags d = set_of (map text_opt (tags md))
    /\ Decoded.characters d = set_of (map text_opt (characters md))
    /\ Decoded.teams d = set_of (map text_opt (teams md))
    /\ Decoded.locations d = set_of (map text_opt (locations md))
    /\ Decoded.story_arcs d = filter PyStr.nonempty (story_arcs md)
    /\ Decoded.web_links d
       = split_urls U (String.concat " " (filter PyStr.nonempty (web_links md)))
    /\ Decoded.identifier d = written (identifier md).
Proof.
  intros Hout.
  destruct (fresh_decodes GM now fromstring U md out Hout) as (d & Hd & _).
  exists d. split; [exact Hd |].
  destruct (fresh_set GM now fromstring md out "Genres" "Genre"
              (map PyStr.capitalize (genres (manga_md (series_md md))))
              Hout ltac:(inner_tag) eq_refl) as (eg & Heg & Hcg).
  destruct (fresh_set GM now fromstring md out "Tags" "Tag"
              (tags (encoded_md md)) Hout ltac:(inner_tag) eq_refl)
    as (et & Het & Hct).
  destruct (fresh_set GM now fromstring md out "Characters" "Character"
              (characters (encoded_md md)) Hout ltac:(inner_tag) eq_refl)
    as (ec & Hec & Hcc).
  destruct (fresh_set GM now fromstring md out "Teams" "Team"
              (teams (encoded_md md)) Hout ltac:(inner_tag) eq_refl)
    as (em & Hem & Hcm).
  destruct (fresh_set GM now fromstring md out "Locations" "Location"
              (locations (encoded_md md)) Hout ltac:(inner_tag) eq_refl)
    as (el & Hel & Hcl).
  destruct (fresh_set GM now fromstring md out "URLs" "URL"
              (web_links (manga_md (series_md md))) Hout ltac:(inner_tag) eq_refl)
    as (eu & Heu & Hcu).
  destruct (fresh_arcs _ _ _ _ _ Hout) as (ea & Hea & Hca).
  destruct (fresh_identifier _ _ _ _ _ Hout) as (ei & Hei & Hci).
  decode_inv Hd. decoded_fields.
  rewrite Heg, Het, Hec, Hem, Hel, Heu, Hea, Hei.
  rewrite !texts_set_map, texts_list_map, Hcg, Hct, Hcc, Hcm, Hcl, Hcu, Hca, Hci.
  rewrite genres_before, map_map, tags_encoded, characters_encoded,
    teams_encoded, locations_encoded, web_links_before, somes_text_opt.
  repeat split.
Qed.

Lemma fresh_child_stories GM now md :
  fresh_child GM now md "Stories"
  = fill_list "Story"
      (if truthy (title md) && negb (encoded_trade_paperback md)
       then map PyStr.strip (PyStr.split ";" (text_of (title md)))
       else [])
      (ET.new "Stories").
Proof.
  change (fresh_child GM now md "Stories")
    with (fill_stories (series_md md) (ET.new "Stories")).
  rewrite fill_stories_list, title_series_md, is_trade_paperback_series_md.
  destruct (truthy (title md) && negb (encoded_trade_paperback md)); reflexivity.
Qed.

(** X23.  The title of a new document, read back: it is [utils.xlate] of
    the [CollectionTitle] the encoder wrote when that is not [None], and
    otherwise the stories joined by semicolons, which are the segments of
    the title stripped of their whitespace, without the empty ones.  It is
    never [None]: a record without a title comes back with the empty
    string as its title. *)
Theorem round_trip_title GM now fromstring U md out :
  snd (_convert_metadata_to_xml GM now fromstring md []) = OK out ->
  exists d,
    decode U out = OK d
    /\ Decoded.title d
       = match xlate U (if truthy (title md) && encoded_trade_paperback md
                        then title md else None) with
         | Some t => Some t
         | None =>
             Some (String.concat ";"
                     (if truthy (title md) && negb (encoded_trade_paperback md)
                      then filter PyStr.nonempty
                             (map PyStr.strip
                                (PyStr.split ";" (text_of (title md))))
                      else []))
         end
    /\ Decoded.title d <> None.
Proof.
  intros Hout.
  destruct (fresh_decodes GM now fromstring U md out Hout) as (d & Hd & _).
  exists d. split; [exact Hd |].
  destruct (fresh_set GM now fromstring md out "Stories" "Story" _
              Hout ltac:(inner_tag) (fresh_child_stories GM now md))
    as (es & Hes & Hcs).
  decode_inv Hd. decoded_fields.
  rewrite Hes, (fresh_title_text _ _ _ _ _ Hout), texts_list_map, Hcs,
    somes_text_opt.
  assert (Hitems :
            filter PyStr.nonempty
              (if truthy (title md) && negb (encoded_trade_paperback md)
               then map PyStr.strip (PyStr.split ";" (text_of (title md)))
               else [])
            = if truthy (title md) && negb (encoded_trade_paperback md)
              then filter PyStr.nonempty
                     (map PyStr.strip (PyStr.split ";" (text_of (title md))))
              else []).
  { destruct (truthy (title md) && negb (encoded_trade_paperback md));
      reflexivity. }
  rewrite Hitems.
  destruct (xlate U (if truthy (title md) && encoded_trade_paperback md
                     then title md else None));
    split; try reflexivity; discriminate.
Qed.

(** X24.  What a new document carries of the numbers: the volume and the
    issue count come back as the strings the encoder wrote for them,
    through [utils.xlate], and are lost when there is no series or when
    they are zero; day, month and year are read by [utils.parse_date_str]
    and [utils.xlate_int] from the cover date the encoder wrote, which is
    absent when the year is. *)
Theorem round_trip_numbers GM now fromstring U md out :
  snd (_convert_metadata_to_xml GM now fromstring md []) = OK out ->
  exists d,
    decode U out = OK d
    /\ Decoded.volume d
       = xlate U (if truthy (series md) && truthy_int (volume md)
                  then text_opt (PyStr.of_int (int_of (volume md)))
                  else None)
    /\ Decoded.issue_count d
       = xlate U (if truthy (series md) && truthy_int (issue_count md)
                  then text_opt (PyStr.of_int (int_of (issue_count md)))
                  else None)
    /\ (let cover_date :=
          parse_date_str U
            (xlate U (if truthy_int (year md) then Some (pub_date md) else None)) in
        Decoded.day d = match fst (fst cover_date) with
                        | Some p => xlate_int U p
                        | None => None
                        end
        /\ Decoded.month d = match snd (fst cover_date) with
                             | Some p => xlate_int U p
                             | None => None
                             end
        /\ Decoded.year d = match snd cover_date with
                            | Some p => xlate_int U p
                            | None => None
                            end).
Proof.
  intros Hout.
  destruct (fresh_decodes GM now fromstring U md out Hout) as (d & Hd & _).
  exists d. split; [exact Hd |].
  destruct (fresh_series _ _ _ _ _ Hout) as (se & Hse & Hsc).
  decode_inv Hd. decoded_fields. rewrite Hse.
  rewrite (get_text_written out "Volume" se 1 _ Hsc)
    by (apply plain_series; discriminate).
  rewrite (get_text_written out "IssueCount" se 1 _ Hsc)
    by (apply plain_series; discriminate).
  rewrite series_volume_text, series_issue_count_text,
    (fresh_cover_date_text _ _ _ _ _ Hout).
  cbv zeta. repeat split.
Qed.

(** ** Credits *)

Lemma fold_role_calls (creator : string) roles
    (credits : list (string * option string)) :
  fold_left (fun credits role => (credits ++ [(creator, text role)])%list)
    roles credits
  = (credits ++ map (fun role => (creator, text role)) roles)%list.
Proof.
  revert credits. induction roles as [| r roles IH]; intros credits.
  - cbn. rewrite app_nil_r. reflexivity.
  - cbn [fold_left map]. rewrite IH, <- app_assoc. reflexivity.
Qed.

Lemma read_credits_map (xlate : option string -> option string) root e credits :
  read_credits xlate root e credits
  = (credits
       ++ concat
            (map (fun credit =>
                    match xlate (get_text root "Creator" (Some credit)) with
                    | Some creator =>
                        match get_element root "Roles" (Some credit) with
                        | Some roles =>
                            map (fun role => (creator, text role)) (children roles)
                        | None => []
                        end
                    | None => []
                    end)
               (children e)))%list.
Proof.
  unfold read_credits. generalize (children e) as cs. intros cs. revert credits.
  induction cs as [| c cs IH]; intros credits.
  - cbn. rewrite app_nil_r. reflexivity.
  - cbn [fold_left map concat]. rewrite IH.
    destruct (xlate (get_text root "Creator" (Some c))) as [creator |].
    + destruct (get_element root "Roles" (Some c)) as [roles |].
      * rewrite fold_role_calls, <- app_assoc. reflexivity.
      * reflexivity.
    + reflexivity.
Qed.

Lemma children_credit_element creator roles :
  children (credit_element creator roles)
  = (leaf "Creator" (text_opt creator)
       :: child_if (0 <? length roles)%nat (roles_element roles))%list.
Proof.
  unfold credit_element. rewrite add_element_leaf. fold (roles_element roles).
  destruct (0 <? length roles)%nat; reflexivity.
Qed.

Lemma tags_below_roles_element roles :
  tags_below (roles_element roles) = map (fun _ => "Role") roles.
Proof.
  rewrite tags_below_children, children_roles_element.
  induction roles as [| r roles IH]; [reflexivity |].
  cbn [map]. rewrite tags_in_cons, IH. reflexivity.
Qed.

Lemma not_below_credit_element name creator roles :
  name <> "Role" ->
  Forall (fun c => ~ In name (tags_below c))
    (children (credit_element creator roles)).
Proof.
  intros Hne. rewrite children_credit_element.
  constructor; [intros [] |].
  apply Forall_child_if. intros _. rewrite tags_below_roles_element.
  intros Hin. apply in_map_iff in Hin. destruct Hin as (r & E & _). congruence.
Qed.

Lemma plain_creator creator roles :
  Forall (plain_for "Creator") (children (credit_element creator roles)).
Proof.
  rewrite children_credit_element. constructor; [apply plain_leaf |].
  apply Forall_child_if. intros _. right.
  rewrite tag_roles_element, tags_below_roles_element. split; [discriminate |].
  intros Hin. apply in_map_iff in Hin. destruct Hin as (r & E & _). discriminate E.
Qed.

(** The calls the decoder makes for a [Credit] element the encoder
    wrote. *)
Lemma credit_element_calls (xlate : option string -> option string) root level
    creator roles :
  PyStr.nonempty creator = true ->
  match xlate (get_text root "Creator"
                 (Some (indent_elem level (credit_element creator roles)))) with
  | Some c =>
      match get_element root "Roles"
              (Some (indent_elem level (credit_element creator roles))) with
      | Some rs => map (fun role => (c, text role)) (children rs)
      | None => []
      end
  | None => []
  end
  = match xlate (Some creator) with
    | Some c => map (fun role => (c, Some role)) roles
    | None => []
    end.
Proof.
  intros Hne.
  rewrite (get_text_written root "Creator" _ level _ eq_refl)
    by apply plain_creator.
  unfold child_text. rewrite find_creator_credit_element, text_new_element.
  unfold text_opt. rewrite Hne.
  destruct (xlate (Some creator)) as [c |]; [| reflexivity].
  pose proof (get_element_written root "Roles" _ level
                (credit_element creator roles) eq_refl
                (not_below_credit_element "Roles" creator roles
                   ltac:(discriminate))) as H.
  rewrite find_roles_credit_element in H.
  destruct roles as [| r roles].
  - cbn [option_map] in H.
    destruct (get_element root "Roles"
                (Some (indent_elem level (credit_element creator [])))) ;
      [discriminate H | reflexivity].
  - cbn [option_map] in H.
    destruct (get_element root "Roles"
                (Some (indent_elem level (credit_element creator (r :: roles)))))
      as [rs |]; [| discriminate H].
    cbn [option_map] in H.
    assert (Hrs : content rs
                  = content (indent_elem (S level) (roles_element (r :: roles))))
      by congruence.
    rewrite <- (map_map text (fun t => (c, t))).
    rewrite (children_text _ _ _ Hrs).
    + rewrite children_roles_element, !map_map. reflexivity.
    + rewrite children_roles_element. apply Forall_map, Forall_forall.
      intros x _. reflexivity.
Qed.

Lemma named_nonempty creators entry :
  In entry (named creators) -> PyStr.nonempty (fst (snd entry)) = true.
Proof. unfold named. intros H. apply filter_In in H. apply H. Qed.

(** X25.  What a new document carries of the credits: for each creator the
    encoder wrote, in the order of the [Credit] elements, the decoder calls
    [md.add_credit] once for each role written, with [utils.xlate] of the
    creator's name as the person; a creator whose name [utils.xlate] turns
    into [None] is dropped with all roles. *)
Theorem round_trip_credits GM now fromstring U md out :
  snd (_convert_metadata_to_xml GM now fromstring md []) = OK out ->
  exists d,
    decode U out = OK d
    /\ Decoded.credits d
       = flat_map (credit_calls U) (named (collect_creators GM (credits md))).
Proof.
  intros Hout.
  destruct (fresh_decodes GM now fromstring U md out Hout) as (d & Hd & _).
  exists d. split; [exact Hd |].
  destruct (fresh_get_element GM now fromstring md out "Credits" Hout
              ltac:(inner_tag)) as (e & He & Hc).
  change (fresh_child GM now md "Credits")
    with (fill_credits GM md (ET.new "Credits")) in Hc.
  decode_inv Hd. decoded_fields. rewrite He, read_credits_map. cbn [app].
  rewrite (children_read _ _
             (fun c =>
                match xlate U (get_text out "Creator"
                                 (Some (indent_elem 2 c))) with
                | Some creator =>
                    match get_element out "Roles" (Some (indent_elem 2 c)) with
                    | Some roles =>
                        map (fun role => (creator, text role)) (children roles)
                    | None => []
                    end
                | None => []
                end) e 1 (fill_credits GM md (ET.new "Credits"))).
  - rewrite children_fill_credits, map_map, flat_map_concat_map. f_equal.
    apply map_ext_in. intros entry Hin. unfold credit_calls.
    apply (credit_element_calls (xlate U) out 2).
    eapply named_nonempty, Hin.
  - intros x x' Hx.
    rewrite !get_text_sub, !get_element_sub, (find_desc_content _ _ _ Hx),
      (find_desc_content "Roles" _ _ Hx).
    reflexivity.
  - intros c Hin. reflexivity.
  - exact Hc.
Qed.

Lemma lang_fill_series md e : dict_get "lang" (attrib (fill_series md e)) = None.
Proof.
  unfold fill_series. cbv zeta.
  destruct (truthy (series md)); [| reflexivity].
  destruct (series_id md), (truthy_int (volume md)), (truthy (format md)),
    (truthy_int (issue_count md)), (truthy_int (volume_count md)),
    (series_aliases md); reflexivity.
Qed.

(** X26.  Every document the encoder makes from no existing bytes can be
    read back: the decoder returns a record for it, marked as not empty.
    The language and the page count are not carried: the encoder writes
    neither, so the language read is [None] and the page count is what
    [utils.xlate_int] makes of [None]. *)
Theorem new_document_decodes GM now fromstring U md out :
  snd (_convert_metadata_to_xml GM now fromstring md []) = OK out ->
  exists d,
    decode U out = OK d
    /\ Decoded.is_empty d = false
    /\ Decoded.language d = None
    /\ Decoded.page_count d = xlate_int_text U None.
Proof.
  intros Hout.
  destruct (fresh_decodes GM now fromstring U md out Hout) as (d & Hd & _).
  exists d. split; [exact Hd |].
  destruct (fresh_series _ _ _ _ _ Hout) as (se & Hse & Hsc).
  assert (Hpage : get_text out "PageCount" None = None).
  { rewrite get_text_root.
    rewrite (fresh_absent GM now fromstring md out "PageCount" Hout);
      [reflexivity | |];
      intros H; apply mem_In in H; discriminate H. }
  decode_inv Hd. decoded_fields. rewrite Hse, Hpage.
  rewrite (content_attrib' _ _ Hsc), attrib_indent_elem, lang_fill_series.
  repeat split.
Qed.

(** ** A document without [Series] *)

(** X27.  [get_text(name, None)] searches the whole document, so on a
    document without a [Series] element the series, the volume, the issue
    count and the format are read from the first [Name], [Volume],
    [IssueCount] and [Format] elements anywhere in it: when the first
    [Name] of the document is the publisher's, the series read is the
    publisher read. *)
Theorem series_without_element U root d :
  decode U root = OK d ->
  find_desc "Series" root = None ->
  Decoded.series d = xlate U (get_text root "Name" None)
  /\ Decoded.volume d = xlate U (get_text root "Volume" None)
  /\ Decoded.issue_count d = xlate U (get_text root "IssueCount" None)
  /\ Decoded.format d = xlate U (get_text root "Format" None)
  /\ Decoded.language d = None
  /\ (forall m_publisher,
        find_desc "Publisher" root = Some m_publisher ->
        find_desc "Name" root = find_desc "Name" m_publisher ->
        Decoded.series d = Decoded.publisher d).
Proof.
  intros Hd Hs. decode_inv Hd. decoded_fields.
  rewrite !get_element_root, Hs. repeat split.
  intros p Hp Hname. rewrite Hp, get_text_root, get_text_sub, Hname. reflexivity.
Qed.

Lemma series_without_element_witness :
  option_map (fun d => (Decoded.series d, Decoded.publisher d))
    (match decode sample_utils doc_without_series with
     | OK d => Some d
     | Raise _ => None
     end)
  = Some (Some "Image", Some "Image").
Proof.
  destruct (decode sample_utils doc_without_series) as [d | e] eqn:Hd.
  - cbn [option_map].
    destruct (series_without_element sample_utils doc_without_series d Hd
                eq_refl) as (Hs & _ & _ & _ & _ & Hp).
    rewrite <- (Hp (mkElement "Publisher" [] None None
                      [ leaf "Name" (Some "Image") ]) eq_refl eq_refl).
    rewrite Hs. reflexivity.
  - vm_compute in Hd. discriminate Hd.
Defined.

(** ** Witnesses of the round trips *)

Lemma round_trip_texts_witness :
  option_map
    (fun d => (Decoded.series d, Decoded.format d, Decoded.imprint d,
               Decoded.description d, Decoded.maturity_rating d))
    (decoded sample_utils
       (_convert_metadata_to_xml sample_synonyms sample_now
          (parser_of fresh_root) md_saga []))
  = Some (Some "Saga", Some "Trade Paperback", None, None, Some "Mature").
Proof.
  unfold decoded, document.
  destruct (snd (_convert_metadata_to_xml sample_synonyms sample_now
                   (parser_of fresh_root) md_saga [])) as [out | e] eqn:E.
  - destruct (round_trip_texts sample_synonyms sample_now
                (parser_of fresh_root) sample_utils md_saga out E)
      as (d & Hd & Hs & _ & Hde & _ & _ & Hi & Hf & Hm).
    rewrite Hd. cbn [option_map]. rewrite Hs, Hde, Hi, Hf, Hm. reflexivity.
  - vm_compute in E. discriminate E.
Defined.

Lemma round_trip_collections_witness :
  option_map
    (fun d => (Decoded.genres d, Decoded.tags d, Decoded.story_arcs d,
               Decoded.web_links d, Decoded.identifier d))
    (decoded sample_utils
       (_convert_metadata_to_xml sample_synonyms sample_now
          (parser_of fresh_root) md_saga []))
  = Some ([Some "Fantasy"; Some "Manga"], [Some "space"; None], ["Arc One"],
          ["https://a.example"; "https://b.example"], Some "978-1").
Proof.
  unfold decoded, document.
  destruct (snd (_convert_metadata_to_xml sample_synonyms sample_now
                   (parser_of fresh_root) md_saga [])) as [out | e] eqn:E.
  - destruct (round_trip_collections sample_synonyms sample_now
                (parser_of fresh_root) sample_utils md_saga out E)
      as (d & Hd & Hg & Ht & _ & _ & _ & Ha & Hw & Hi).
    rewrite Hd. cbn [option_map]. rewrite Hg, Ht, Ha, Hw, Hi. reflexivity.
  - vm_compute in E. discriminate E.
Defined.

Lemma round_trip_title_witness :
  option_map Decoded.title
    (decoded sample_utils
       (_convert_metadata_to_xml sample_synonyms sample_now
          (parser_of fresh_root) (md_with_title "One; ;Two ") []))
  = Some (Some "One;Two")
  /\ option_map Decoded.title
       (decoded sample_utils
          (_convert_metadata_to_xml sample_synonyms sample_now
             (parser_of fresh_root) (md_with_year 5) []))
     = Some (Some "").
Proof.
  unfold decoded, document. split.
  - destruct (snd (_convert_metadata_to_xml sample_synonyms sample_now
                     (parser_of fresh_root) (md_with_title "One; ;Two ") []))
      as [out | e] eqn:E.
    + destruct (round_trip_title sample_synonyms sample_now
                  (parser_of fresh_root) sample_utils _ out E)
        as (d & Hd & Ht & _).
      rewrite Hd. cbn [option_map]. rewrite Ht. reflexivity.
    + vm_compute in E. discriminate E.
  - destruct (snd (_convert_metadata_to_xml sample_synonyms sample_now
                     (parser_of fresh_root) (md_with_year 5) []))
      as [out | e] eqn:E.
    + destruct (round_trip_title sample_synonyms sample_now
                  (parser_of fresh_root) sample_utils _ out E)
        as (d & Hd & Ht & _).
      rewrite Hd. cbn [option_map]. rewrite Ht. reflexivity.
    + vm_compute in E. discriminate E.
Defined.

Lemma round_trip_numbers_witness :
  option_map
    (fun d => (Decoded.volume d, Decoded.issue_count d, Decoded.day d,
               Decoded.month d, Decoded.year d))
    (decoded sample_utils
       (_convert_metadata_to_xml sample_synonyms sample_now
          (parser_of fresh_root) md_saga []))
  = Some (Some "1", Some "54", Some 1%Z, Some 3%Z, Some 2012%Z).
Proof.
  unfold decoded, document.
  destruct (snd (_convert_metadata_to_xml sample_synonyms sample_now
                   (parser_of fresh_root) md_saga [])) as [out | e] eqn:E.
  - destruct (round_trip_numbers sample_synonyms sample_now
                (parser_of fresh_root) sample_utils md_saga out E)
      as (d & Hd & Hv & Hi & Hday & Hmonth & Hyear).
    rewrite Hd. cbn [option_map]. rewrite Hv, Hi, Hday, Hmonth, Hyear.
    reflexivity.
  - vm_compute in E. discriminate E.
Defined.

Lemma round_trip_credits_witness :
  option_map Decoded.credits
    (decoded sample_utils
       (_convert_metadata_to_xml sample_synonyms sample_now
          (parser_of fresh_root) md_saga []))
  = Some [("Jane Doe", Some "Writer"); ("Jane Doe", Some "Penciller")].
Proof.
  unfold decoded, document.
  destruct (snd (_convert_metadata_to_xml sample_synonyms sample_now
                   (parser_of fresh_root) md_saga [])) as [out | e] eqn:E.
  - destruct (round_trip_credits sample_synonyms sample_now
                (parser_of fresh_root) sample_utils md_saga out E)
      as (d & Hd & Hc).
    rewrite Hd. cbn [option_map]. rewrite Hc. reflexivity.
  - vm_compute in E. discriminate E.
Defined.

Lemma new_document_decodes_witness :
  option_map (fun d => (Decoded.is_empty d, Decoded.language d))
    (decoded sample_utils
       (_convert_metadata_to_xml sample_synonyms sample_now
          (parser_of fresh_root) md_saga []))
  = Some (false, None).
Proof.
  unfold decoded, document.
  destruct (snd (_convert_metadata_to_xml sample_synonyms sample_now
                   (parser_of fresh_root) md_saga [])) as [out | e] eqn:E.
  - destruct (new_document_decodes sample_synonyms sample_now
                (parser_of fresh_root) sample_utils md_saga out E)
      as (d & Hd & He & Hl & _).
    rewrite Hd. cbn [option_map]. rewrite He, Hl. reflexivity.
  - vm_compute in E. discriminate E.
Defined.
